(** * OFC pineapple rooms: a shallow embedding of [src/game/rooms.js]

    The socket handlers of [rooms.js] are embedded as store-passing
    functions: a handler takes the room registry ([mem.rooms]), the calling
    socket and the wire arguments, and returns the registry after the call,
    the messages it emitted, in order, and how the call completed (normal
    return or thrown exception).  State a JavaScript function mutates before
    it throws stays mutated, so the registry is returned in both cases. *)

From stdpp Require Import gmap strings list fin_maps pretty.
From Stdlib Require Import ZArith Lia.

Open Scope string_scope.
Open Scope list_scope.

(** ** JavaScript primitives used by the handlers *)

(** What a call can throw. [TypeError] is the runtime's; [DeckExhausted]
    and [InsufficientPlayers] are the failures of [state.js]. *)
Inductive Exn :=
| TypeError (msg : string)
| DeckExhausted
| InsufficientPlayers.

(** Completion of a call: normal return with a value, or an exception. *)
Inductive Completion (A : Type) :=
| Returned (a : A)
| Threw (e : Exn).
Arguments Returned {A} a.
Arguments Threw {A} e.

Definition bind {A B} (c : Completion A) (f : A -> Completion B)
  : Completion B :=
  match c with
  | Returned a => f a
  | Threw e => Threw e
  end.

Module Js.

(** A string-or-null wire value used as a condition: [null] and the empty
    string are falsy.  Returns the string when it is truthy. *)
Definition truthy (v : option string) : option string :=
  match v with
  | Some s => if String.eqb s "" then None else Some s
  | None => None
  end.

(** [Array.prototype.indexOf] on an array of strings: first index of a
    strictly equal element, [-1] when there is none. *)
Fixpoint indexOf (l : list string) (x : string) : Z :=
  match l with
  | [] => (-1)%Z
  | y :: l' =>
      if String.eqb y x then 0%Z
      else let i := indexOf l' x in
           if (i =? -1)%Z then (-1)%Z else (i + 1)%Z
  end.

(** [a.splice(idx, 1)] for an index [idx >= 0]. *)
Definition splice1 {A} (l : list A) (idx : Z) : list A :=
  delete (Z.to_nat idx) l.

(** [a.slice(-n)]: the last [n] elements; [-0] is [0], so [n = 0] gives
    the whole array. *)
Definition slice_last {A} (n : nat) (l : list A) : list A :=
  if Nat.eqb n 0 then l else drop (length l - n) l.

(** [s.slice(-n)] on a string, [n > 0]. *)
Definition str_slice_last (n : nat) (s : string) : string :=
  String.substring (String.length s - n) n s.

(** Own and inherited members of [Object.prototype], with the [length]
    property of each ([None]: the member has no [length]).  Every object
    literal answers to these names. *)
Definition object_prototype (key : string) : option (option nat) :=
  if String.eqb key "constructor" then Some (Some 1)
  else if String.eqb key "hasOwnProperty" then Some (Some 1)
  else if String.eqb key "isPrototypeOf" then Some (Some 1)
  else if String.eqb key "propertyIsEnumerable" then Some (Some 1)
  else if String.eqb key "toString" then Some (Some 0)
  else if String.eqb key "toLocaleString" then Some (Some 0)
  else if String.eqb key "valueOf" then Some (Some 0)
  else if String.eqb key "__defineGetter__" then Some (Some 2)
  else if String.eqb key "__defineSetter__" then Some (Some 2)
  else if String.eqb key "__lookupGetter__" then Some (Some 1)
  else if String.eqb key "__lookupSetter__" then Some (Some 1)
  else if String.eqb key "__proto__" then Some None
  else None.

End Js.

(** A [Map] with string keys: entries in insertion order, keys distinct.
    [set] on a present key replaces the value where it stands. *)
Module JsMap.
Section Ops.
Context {V : Type}.

Fixpoint get (m : list (string * V)) (k : string) : option V :=
  match m with
  | [] => None
  | (k', v) :: m' => if String.eqb k' k then Some v else get m' k
  end.

Fixpoint set (m : list (string * V)) (k : string) (v : V)
  : list (string * V) :=
  match m with
  | [] => [(k, v)]
  | (k', v') :: m' =>
      if String.eqb k' k then (k, v) :: m' else (k', v') :: set m' k v
  end.

Fixpoint remove (m : list (string * V)) (k : string)
  : list (string * V) :=
  match m with
  | [] => []
  | (k', v') :: m' =>
      if String.eqb k' k then m' else (k', v') :: remove m' k
  end.

Definition size (m : list (string * V)) : nat := length m.
Definition keys (m : list (string * V)) : list string := map fst m.
Definition values (m : list (string * V)) : list V := map snd m.

(** [for (const v of m.values()) v.field = ...]: every value updated
    in place. *)
Definition update_all (f : V -> V) (m : list (string * V))
  : list (string * V) :=
  map (fun kv => (fst kv, f (snd kv))) m.

End Ops.

(** Keys are distinct in every map the runtime builds. *)
Definition wf {V} (m : list (string * V)) : Prop := NoDup (keys m).

End JsMap.


(** ** Configuration ([rules.js]) *)

Module Rules.
(** [rules.js] is not part of the sources at hand; its constants are the
    fields the handlers read. *)
Record t := {
  players_min : nat;
  players_max : nat;
  layout_top : nat;
  layout_middle : nat;
  layout_bottom : nat;
  deal_initialSetCount : nat;
  deal_rounds : nat;
  deal_cardsPerRound : nat;
  deal_placeCountPerRound : nat
}.
End Rules.

(** ** Data model *)

(** A card is the string the dealer and the client exchange. *)
Abbreviation Card := string (only parsing).

Inductive RowName := Top | Middle | Bottom.

Module Board.
Record t := { top : list Card; middle : list Card; bottom : list Card }.

Definition empty : t := {| top := []; middle := []; bottom := [] |}.

Definition get (b : t) (r : RowName) : list Card :=
  match r with Top => top b | Middle => middle b | Bottom => bottom b end.

(** [b[r].push(c)] *)
Definition push (b : t) (r : RowName) (c : Card) : t :=
  match r with
  | Top => {| top := top b ++ [c]; middle := middle b; bottom := bottom b |}
  | Middle => {| top := top b; middle := middle b ++ [c]; bottom := bottom b |}
  | Bottom => {| top := top b; middle := middle b; bottom := bottom b ++ [c] |}
  end.

Definition total (b : t) : nat :=
  length (top b) + length (middle b) + length (bottom b).

Definition cards (b : t) : list Card := top b ++ middle b ++ bottom b.
End Board.

Module Player.
Record t := {
  userId : string;
  name : string;
  socketId : string;
  board : Board.t;
  hand : list Card;
  discards : list Card;
  ready : bool
}.

Definition set_ready (p : t) (r : bool) : t :=
  {| userId := userId p; name := name p; socketId := socketId p;
     board := board p; hand := hand p; discards := discards p;
     ready := r |}.

Definition set_hand (p : t) (h : list Card) : t :=
  {| userId := userId p; name := name p; socketId := socketId p;
     board := board p; hand := h; discards := discards p;
     ready := ready p |}.

Definition set_board (p : t) (b : Board.t) : t :=
  {| userId := userId p; name := name p; socketId := socketId p;
     board := b; hand := hand p; discards := discards p;
     ready := ready p |}.

Definition set_discards (p : t) (d : list Card) : t :=
  {| userId := userId p; name := name p; socketId := socketId p;
     board := board p; hand := hand p; discards := d;
     ready := ready p |}.

(** Cards the player holds anywhere. *)
Definition card_count (p : t) : nat :=
  length (hand p) + Board.total (board p) + length (discards p).

Definition all_cards (p : t) : list Card :=
  hand p ++ Board.cards (board p) ++ discards p.
End Player.

Inductive Phase := Waiting | InitialSet | Round | Reveal.

Definition phase_eqb (a b : Phase) : bool :=
  match a, b with
  | Waiting, Waiting | InitialSet, InitialSet
  | Round, Round | Reveal, Reveal => true
  | _, _ => false
  end.

Module Room.
Record t := {
  id : string;
  phase : Phase;
  round : nat;
  roundIndex : nat;
  players : list (string * Player.t);
  deck : list Card
}.

Definition set_players (r : t) (ps : list (string * Player.t)) : t :=
  {| id := id r; phase := phase r; round := round r;
     roundIndex := roundIndex r; players := ps; deck := deck r |}.

Definition set_phase (r : t) (ph : Phase) : t :=
  {| id := id r; phase := ph; round := round r;
     roundIndex := roundIndex r; players := players r; deck := deck r |}.

Definition set_roundIndex (r : t) (n : nat) : t :=
  {| id := id r; phase := phase r; round := round r;
     roundIndex := n; players := players r; deck := deck r |}.

Definition set_deck (r : t) (d : list Card) : t :=
  {| id := id r; phase := phase r; round := round r;
     roundIndex := roundIndex r; players := players r; deck := d |}.
End Room.

(** The registry [mem.rooms]. *)
Abbreviation Store := (gmap string Room.t).

(** The calling connection: [socket.id] and [socket.user.sub]. *)
Record Socket := { socket_id : string; user_sub : string }.

(** One staged placement of the wire batch, in the format the client
    sends: an object with a string [row] and a string [card]; a batch is
    [null], absent, or an array of these.  Other JSON values are outside
    the model.  The handlers treat them differently: a [row] that is not
    a string (the array [["top"]], say) is turned into a property key by
    [board[row]] but is not [=== "top"], so that the row is checked
    against [layout.bottom]; an element [null], or a batch that is not
    iterable, throws a TypeError at the head of the loop, before the
    card of that turn moves. *)
Record Placement := { row : string; card : Card }.

(** ** Messages and effects *)

(** Per-player entry of the public [room_state] payload. *)
Record PublicPlayer := {
  pub_userId : string;
  pub_name : string;
  placed_top : nat;
  placed_middle : nat;
  placed_bottom : nat;
  pub_ready : bool
}.

Record RoomState := {
  rs_roomId : string;
  rs_phase : Phase;
  rs_round : nat;
  rs_players : list PublicPlayer
}.

(** Results of [scoring.js]: [validateBoard] gives [{fouled, reason}],
    [settlePairwiseDetailed] gives [{a, b}], each side
    [{lines, scoop, royalties, total, foul}], the first four integers.
    The handlers read [total] and pass the rest on. *)
Record BoardCheck := { fouled : bool; reason : option string }.

Record Detail := {
  lines : Z;
  scoop : Z;
  royalties : Z;
  total : Z;
  foul : bool
}.

Record PairDetail := { det_a : Detail; det_b : Detail }.

Record BoardSummary := {
  bs_userId : string;
  bs_name : string;
  bs_board : Board.t;
  bs_valid : bool;
  bs_reason : option string
}.

Record PairEntry := {
  pe_aUserId : string;
  pe_bUserId : string;
  pe_a : Detail;
  pe_b : Detail
}.

(** A value held by the object [totals]: a number, or the string that
    [+] makes once a member inherited from [Object.prototype] was read as
    the running total.  The arithmetic is the runtime's, on doubles, and
    the model does not redo it on integers: a number is kept by its
    addends, [Sum [x1; ...; xn]] being what the runtime computes as
    [(...((0 + x1) + x2)...) + xn]; a string is kept by its parts, the
    member whose text starts it and the numbers appended to it since,
    in order. *)
Inductive Total :=
| Sum (addends : list Z)
| Text (member : string) (appended : list Z).

(** What reading a property of the object [totals] gives. *)
Inductive TotalRead :=
| Own (v : Total)
| Inherited
| Missing.

(** The payload of [REVEAL]; [rv_results] holds the own properties of
    the object [totals]. *)
Record RevealPayload := {
  rv_boards : list BoardSummary;
  rv_results : gmap string Total;
  rv_pairwise : list PairEntry;
  rv_round : nat
}.

Inductive Message :=
| ERROR (message : string)
| START_ROUND (round : nat)
| DEAL_BATCH (cards : list Card)
| ROOM_STATE (payload : RoomState)
| REVEAL (payload : RevealPayload).

(** [socket.emit] answers the caller; [io.to(x).emit] addresses the
    socket.io room [x] (a room id or a socket id). *)
Inductive Dest :=
| Caller (socket_id : string)
| To (room : string).

Inductive Effect :=
| Emit (dest : Dest) (m : Message)
| SocketJoin (socket_id roomId : string)
| SocketLeave (socket_id roomId : string).

(** What a handler leaves behind. *)
Record HandlerResult := {
  after : Store;
  emitted : list Effect;
  completion : Completion unit
}.

(** The error messages and the reveal payloads among the effects of a
    call, in order. *)
Definition error_of (e : Effect) : option string :=
  match e with Emit _ (ERROR m) => Some m | _ => None end.

Definition reveal_of (e : Effect) : option RevealPayload :=
  match e with Emit _ (REVEAL r) => Some r | _ => None end.

Definition deal_of (e : Effect) : option (list Card) :=
  match e with Emit _ (DEAL_BATCH cs) => Some cs | _ => None end.

Definition errors (out : list Effect) : list string := omap error_of out.
Definition reveals (out : list Effect) : list RevealPayload :=
  omap reveal_of out.
Definition deals (out : list Effect) : list (list Card) := omap deal_of out.

(** ** Batch results *)

(** The failure kinds of the batch validator, as the specification names
    them; the message is the one the code returns. *)
Inductive Reason :=
| CardNotInHand
| InvalidRow
| RowFull
| WrongPlacementCount
| DiscardRequired
| DiscardNotAllowed.

(** [{ success: true }] or [{ success: false, message }]. *)
Inductive BatchResult :=
| Success
| Failure (why : Reason) (message : string).

(** ** Indexing a board by a wire string *)

(** What [board[row]] evaluates to for a board object literal
    [{top, middle, bottom}]: one of its three arrays, a member inherited
    from [Object.prototype] (truthy, not an array), or [undefined]. *)
Inductive RowRef :=
| RowArray (r : RowName)
| ProtoMember (len : option nat)
| Undefined.

Definition board_index (row : string) : RowRef :=
  if String.eqb row "top" then RowArray Top
  else if String.eqb row "middle" then RowArray Middle
  else if String.eqb row "bottom" then RowArray Bottom
  else match Js.object_prototype row with
       | Some len => ProtoMember len
       | None => Undefined
       end.

(** [board[row].length]; [None] is [undefined]. *)
Definition ref_length (b : Board.t) (ref : RowRef) : option nat :=
  match ref with
  | RowArray r => Some (length (Board.get b r))
  | ProtoMember len => len
  | Undefined => None
  end.

(** [board[row].length >= limit]; a comparison with [undefined] is false. *)
Definition length_ge (b : Board.t) (ref : RowRef) (limit : nat) : bool :=
  match ref_length b ref with
  | Some n => Nat.leb limit n
  | None => false
  end.

(** One step of a placement loop: go on with the updated hand and board,
    leave the function with an error, or throw. *)
Inductive Step :=
| Continue (hand : list Card) (board : Board.t)
| Reject (why : Reason) (message : string)
| Raise (e : Exn).

(** The TypeError of [board[row].push(card)] in [applyBatch] (line 273)
    and of [p.board[row].push(card)] in [placeHandler] (line 99), when
    the member is not an array: the message names the expression of the
    call. *)
Definition push_TypeError : Exn :=
  TypeError "board[row].push is not a function".

Definition place_push_TypeError : Exn :=
  TypeError "p.board[row].push is not a function".

(** How the body of the legacy loop leaves: on to the next placement,
    out of the handler with an error message, or by an exception. *)
Inductive LoopExit :=
| Next
| ReturnError (why : Reason) (message : string)
| Throws (e : Exn).

(** ** The model of the handlers *)

Section Handlers.

(** [rules.js] and [scoring.js] are imported by [rooms.js] and are not
    part of the sources at hand: the rules are a record of constants, the
    two scoring functions are taken as they are called, and may throw. *)
Variable rules : Rules.t.
Variable validateBoard : Board.t -> Completion BoardCheck.
Variable settlePairwiseDetailed :
  Board.t -> Board.t -> Completion PairDetail.

(** [row === "top" ? rules.layout.top :
     row === "middle" ? rules.layout.middle : rules.layout.bottom] *)
Definition row_limit (row : string) : nat :=
  if String.eqb row "top" then Rules.layout_top rules
  else if String.eqb row "middle" then Rules.layout_middle rules
  else Rules.layout_bottom rules.

(** *** [applyBatch] (rooms.js, lines 229-292) *)

(** Body of the loop over [placements], on the working copies. *)
Definition validatePlacement (hand : list Card) (board : Board.t)
  (p : Placement) : Step :=
  let idx := Js.indexOf hand (card p) in
  if (idx =? -1)%Z then
    Reject CardNotInHand ("Card " +:+ card p +:+ " is not in your hand.")
  else
    match board_index (row p) with
    | Undefined =>
        Reject InvalidRow ("Invalid row " +:+ row p +:+ ".")
    | ref =>
        let limit := row_limit (row p) in
        if length_ge board ref limit then
          Reject RowFull (row p +:+ " is full.")
        else
          let hand' := Js.splice1 hand idx in
          match ref with
          | RowArray r => Continue hand' (Board.push board r (card p))
          | _ => Raise push_TypeError
          end
    end.

Fixpoint validatePlacements (hand : list Card) (board : Board.t)
  (ps : list Placement) : Step :=
  match ps with
  | [] => Continue hand board
  | p :: ps' =>
      match validatePlacement hand board p with
      | Continue hand' board' => validatePlacements hand' board' ps'
      | stop => stop
      end
  end.

(** [placements?.length || 0] *)
Definition placement_count (placements : option (list Placement)) : nat :=
  match placements with
  | Some ps => length ps
  | None => 0
  end.

(** The per-phase checks made before any placement is looked at: the
    reason and message of the failure, if one fires. *)
Definition phase_check (isInitial : bool)
  (placements : option (list Placement)) (discard : option Card)
  : option (Reason * string) :=
  if isInitial then
    match Js.truthy discard with
    | Some _ =>
        Some (DiscardNotAllowed, "No discard allowed during initial set.")
    | None => None
    end
  else
    let needPlace := Rules.deal_placeCountPerRound rules in
    if negb (Nat.eqb (placement_count placements) needPlace) then
      Some (WrongPlacementCount,
            "You must place exactly " +:+ pretty needPlace
            +:+ " cards this round.")
    else
      match Js.truthy discard with
      | None =>
          Some (DiscardRequired,
                "You must stage exactly 1 discard this round.")
      | Some _ => None
      end.

(** The commit at the end of [applyBatch]. *)
Definition commit (player : Player.t) (hand : list Card)
  (board : Board.t) (discard : option Card) : Player.t :=
  let p1 := Player.set_hand player hand in
  let p2 := Player.set_board p1 board in
  match Js.truthy discard with
  | Some d => Player.set_discards p2 (Player.discards p2 ++ [d])
  | None => p2
  end.

(** [applyBatch(room, player, {placements, discard})]: the player after
    the call and what the call returned. *)
Definition applyBatch (room : Room.t) (player : Player.t)
  (placements : option (list Placement)) (discard : option Card)
  : Player.t * Completion BatchResult :=
  let hand := Player.hand player in
  let board := Player.board player in
  let isInitial := phase_eqb (Room.phase room) InitialSet in
  match phase_check isInitial placements discard with
  | Some (why, msg) => (player, Returned (Failure why msg))
  | None =>
      match validatePlacements hand board (default [] placements) with
      | Reject why msg => (player, Returned (Failure why msg))
      | Raise e => (player, Threw e)
      | Continue hand1 board1 =>
          match Js.truthy discard with
          | Some d =>
              let di := Js.indexOf hand1 d in
              if (di =? -1)%Z then
                (player,
                 Returned (Failure CardNotInHand
                             ("Discard " +:+ d
                              +:+ " is not in your hand.")))
              else
                (commit player (Js.splice1 hand1 di) board1 discard,
                 Returned Success)
          | None => (commit player hand1 board1 discard, Returned Success)
          end
      end
  end.

(** *** [state.js]: [allReady], [dealToAll], [startRound] *)

(** Modelled from the spec: [allReady] of [state.js], imported by
    [rooms.js] and absent from the sources: "true iff every player's
    ready flag is set". *)
Definition allReady (room : Room.t) : bool :=
  forallb Player.ready (JsMap.values (Room.players room)).

(** Modelled from the spec: the draw of [dealToAll], "n fresh cards from
    the room's remaining deck into every player's hand": the players in
    join order, each taking the next [n] cards off the front of the deck,
    at the end of the hand. *)
Fixpoint deal_each (n : nat) (deck : list Card)
  (ps : list (string * Player.t)) : list (string * Player.t) * list Card :=
  match ps with
  | [] => ([], deck)
  | (k, p) :: ps' =>
      let rest := deal_each n (drop n deck) ps' in
      ((k, Player.set_hand p (Player.hand p ++ take n deck)) :: fst rest,
       snd rest)
  end.

(** Modelled from the spec: [dealToAll] of [state.js], absent from the
    sources: "draws n fresh cards from the room's remaining deck into
    every player's hand. Fails with DeckExhausted if insufficient cards
    remain".  The room's remaining deck is the field [deck]. *)
Definition dealToAll (room : Room.t) (n : nat)
  : Room.t * Completion unit :=
  if Nat.ltb (length (Room.deck room))
             (n * JsMap.size (Room.players room))
  then (room, Threw DeckExhausted)
  else
    let dealt := deal_each n (Room.deck room) (Room.players room) in
    (Room.set_deck (Room.set_players room (fst dealt)) (snd dealt),
     Returned tt).

Definition reset_player (p : Player.t) : Player.t :=
  {| Player.userId := Player.userId p; Player.name := Player.name p;
     Player.socketId := Player.socketId p;
     Player.board := Board.empty; Player.hand := [];
     Player.discards := []; Player.ready := false |}.

(** Modelled from the spec: [startRound] of [state.js], absent from the
    sources: "requires players.size in [min, max]; fails with
    InsufficientPlayers otherwise.  Shuffles a fresh 52-card deck [...],
    deals initialSetCount cards to every player's hand [...]. Sets
    phase=initial-set, increments round, resets roundIndex to 0, clears
    all boards/discards/ready flags" (and hands, by the lifecycle of a
    room).  A failure leaves the room as it was ("capacity errors:
    surfaced, no state change").  The shuffled deck comes from the
    pluggable random source and is the argument [fresh]. *)
Definition startRound (fresh : list Card) (room : Room.t)
  : Room.t * Completion unit :=
  let n := JsMap.size (Room.players room) in
  if Nat.ltb n (Rules.players_min rules)
     || Nat.ltb (Rules.players_max rules) n
  then (room, Threw InsufficientPlayers)
  else
    let room1 :=
      {| Room.id := Room.id room;
         Room.phase := InitialSet;
         Room.round := Room.round room + 1;
         Room.roundIndex := 0;
         Room.players := JsMap.update_all reset_player (Room.players room);
         Room.deck := fresh |} in
    dealToAll room1 (Rules.deal_initialSetCount rules).

(** *** [emitRoomState] (rooms.js, lines 200-221) *)

Definition publicPlayer (p : Player.t) : PublicPlayer :=
  {| pub_userId := Player.userId p;
     pub_name := Player.name p;
     placed_top := length (Board.top (Player.board p));
     placed_middle := length (Board.middle (Player.board p));
     placed_bottom := length (Board.bottom (Player.board p));
     pub_ready := Player.ready p |}.

Definition roomState (room : Room.t) : RoomState :=
  {| rs_roomId := Room.id room;
     rs_phase := Room.phase room;
     rs_round := Room.round room;
     rs_players := map publicPlayer (JsMap.values (Room.players room)) |}.

Definition emitRoomState (st : Store) (roomId : string) : list Effect :=
  match st !! roomId with
  | None => []
  | Some room => [Emit (To roomId) (ROOM_STATE (roomState room))]
  end.

(** A handler that returns normally. *)
Definition finish (st : Store) (out : list Effect) : HandlerResult :=
  {| after := st; emitted := out; completion := Returned tt |}.

(** The player object [p] lives in the room's map, and the room object in
    the registry: a mutation of [p] is seen through both. *)
Definition put_player (st : Store) (roomId : string) (room : Room.t)
  (userId : string) (p : Player.t) : Store :=
  <[roomId := Room.set_players room
                (JsMap.set (Room.players room) userId p)]> st.

(** *** [joinRoomHandler] (rooms.js, lines 18-39) *)

Definition display_name (name : option string) (userId : string)
  : string :=
  match Js.truthy name with
  | Some n => n
  | None => "Player-" +:+ Js.str_slice_last 4 userId
  end.

Definition fresh_player (socket : Socket) (name : option string)
  : Player.t :=
  {| Player.userId := user_sub socket;
     Player.name := display_name name (user_sub socket);
     Player.socketId := socket_id socket;
     Player.board := Board.empty;
     Player.hand := [];
     Player.discards := [];
     Player.ready := false |}.

Definition joinRoomHandler (st : Store) (socket : Socket)
  (roomId : string) (name : option string) : HandlerResult :=
  match st !! roomId with
  | None =>
      finish st [Emit (Caller (socket_id socket)) (ERROR "Room not found")]
  | Some room =>
      if Nat.leb (Rules.players_max rules)
                 (JsMap.size (Room.players room))
      then finish st [Emit (Caller (socket_id socket)) (ERROR "Room full")]
      else
        let userId := user_sub socket in
        let st' := put_player st roomId room userId
                     (fresh_player socket name) in
        finish st' (SocketJoin (socket_id socket) roomId
                    :: emitRoomState st' roomId)
  end.

(** *** [leaveRoomHandler] (rooms.js, lines 42-54) *)

Definition leaveRoomHandler (st : Store) (socket : Socket)
  (roomId : string) : HandlerResult :=
  match st !! roomId with
  | None => finish st []
  | Some room =>
      let room' := Room.set_players room
                     (JsMap.remove (Room.players room) (user_sub socket)) in
      let st' := <[roomId := room']> st in
      if Nat.eqb (JsMap.size (Room.players room')) 0
      then finish (delete roomId st') [SocketLeave (socket_id socket) roomId]
      else finish st' (SocketLeave (socket_id socket) roomId
                       :: emitRoomState st' roomId)
  end.

(** *** [startRoundHandler] (rooms.js, lines 57-75) *)

Definition deal_messages (n : nat) (room : Room.t) : list Effect :=
  map (fun p => Emit (To (Player.socketId p))
                  (DEAL_BATCH (Js.slice_last n (Player.hand p))))
      (JsMap.values (Room.players room)).

Definition startRoundHandler (fresh : list Card) (st : Store)
  (socket : Socket) (roomId : string) : HandlerResult :=
  match st !! roomId with
  | None =>
      finish st [Emit (Caller (socket_id socket)) (ERROR "Room not found")]
  | Some room =>
      if Nat.ltb (JsMap.size (Room.players room)) (Rules.players_min rules)
      then finish st
             [Emit (Caller (socket_id socket)) (ERROR "Need more players")]
      else
        let (room', c) := startRound fresh room in
        let st' := <[roomId := room']> st in
        match c with
        | Threw e => {| after := st'; emitted := []; completion := Threw e |}
        | Returned _ =>
            finish st'
              (Emit (To roomId) (START_ROUND (Room.round room'))
               :: deal_messages (Rules.deal_initialSetCount rules) room'
               ++ emitRoomState st' roomId)
        end
  end.

(** *** Legacy [placeHandler] and [discardHandler] (lines 79-115) *)

(** Body of the loop of [placeHandler], on the player object itself. *)
Definition placeOne (p : Player.t) (pl : Placement)
  : Player.t * LoopExit :=
  let idx := Js.indexOf (Player.hand p) (card pl) in
  if (idx =? -1)%Z then
    (p, ReturnError CardNotInHand "Card not in your hand")
  else
    match board_index (row pl) with
    | Undefined => (p, ReturnError InvalidRow "Invalid row")
    | ref =>
        let limit := row_limit (row pl) in
        if length_ge (Player.board p) ref limit then
          (p, ReturnError RowFull (row pl +:+ " full"))
        else
          let p1 := Player.set_hand p (Js.splice1 (Player.hand p) idx) in
          match ref with
          | RowArray r =>
              (Player.set_board p1
                 (Board.push (Player.board p1) r (card pl)), Next)
          | _ => (p1, Throws place_push_TypeError)
          end
    end.

Fixpoint placeLoop (p : Player.t) (ps : list Placement)
  : Player.t * LoopExit :=
  match ps with
  | [] => (p, Next)
  | pl :: ps' =>
      match placeOne p pl with
      | (p', Next) => placeLoop p' ps'
      | stop => stop
      end
  end.

Definition placeHandler (st : Store) (socket : Socket) (roomId : string)
  (placements : option (list Placement)) : HandlerResult :=
  match st !! roomId with
  | None => finish st []
  | Some room =>
      match JsMap.get (Room.players room) (user_sub socket) with
      | None => finish st []
      | Some p =>
          let (p', exit) := placeLoop p (default [] placements) in
          let st' := put_player st roomId room (user_sub socket) p' in
          match exit with
          | Next => finish st' (emitRoomState st' roomId)
          | ReturnError _ msg =>
              finish st' [Emit (Caller (socket_id socket)) (ERROR msg)]
          | Throws e =>
              {| after := st'; emitted := []; completion := Threw e |}
          end
      end
  end.

Definition discardHandler (st : Store) (socket : Socket)
  (roomId : string) (c : Card) : HandlerResult :=
  match st !! roomId with
  | None => finish st []
  | Some room =>
      match JsMap.get (Room.players room) (user_sub socket) with
      | None => finish st []
      | Some p =>
          let idx := Js.indexOf (Player.hand p) c in
          if (idx =? -1)%Z then
            finish st [Emit (Caller (socket_id socket))
                         (ERROR "Card not in your hand")]
          else
            let p1 := Player.set_hand p (Js.splice1 (Player.hand p) idx) in
            let p2 := Player.set_discards p1 (Player.discards p1 ++ [c]) in
            let st' := put_player st roomId room (user_sub socket) p2 in
            finish st' (emitRoomState st' roomId)
      end
  end.

(** *** Reveal and settlement (rooms.js, lines 151-190) *)

Definition boardSummary (pl : Player.t) : Completion BoardSummary :=
  bind (validateBoard (Player.board pl)) (fun v =>
    Returned
      {| bs_userId := Player.userId pl;
         bs_name := Player.name pl;
         bs_board := Player.board pl;
         bs_valid := negb (fouled v);
         bs_reason := if fouled v then reason v else None |}).

(** [playersArr.map(...)], stopped by the first exception. *)
Fixpoint boardSummaries (ps : list Player.t)
  : Completion (list BoardSummary) :=
  match ps with
  | [] => Returned []
  | pl :: ps' =>
      bind (boardSummary pl) (fun s =>
        bind (boardSummaries ps') (fun ss => Returned (s :: ss)))
  end.

(** What [totals[u]] reads on the object literal [totals], of which
    [own] is the own property [u], if there is one: that property, else
    the member of that name inherited from [Object.prototype], else
    [undefined]. *)
Definition read_total (own : option Total) (u : string) : TotalRead :=
  match own with
  | Some v => Own v
  | None =>
      match Js.object_prototype u with
      | Some _ => Inherited
      | None => Missing
      end
  end.

(** [(totals[u] || 0) + x]: a number plus [x] (the [0] that stands in
    for a running total of [0] changes nothing), or [0 + x] for
    [undefined]; a string or an inherited member, both truthy, followed
    by the text of [x]. *)
Definition or_zero_plus (u : string) (v : TotalRead) (x : Z) : Total :=
  match v with
  | Own (Sum xs) => Sum (xs ++ [x])
  | Own (Text member xs) => Text member (xs ++ [x])
  | Inherited => Text u [x]
  | Missing => Sum [x]
  end.

(** [totals[u] = v]: the own property [u] is set, except for
    ["__proto__"], whose inherited setter ignores a value that is not an
    object. *)
Definition assign_total (totals : gmap string Total) (u : string)
  (v : Total) : gmap string Total :=
  if String.eqb u "__proto__" then totals else <[u := v]> totals.

(** [totals[u] = (totals[u] || 0) + x] *)
Definition add_total (totals : gmap string Total) (u : string) (x : Z)
  : gmap string Total :=
  assign_total totals u (or_zero_plus u (read_total (totals !! u) u) x).

(** The inner loop: [A] against every later player. *)
Fixpoint settleAgainst (A : Player.t) (later : list Player.t)
  (acc : gmap string Total * list PairEntry)
  : Completion (gmap string Total * list PairEntry) :=
  match later with
  | [] => Returned acc
  | B :: later' =>
      bind (settlePairwiseDetailed (Player.board A) (Player.board B))
        (fun det =>
           let totals1 :=
             add_total (fst acc) (Player.userId A) (total (det_a det)) in
           let totals2 :=
             add_total totals1 (Player.userId B) (total (det_b det)) in
           let entry :=
             {| pe_aUserId := Player.userId A;
                pe_bUserId := Player.userId B;
                pe_a := det_a det; pe_b := det_b det |} in
           settleAgainst A later' (totals2, snd acc ++ [entry]))
  end.

(** The outer loop over [i]. *)
Fixpoint settlePairs (ps : list Player.t)
  (acc : gmap string Total * list PairEntry)
  : Completion (gmap string Total * list PairEntry) :=
  match ps with
  | [] => Returned acc
  | A :: later =>
      bind (settleAgainst A later acc) (settlePairs later)
  end.

(** The payload of the [REVEAL] message. *)
Definition settlement (room : Room.t) : Completion RevealPayload :=
  let playersArr := JsMap.values (Room.players room) in
  bind (boardSummaries playersArr) (fun boards =>
    bind (settlePairs playersArr (∅, [])) (fun acc =>
      Returned
        {| rv_boards := boards;
           rv_results := fst acc;
           rv_pairwise := snd acc;
           rv_round := Room.round room |})).

(** *** [readyHandler] (rooms.js, lines 119-196) *)

(** The part of [readyHandler] after [p.ready = true]: [room] is the room
    with the committed batch and the flag set. *)
Definition advance (st : Store) (roomId : string) (room : Room.t)
  : HandlerResult :=
  if allReady room then
    let room2 :=
      Room.set_players room
        (JsMap.update_all (fun pl => Player.set_ready pl false)
           (Room.players room)) in
    if Nat.ltb (Room.roundIndex room2) (Rules.deal_rounds rules) then
      let (room3, c) := dealToAll room2 (Rules.deal_cardsPerRound rules) in
      match c with
      | Threw e =>
          {| after := <[roomId := room3]> st; emitted := [];
             completion := Threw e |}
      | Returned _ =>
          let room4 := Room.set_phase room3 Round in
          let deals :=
            deal_messages (Rules.deal_cardsPerRound rules) room4 in
          let room5 :=
            Room.set_roundIndex room4 (Room.roundIndex room4 + 1) in
          let st' := <[roomId := room5]> st in
          finish st' (deals ++ emitRoomState st' (Room.id room5))
      end
    else
      let room3 := Room.set_phase room2 Reveal in
      let st' := <[roomId := room3]> st in
      match settlement room3 with
      | Threw e => {| after := st'; emitted := []; completion := Threw e |}
      | Returned payload =>
          finish st' (Emit (To (Room.id room3)) (REVEAL payload)
                      :: emitRoomState st' (Room.id room3))
      end
  else
    let st' := <[roomId := room]> st in
    finish st' (emitRoomState st' roomId).

Definition readyHandler (st : Store) (socket : Socket) (roomId : string)
  (placements : option (list Placement)) (discard : option Card)
  : HandlerResult :=
  match st !! roomId with
  | None => finish st []
  | Some room =>
      match JsMap.get (Room.players room) (user_sub socket) with
      | None => finish st []
      | Some p =>
          let (p', ok) := applyBatch room p placements discard in
          let st1 := put_player st roomId room (user_sub socket) p' in
          match ok with
          | Threw e =>
              {| after := st1; emitted := []; completion := Threw e |}
          | Returned (Failure _ msg) =>
              finish st1 [Emit (Caller (socket_id socket)) (ERROR msg)]
          | Returned Success =>
              let p1 := Player.set_ready p' true in
              let room1 :=
                Room.set_players room
                  (JsMap.set (Room.players room) (user_sub socket) p1) in
              advance st roomId room1
          end
      end
  end.

End Handlers.

(** ** Sample configuration and data *)

(** The constants the specification gives as examples: rows of 3/5/5, five
    initial cards, four rounds of three cards, two placed per round.  The
    bounds on the players are picked for the examples below: at seventeen
    cards a player, three players fit one deck. *)
Definition table_rules : Rules.t :=
  {| Rules.players_min := 2; Rules.players_max := 3;
     Rules.layout_top := 3; Rules.layout_middle := 5;
     Rules.layout_bottom := 5;
     Rules.deal_initialSetCount := 5; Rules.deal_rounds := 4;
     Rules.deal_cardsPerRound := 3; Rules.deal_placeCountPerRound := 2 |}.

(** Scoring stand-ins: every board is clean, every pair is a draw. *)
Definition clean_board (_ : Board.t) : Completion BoardCheck :=
  Returned {| fouled := false; reason := None |}.

Definition no_points : Detail :=
  {| lines := 0; scoop := 0; royalties := 0; total := 0; foul := false |}.

Definition draw (_ _ : Board.t) : Completion PairDetail :=
  Returned {| det_a := no_points; det_b := no_points |}.

Definition mk_player (u n s : string) (b : Board.t) (h d : list Card)
  (r : bool) : Player.t :=
  {| Player.userId := u; Player.name := n; Player.socketId := s;
     Player.board := b; Player.hand := h; Player.discards := d;
     Player.ready := r |}.

Definition mk_room (i : string) (ph : Phase) (rd ri : nat)
  (ps : list (string * Player.t)) (d : list Card) : Room.t :=
  {| Room.id := i; Room.phase := ph; Room.round := rd; Room.roundIndex := ri;
     Room.players := ps; Room.deck := d |}.

Definition place (r : string) (c : Card) : Placement :=
  {| row := r; card := c |}.

Definition ann_socket : Socket := {| socket_id := "s1"; user_sub := "u1" |}.

(** Ann, mid-hand, holding the three cards of a pineapple round. *)
Definition ann : Player.t :=
  mk_player "u1" "Ann" "s1"
    {| Board.top := ["2H"]; Board.middle := ["9S"; "9D"];
       Board.bottom := ["QC"; "QD"] |}
    ["AS"; "KD"; "7C"] [] false.

(** Bob, who has committed his round already. *)
Definition bob_ready : Player.t :=
  mk_player "u2" "Bob" "s2"
    {| Board.top := ["3H"]; Board.middle := ["4S"; "4D"; "8C"];
       Board.bottom := ["JC"; "JD"; "5S"] |}
    [] ["6H"] true.

(** Bob, still thinking. *)
Definition bob_waiting : Player.t :=
  mk_player "u2" "Bob" "s2"
    {| Board.top := ["3H"]; Board.middle := ["4S"; "4D"];
       Board.bottom := ["JC"; "JD"] |}
    ["8C"; "5S"; "6H"] [] false.

Definition sample_deck : list Card :=
  ["2C"; "3C"; "4C"; "5C"; "6C"; "8D"; "TD"; "TS"].

Definition ann_batch : list Placement :=
  [place "top" "AS"; place "middle" "KD"].

(** A registry with one room, Ann and Bob at the table, in a pineapple
    round. *)
Definition round_room (bob : Player.t) : Room.t :=
  mk_room "r1" Round 1 2 [("u1", ann); ("u2", bob)] sample_deck.

Definition round_store (bob : Player.t) : Store :=
  <["r1" := round_room bob]> ∅.

(** The player object of [userId] in room [roomId], if both exist. *)
Definition player_in (st : Store) (roomId userId : string)
  : option Player.t :=
  match st !! roomId with
  | Some room => JsMap.get (Room.players room) userId
  | None => None
  end.

(** [1] when a discard is staged, [0] when it is not. *)
Definition discard_count (discard : option Card) : nat :=
  match Js.truthy discard with
  | Some _ => 1
  | None => 0
  end.

(** The same table during the initial set: Ann holds her first five. *)
Definition ann_initial : Player.t :=
  mk_player "u1" "Ann" "s1" Board.empty
    ["AS"; "KD"; "7C"; "2H"; "9S"] [] false.

Definition initial_room : Room.t :=
  mk_room "r1" InitialSet 1 0 [("u1", ann_initial)] sample_deck.

Definition five_placements : list Placement :=
  [place "bottom" "AS"; place "bottom" "KD"; place "middle" "7C";
   place "top" "2H"; place "middle" "9S"].

(** What two rooms must share for their public view to be the same: the
    room's id, phase and hand counter, and, player by player in join
    order, the id, the display name, the number of cards on each row and
    the ready flag. *)
Definition public_agree (r1 r2 : Room.t) : Prop :=
  let ps1 := JsMap.values (Room.players r1) in
  let ps2 := JsMap.values (Room.players r2) in
  let placed (row : Board.t -> list Card) (p : Player.t) :=
    length (row (Player.board p)) in
  Room.id r1 = Room.id r2 /\
  Room.phase r1 = Room.phase r2 /\
  Room.round r1 = Room.round r2 /\
  map Player.userId ps1 = map Player.userId ps2 /\
  map Player.name ps1 = map Player.name ps2 /\
  map (placed Board.top) ps1 = map (placed Board.top) ps2 /\
  map (placed Board.middle) ps1 = map (placed Board.middle) ps2 /\
  map (placed Board.bottom) ps1 = map (placed Board.bottom) ps2 /\
  map Player.ready ps1 = map Player.ready ps2.

(** The same table with every card different: same counts, same flags. *)
Definition ann_other_cards : Player.t :=
  mk_player "u1" "Ann" "s1"
    {| Board.top := ["5D"]; Board.middle := ["TC"; "TH"];
       Board.bottom := ["3S"; "3D"] |}
    ["2S"; "JH"] ["KC"] false.

Definition bob_other_cards : Player.t :=
  mk_player "u2" "Bob" "s9"
    {| Board.top := ["6S"]; Board.middle := ["7H"; "7D"];
       Board.bottom := ["AC"; "AD"] |}
    [] [] false.

Definition other_room : Room.t :=
  mk_room "r1" Round 1 4
    [("u1", ann_other_cards); ("u2", bob_other_cards)] [].

(** A third player, and a room at the maximum of [table_rules]. *)
Definition cat : Player.t :=
  mk_player "u3" "Cat" "s3" Board.empty [] [] false.

Definition full_room : Room.t :=
  mk_room "r1" Round 1 2
    [("u1", ann); ("u2", bob_waiting); ("u3", cat)] sample_deck.

(** A fresh deck in some order: thirteen ranks in four suits. *)
Definition deck52 : list Card :=
  flat_map (fun r => map (fun s => r +:+ s) ["C"; "D"; "H"; "S"])
    ["2"; "3"; "4"; "5"; "6"; "7"; "8"; "9"; "T"; "J"; "Q"; "K"; "A"].

(** A table between hands, and one with a player too many for
    [table_rules]. *)
Definition dan : Player.t :=
  mk_player "u4" "Dan" "s4" Board.empty [] [] false.

Definition waiting_room : Room.t :=
  mk_room "r1" Waiting 1 4 [("u1", ann); ("u2", bob_ready)] [].

Definition crowded_room : Room.t :=
  mk_room "r1" Waiting 1 4
    [("u1", ann); ("u2", bob_ready); ("u3", cat); ("u4", dan)] [].


(** The room as [readyHandler] sees it after an accepted batch and
    [p.ready = true]: player [p'] with the flag set, where the caller
    stands in the room's map. *)
Definition committed (room : Room.t) (userId : string) (p' : Player.t)
  : Room.t :=
  Room.set_players room
    (JsMap.set (Room.players room) userId (Player.set_ready p' true)).

(** Ann once her batch (AS on top, KD in the middle, 7C discarded) is
    committed. *)
Definition ann_committed : Player.t :=
  mk_player "u1" "Ann" "s1"
    {| Board.top := ["2H"; "AS"]; Board.middle := ["9S"; "9D"; "KD"];
       Board.bottom := ["QC"; "QD"] |}
    [] ["7C"] false.

(** A newcomer, and a room where Ann sits alone. *)
Definition eve_socket : Socket := {| socket_id := "s5"; user_sub := "u5" |}.

Definition solo_room : Room.t :=
  mk_room "r1" Waiting 0 0 [("u1", ann)] [].

Definition empty_room : Room.t := mk_room "r1" Waiting 0 0 [] [].

(** ** Calls, and what the rooms of a registry are checked for *)

(** The socket events of [rooms.js], with their arguments in the wire
    format of [Placement]. *)
Inductive Call :=
| JoinRoom (socket : Socket) (roomId : string) (name : option string)
| LeaveRoom (socket : Socket) (roomId : string)
| StartRound (fresh : list Card) (socket : Socket) (roomId : string)
| Place (socket : Socket) (roomId : string)
    (placements : option (list Placement))
| Discard (socket : Socket) (roomId : string) (c : Card)
| Ready (socket : Socket) (roomId : string)
    (placements : option (list Placement)) (discard : option Card).

(** The handler of each event. *)
Definition run (R : Rules.t)
  (validateBoard : Board.t -> Completion BoardCheck)
  (settlePairwiseDetailed : Board.t -> Board.t -> Completion PairDetail)
  (c : Call) (st : Store) : HandlerResult :=
  match c with
  | JoinRoom socket roomId name => joinRoomHandler R st socket roomId name
  | LeaveRoom socket roomId => leaveRoomHandler st socket roomId
  | StartRound fresh socket roomId =>
      startRoundHandler R fresh st socket roomId
  | Place socket roomId placements =>
      placeHandler R st socket roomId placements
  | Discard socket roomId c => discardHandler st socket roomId c
  | Ready socket roomId placements discard =>
      readyHandler R validateBoard settlePairwiseDetailed st socket roomId
        placements discard
  end.

(** [rules.layout] row by row. *)
Definition limit_of (R : Rules.t) (r : RowName) : nat :=
  match r with
  | Top => Rules.layout_top R
  | Middle => Rules.layout_middle R
  | Bottom => Rules.layout_bottom R
  end.

(** No row of the board holds more cards than its capacity. *)
Definition rows_within (R : Rules.t) (b : Board.t) : Prop :=
  forall r, length (Board.get b r) <= limit_of R r.

Definition boards_of (room : Room.t) : list Board.t :=
  map Player.board (JsMap.values (Room.players room)).

Definition room_rows_within (R : Rules.t) (room : Room.t) : Prop :=
  Forall (rows_within R) (boards_of room).

Definition room_within_max (R : Rules.t) (room : Room.t) : Prop :=
  JsMap.size (Room.players room) <= Rules.players_max R.

(** What dealing and the ready flags leave alone in a player. *)
Definition seat (p : Player.t)
  : string * string * string * Board.t * list Card :=
  (Player.userId p, Player.name p, Player.socketId p, Player.board p,
   Player.discards p).

(** The cards of a room: those left in its deck and those its players
    hold. *)
Definition room_card_count (room : Room.t) : nat :=
  length (Room.deck room)
  + sum_list (map Player.card_count (JsMap.values (Room.players room))).

(** A room with a board filled to capacity: Cat's top row is full. *)
Definition cat_top_full : Player.t :=
  mk_player "u3" "Cat" "s3"
    {| Board.top := ["2D"; "3D"; "4D"]; Board.middle := [];
       Board.bottom := [] |}
    ["5D"; "6D"] [] false.

Definition cat_socket : Socket := {| socket_id := "s3"; user_sub := "u3" |}.

Definition cat_room : Room.t :=
  mk_room "r2" InitialSet 1 0 [("u3", cat_top_full)] [].

Definition cat_store : Store := <["r2" := cat_room]> ∅.

Definition full_store : Store := <["r1" := full_room]> ∅.

(** ** What the settlement is checked against *)

(** Every two elements of a list, the earlier first: the pairs [(i, j)],
    [i < j], in the order of the two nested loops. *)
Fixpoint pairs_of {A} (l : list A) : list (A * A) :=
  match l with
  | [] => []
  | a :: l' => map (pair a) l' ++ pairs_of l'
  end.

(** The totals the entries [es] of [pairwise] give to user [u], in the
    order of the entries: side [a]'s total where [u] is the [aUserId],
    then side [b]'s where [u] is the [bUserId]. *)
Definition scored (u : string) (e : PairEntry) : list Z :=
  (if String.eqb (pe_aUserId e) u then [total (pe_a e)] else [])
  ++ (if String.eqb (pe_bUserId e) u then [total (pe_b e)] else []).

Definition scores (u : string) (es : list PairEntry) : list Z :=
  flat_map (scored u) es.

(** The own property [u] of [results] for the entries [es]: none when
    no entry names [u]; else, for an id that [Object.prototype] does not
    define, the number got by adding the totals given to [u], in their
    order; for an id it defines, a string, the text of the inherited
    member followed by those totals; and never any for ["__proto__"]. *)
Definition result_of (u : string) (es : list PairEntry) : option Total :=
  match scores u es with
  | [] => None
  | xs =>
      match Js.object_prototype u with
      | None => Some (Sum xs)
      | Some _ =>
          if String.eqb u "__proto__" then None else Some (Text u xs)
      end
  end.

(** The own property [u] of [totals] after totals [xs] were added for
    [u], when it was [start] before. *)
Definition tally (u : string) (start : option Total) (xs : list Z)
  : option Total :=
  fold_left
    (fun own x =>
       if String.eqb u "__proto__" then own
       else Some (or_zero_plus u (read_total own u) x))
    xs start.

(** What the reveal shows of a player. *)
Definition shown (p : Player.t) : string * string * Board.t :=
  (Player.userId p, Player.name p, Player.board p).

(** The entry of [pairwise] for players [A] and [B], when scoring
    returns. *)
Definition entry_of
  (settlePairwiseDetailed : Board.t -> Board.t -> Completion PairDetail)
  (e : PairEntry) (AB : Player.t * Player.t) : Prop :=
  pe_aUserId e = Player.userId (fst AB) /\
  pe_bUserId e = Player.userId (snd AB) /\
  settlePairwiseDetailed (Player.board (fst AB)) (Player.board (snd AB))
  = Returned {| det_a := pe_a e; det_b := pe_b e |}.

(** The entry of [boards] for player [pl], when validation returns. *)
Definition summary_of
  (validateBoard : Board.t -> Completion BoardCheck)
  (s : BoardSummary) (pl : Player.t) : Prop :=
  bs_userId s = Player.userId pl /\
  bs_name s = Player.name pl /\
  bs_board s = Player.board pl /\
  exists v,
    validateBoard (Player.board pl) = Returned v /\
    bs_valid s = negb (fouled v) /\
    bs_reason s = (if fouled v then reason v else None).

(** Ann and Bob with thirteen cards on the board each, and a scoring in
    which the first player of a pair takes one point from the second. *)
Definition first_wins (_ _ : Board.t) : Completion PairDetail :=
  Returned
    {| det_a := {| lines := 1; scoop := 0; royalties := 0; total := 1;
                   foul := false |};
       det_b := {| lines := 0; scoop := 0; royalties := 0; total := (-1);
                   foul := false |} |}.

Definition three_players : Room.t :=
  mk_room "r1" Reveal 3 4
    [("u1", ann); ("u2", bob_ready); ("u3", cat)] [].

(** A table where two user ids are names that [Object.prototype]
    defines. *)
Definition inherited_ids : Room.t :=
  mk_room "r1" Reveal 3 4
    [("constructor", mk_player "constructor" "Ann" "s1" (Player.board ann)
                       [] [] false);
     ("u2", bob_ready);
     ("__proto__", mk_player "__proto__" "Cat" "s3" Board.empty [] [] false)]
    [].

(** The three players again with the same boards, other hands, discards,
    sockets and flags, in a room of another id, phase and deck. *)
Definition three_players_otherwise : Room.t :=
  mk_room "r9" Round 3 1
    [("u1", mk_player "u1" "Ann" "s7" (Player.board ann) [] ["2S"] true);
     ("u2", mk_player "u2" "Bob" "s8" (Player.board bob_ready)
              ["KH"; "KS"] [] false);
     ("u3", mk_player "u3" "Cat" "s9" Board.empty ["4H"] [] true)]
    ["9C"].

(** ** [createRoomHandler] (rooms.js, lines 10-15) *)

(** Modelled from the spec: [createRoom] of [state.js], absent from the
    sources: "new room, phase=waiting, round=0, empty players map".  The
    round index and the deck, of which the specification says nothing
    here, start at 0 and empty. *)
Definition createRoom (roomId : string) : Room.t :=
  {| Room.id := roomId; Room.phase := Waiting; Room.round := 0;
     Room.roundIndex := 0; Room.players := []; Room.deck := [] |}.

(** [socket.emit(Events.CREATE_ROOM, { roomId })] *)
Inductive LobbyEffect :=
| EmitCreateRoom (socket_id : string) (roomId : string).

(** The handler, given the id that [id(6)] drew: the registry after the
    call and the answer to the creator. *)
Definition createRoomHandler (roomId : string) (st : Store)
  (socket : Socket) : Store * LobbyEffect :=
  let room := createRoom roomId in
  (<[roomId := room]> st, EmitCreateRoom (socket_id socket) roomId).

(** ** What a reveal is checked against *)

(** The payload of the reveal of a room, told by the scoring functions
    alone: a summary for every player as [validateBoard] judged the
    board, an entry for every pair of players as
    [settlePairwiseDetailed] scored the two boards, the results these
    entries add up to, and the hand counter. *)
Definition settled
  (validateBoard : Board.t -> Completion BoardCheck)
  (settlePairwiseDetailed : Board.t -> Board.t -> Completion PairDetail)
  (room : Room.t) (payload : RevealPayload) : Prop :=
  let ps := JsMap.values (Room.players room) in
  Forall2 (summary_of validateBoard) (rv_boards payload) ps /\
  Forall2 (entry_of settlePairwiseDetailed) (rv_pairwise payload)
    (pairs_of ps) /\
  (forall u, rv_results payload !! u = result_of u (rv_pairwise payload)) /\
  rv_round payload = Room.round room.


(** ** A hand played call by call *)








(** ** Facts about the primitives *)

Lemma indexOf_range (l : list string) (x : string) :
  (Js.indexOf l x = -1 \/ 0 <= Js.indexOf l x < Z.of_nat (length l))%Z.
Proof.
  induction l as [|y l IH]; simpl; [left; reflexivity|].
  destruct (String.eqb y x); [right; lia|].
  destruct (Z.eqb_spec (Js.indexOf l x) (-1)); [left; reflexivity|].
  right; lia.
Qed.

Lemma indexOf_absent (l : list string) (x : string) :
  Js.indexOf l x = (-1)%Z <-> x ∉ l.
Proof.
  induction l as [|y l IH]; simpl.
  - split; [intros _; apply not_elem_of_nil | reflexivity].
  - destruct (String.eqb_spec y x) as [->|Hne].
    + split; [discriminate | intros H; exfalso; apply H; left].
    + destruct (Z.eqb_spec (Js.indexOf l x) (-1)) as [He|He].
      * split; [|reflexivity]. intros _ Hin.
        apply elem_of_cons in Hin as [->|Hin]; [congruence|].
        apply IH in He. contradiction.
      * pose proof (indexOf_range l x). split; [lia|].
        intros Hnot. exfalso. apply He, IH. intros Hin.
        apply Hnot. right. exact Hin.
Qed.

Lemma indexOf_lookup (l : list string) (x : string) :
  Js.indexOf l x <> (-1)%Z -> l !! Z.to_nat (Js.indexOf l x) = Some x.
Proof.
  induction l as [|y l IH]; simpl; [congruence|].
  destruct (String.eqb_spec y x) as [->|Hne]; [reflexivity|].
  destruct (Z.eqb_spec (Js.indexOf l x) (-1)) as [He|He]; [congruence|].
  intros _. pose proof (indexOf_range l x).
  replace (Z.to_nat (Js.indexOf l x + 1)) with (S (Z.to_nat (Js.indexOf l x)))
    by lia.
  simpl. apply IH, He.
Qed.

(** Splicing out a found element takes exactly that one element away. *)
Lemma splice1_found (l : list string) (x : string) :
  Js.indexOf l x <> (-1)%Z ->
  l ≡ₚ x :: Js.splice1 l (Js.indexOf l x).
Proof.
  intros H. unfold Js.splice1.
  apply delete_Permutation, indexOf_lookup, H.
Qed.

Lemma splice1_length (l : list string) (x : string) :
  Js.indexOf l x <> (-1)%Z ->
  S (length (Js.splice1 l (Js.indexOf l x))) = length l.
Proof.
  intros H. apply splice1_found in H.
  apply Permutation_length in H. simpl in H. lia.
Qed.

Lemma truthy_Some (v : option string) (s : string) :
  Js.truthy v = Some s -> v = Some s /\ s <> "".
Proof.
  destruct v as [t|]; simpl; [|discriminate].
  destruct (String.eqb_spec t ""); [discriminate|].
  intros [= ->]. split; [reflexivity | assumption].
Qed.

Lemma get_set_same {V} (m : list (string * V)) (k : string) (v : V) :
  JsMap.get (JsMap.set m k v) k = Some v.
Proof.
  induction m as [|[k' v'] m IH]; simpl.
  - rewrite String.eqb_refl. reflexivity.
  - destruct (String.eqb_spec k' k) as [->|Hne]; simpl.
    + rewrite String.eqb_refl. reflexivity.
    + destruct (String.eqb_spec k' k); [contradiction | exact IH].
Qed.

Lemma get_set_other {V} (m : list (string * V)) (k k' : string) (v : V) :
  k <> k' -> JsMap.get (JsMap.set m k v) k' = JsMap.get m k'.
Proof.
  intros Hne. induction m as [|[k0 v0] m IH]; simpl.
  - destruct (String.eqb_spec k k'); [contradiction | reflexivity].
  - destruct (String.eqb_spec k0 k) as [->|Hk]; simpl.
    + destruct (String.eqb_spec k k'); [contradiction | reflexivity].
    + destruct (String.eqb_spec k0 k'); [reflexivity | exact IH].
Qed.

(** Writing back the value a key already has changes nothing. *)
Lemma set_get_id {V} (m : list (string * V)) (k : string) (v : V) :
  JsMap.get m k = Some v -> JsMap.set m k v = m.
Proof.
  induction m as [|[k' v'] m IH]; simpl; [discriminate|].
  destruct (String.eqb_spec k' k) as [->|Hne].
  - intros [= ->]. reflexivity.
  - intros H. rewrite IH by exact H. reflexivity.
Qed.

(** Setting a present key keeps the keys, their order and their number. *)
Lemma keys_set_present {V} (m : list (string * V)) (k : string) (v w : V) :
  JsMap.get m k = Some w -> JsMap.keys (JsMap.set m k v) = JsMap.keys m.
Proof.
  unfold JsMap.keys.
  induction m as [|[k' v'] m IH]; simpl; [discriminate|].
  destruct (String.eqb_spec k' k) as [->|Hne]; simpl.
  - reflexivity.
  - intros H. rewrite IH by exact H. reflexivity.
Qed.

Lemma size_set_present {V} (m : list (string * V)) (k : string) (v w : V) :
  JsMap.get m k = Some w -> JsMap.size (JsMap.set m k v) = JsMap.size m.
Proof.
  intros H. apply (keys_set_present m k v) in H.
  unfold JsMap.size, JsMap.keys in *.
  rewrite <- (length_map fst (JsMap.set m k v)), H, length_map.
  reflexivity.
Qed.

(** Setting an absent key appends the entry. *)
Lemma set_absent {V} (m : list (string * V)) (k : string) (v : V) :
  JsMap.get m k = None -> JsMap.set m k v = m ++ [(k, v)].
Proof.
  induction m as [|[k' v'] m IH]; simpl; [reflexivity|].
  destruct (String.eqb_spec k' k); [discriminate|].
  intros H. rewrite IH by exact H. reflexivity.
Qed.

Lemma set_players_id (room : Room.t) :
  Room.set_players room (Room.players room) = room.
Proof. destruct room; reflexivity. Qed.

(** Writing an unchanged player back into the registry changes nothing. *)
Lemma put_player_id (st : Store) (roomId : string) (room : Room.t)
  (u : string) (p : Player.t) :
  st !! roomId = Some room ->
  JsMap.get (Room.players room) u = Some p ->
  put_player st roomId room u p = st.
Proof.
  intros Hroom Hp. unfold put_player.
  rewrite (set_get_id _ _ _ Hp), set_players_id.
  apply insert_id, Hroom.
Qed.

(** ** The placement loop of [applyBatch] *)

Lemma push_total (b : Board.t) (r : RowName) (c : Card) :
  Board.total (Board.push b r c) = S (Board.total b).
Proof.
  destruct r; unfold Board.total; simpl; rewrite length_app; simpl; lia.
Qed.

Lemma push_cards (b : Board.t) (r : RowName) (c : Card) :
  Board.cards (Board.push b r c) ≡ₚ c :: Board.cards b.
Proof.
  destruct r; unfold Board.cards; simpl.
  - rewrite <- app_assoc. simpl.
    symmetry. apply Permutation_middle.
  - rewrite <- !app_assoc. simpl.
    rewrite app_assoc. symmetry.
    rewrite app_assoc. apply Permutation_middle.
  - rewrite !app_assoc. symmetry. apply Permutation_cons_append.
Qed.

(** An accepted placement names a card of the working hand and one of the
    three rows, below its capacity; it moves that card, and only it, from
    the hand to the end of the row. *)
Lemma validatePlacement_accepts (R : Rules.t) (h : list Card) (b : Board.t)
  (p : Placement) (h' : list Card) (b' : Board.t) :
  validatePlacement R h b p = Continue h' b' ->
  card p ∈ h /\
  h' = Js.splice1 h (Js.indexOf h (card p)) /\
  exists r, board_index (row p) = RowArray r /\
            length (Board.get b r) < row_limit R (row p) /\
            b' = Board.push b r (card p).
Proof.
  unfold validatePlacement.
  destruct (Z.eqb_spec (Js.indexOf h (card p)) (-1)) as [He|He];
    [discriminate|].
  assert (Hin : card p ∈ h).
  { destruct (decide (card p ∈ h)) as [Hin|Hnot]; [exact Hin|].
    apply indexOf_absent in Hnot. contradiction. }
  destruct (board_index (row p)) as [r|len|] eqn:Href; try discriminate.
  - unfold length_ge; simpl.
    destruct (Nat.leb_spec (row_limit R (row p)) (length (Board.get b r)));
      [discriminate|].
    intros [= <- <-]. split; [exact Hin|]. split; [reflexivity|].
    exists r. auto.
  - destruct (length_ge b (ProtoMember len) (row_limit R (row p)));
      discriminate.
Qed.

Lemma validatePlacements_moves (R : Rules.t) (ps : list Placement) :
  forall (h : list Card) (b : Board.t) (h' : list Card) (b' : Board.t),
  validatePlacements R h b ps = Continue h' b' ->
  length h = length h' + length ps /\
  Board.total b' = Board.total b + length ps /\
  h' ++ Board.cards b' ≡ₚ h ++ Board.cards b.
Proof.
  induction ps as [|p ps IH]; intros h b h' b' H; simpl in H.
  - injection H as <- <-. simpl. repeat split; lia || reflexivity.
  - destruct (validatePlacement R h b p) as [h1 b1| |] eqn:Hstep;
      try discriminate.
    apply validatePlacement_accepts in Hstep
      as (Hin & -> & r & _ & _ & ->).
    apply IH in H as (Hlen & Htot & Hperm).
    assert (Hfound : Js.indexOf h (card p) <> (-1)%Z).
    { intros He. apply indexOf_absent in He. contradiction. }
    pose proof (splice1_length h (card p) Hfound) as Hl.
    pose proof (splice1_found h (card p) Hfound) as Hp.
    rewrite push_total in Htot. simpl length. repeat split; try lia.
    rewrite Hperm, push_cards, <- Permutation_middle. symmetry.
    exact (Permutation_app_tail (Board.cards b) Hp).
Qed.

(** ** [applyBatch]: what a success and a failure are *)

Lemma applyBatch_success_inv (R : Rules.t) (room : Room.t) (p : Player.t)
  (placements : option (list Placement)) (discard : option Card)
  (p' : Player.t) :
  applyBatch R room p placements discard = (p', Returned Success) ->
  phase_check R (phase_eqb (Room.phase room) InitialSet) placements discard
    = None /\
  exists h1 b1,
    validatePlacements R (Player.hand p) (Player.board p)
      (default [] placements) = Continue h1 b1 /\
    ((Js.truthy discard = None /\ p' = commit p h1 b1 discard) \/
     (exists d, Js.truthy discard = Some d /\
                Js.indexOf h1 d <> (-1)%Z /\
                p' = commit p (Js.splice1 h1 (Js.indexOf h1 d)) b1 discard)).
Proof.
  unfold applyBatch; cbv zeta.
  destruct (phase_check R _ placements discard) as [[w m]|]; [discriminate|].
  destruct (validatePlacements R _ _ _) as [h1 b1| |]; try discriminate.
  intros H. split; [reflexivity|]. exists h1, b1. split; [reflexivity|].
  destruct (Js.truthy discard) as [d|] eqn:Hd.
  - destruct (Z.eqb_spec (Js.indexOf h1 d) (-1)); [discriminate|].
    injection H as <-. right. exists d. auto.
  - injection H as <-. left. auto.
Qed.

(** Every return that is not a success, and every exception, leaves the
    player object as it was: only the working copies were touched. *)
Lemma applyBatch_not_success (R : Rules.t) (room : Room.t) (p : Player.t)
  (placements : option (list Placement)) (discard : option Card) :
  snd (applyBatch R room p placements discard) <> Returned Success ->
  fst (applyBatch R room p placements discard) = p.
Proof.
  unfold applyBatch; cbv zeta.
  destruct (phase_check R _ placements discard) as [[w m]|]; [reflexivity|].
  destruct (validatePlacements R _ _ _) as [h1 b1| |]; try reflexivity.
  destruct (Js.truthy discard) as [d|].
  - destruct (Js.indexOf h1 d =? -1)%Z; [reflexivity|].
    simpl. congruence.
  - simpl. congruence.
Qed.

(** ** Atomicity of a rejected batch *)

(** C1. If [applyBatch] returns a failure (its reason is one of
    CardNotInHand, InvalidRow, RowFull, WrongPlacementCount,
    DiscardRequired, DiscardNotAllowed), the player's hand, board and
    discards after the call are those before the call; the [readyHandler]
    call that made it leaves the whole registry as it was, so the player's
    ready flag is not set, and answers the caller with the error alone. *)
Theorem rejected_batch_is_atomic (R : Rules.t)
  (validateBoard : Board.t -> Completion BoardCheck)
  (settlePairwiseDetailed : Board.t -> Board.t -> Completion PairDetail)
  (st : Store) (socket : Socket) (roomId : string) (room : Room.t)
  (p : Player.t) (placements : option (list Placement))
  (discard : option Card) (why : Reason) (msg : string) :
  st !! roomId = Some room ->
  JsMap.get (Room.players room) (user_sub socket) = Some p ->
  snd (applyBatch R room p placements discard)
    = Returned (Failure why msg) ->
  let p' := fst (applyBatch R room p placements discard) in
  let res := readyHandler R validateBoard settlePairwiseDetailed
               st socket roomId placements discard in
  Player.hand p' = Player.hand p /\
  Player.board p' = Player.board p /\
  Player.discards p' = Player.discards p /\
  after res = st /\
  player_in (after res) roomId (user_sub socket) = Some p /\
  Player.ready <$> player_in (after res) roomId (user_sub socket)
    = Some (Player.ready p) /\
  emitted res = [Emit (Caller (socket_id socket)) (ERROR msg)] /\
  completion res = Returned tt.
Proof.
  intros Hroom Hp Hfail p' res.
  assert (Hsame : p' = p).
  { apply applyBatch_not_success. rewrite Hfail. discriminate. }
  assert (Hres : res = finish st [Emit (Caller (socket_id socket)) (ERROR msg)]).
  { subst res. unfold readyHandler. rewrite Hroom, Hp.
    destruct (applyBatch R room p placements discard) as [q ok] eqn:Hb.
    simpl in Hfail, p'. subst ok p'. subst q.
    rewrite (put_player_id st roomId room _ p Hroom Hp). reflexivity. }
  rewrite Hres, Hsame. simpl.
  unfold player_in. rewrite Hroom, Hp. simpl.
  repeat split; reflexivity.
Qed.

Lemma rejected_batch_is_atomic_witness :
  snd (applyBatch table_rules (round_room bob_waiting) ann
         (Some ann_batch) (Some "AS"))
    = Returned (Failure CardNotInHand "Discard AS is not in your hand.") /\
  after (readyHandler table_rules clean_board draw
           (round_store bob_waiting) ann_socket "r1"
           (Some ann_batch) (Some "AS"))
    = round_store bob_waiting.
Proof.
  split; [reflexivity|].
  apply (rejected_batch_is_atomic table_rules clean_board draw
           (round_store bob_waiting) ann_socket "r1"
           (round_room bob_waiting) ann (Some ann_batch) (Some "AS")
           CardNotInHand "Discard AS is not in your hand.");
    reflexivity.
Defined.

(** ** Conservation of cards by an accepted batch *)

(** C3. A successful [applyBatch] keeps
    |hand| + |top| + |middle| + |bottom| + |discards|: each of the
    submitted placements took one card from the hand to a board row, a
    staged discard took one card from the hand to the discards, and the
    cards held after the call are those held before it, rearranged. *)
Theorem accepted_batch_conserves_cards (R : Rules.t) (room : Room.t)
  (p : Player.t) (placements : option (list Placement))
  (discard : option Card) (p' : Player.t) :
  applyBatch R room p placements discard = (p', Returned Success) ->
  length (Player.hand p)
    = length (Player.hand p') + placement_count placements
      + discard_count discard /\
  Board.total (Player.board p')
    = Board.total (Player.board p) + placement_count placements /\
  length (Player.discards p')
    = length (Player.discards p) + discard_count discard /\
  Player.card_count p' = Player.card_count p /\
  Player.all_cards p' ≡ₚ Player.all_cards p.
Proof.
  intros H. apply applyBatch_success_inv in H as (_ & h1 & b1 & Hloop & Hd).
  apply validatePlacements_moves in Hloop as (Hlen & Htot & Hperm).
  assert (Hk : length (default [] placements) = placement_count placements)
    by (destruct placements; reflexivity).
  rewrite Hk in Hlen, Htot.
  unfold Player.card_count, Player.all_cards, discard_count.
  destruct Hd as [[Hnone ->] | (d & Hsome & Hfound & ->)];
    unfold commit; rewrite ?Hnone, ?Hsome; simpl.
  - repeat split; try lia.
    rewrite app_assoc, Hperm, <- app_assoc. reflexivity.
  - pose proof (splice1_length h1 d Hfound) as Hl.
    pose proof (splice1_found h1 d Hfound) as Hp.
    rewrite length_app. simpl. repeat split; try lia.
    transitivity ((d :: Js.splice1 h1 (Js.indexOf h1 d))
                  ++ Board.cards b1 ++ Player.discards p).
    + symmetry. simpl.
      rewrite Permutation_cons_append, <- !app_assoc. reflexivity.
    + rewrite (app_assoc (Player.hand p)), <- Hperm, <- app_assoc.
      apply Permutation_app_tail. symmetry. exact Hp.
Qed.

Lemma accepted_batch_conserves_cards_witness :
  Player.card_count
    (fst (applyBatch table_rules (round_room bob_waiting) ann
            (Some ann_batch) (Some "7C")))
  = Player.card_count ann.
Proof.
  apply (accepted_batch_conserves_cards table_rules (round_room bob_waiting)
           ann (Some ann_batch) (Some "7C")).
  reflexivity.
Defined.

(** ** Per-phase legality *)

Lemma phase_eqb_eq (a b : Phase) : phase_eqb a b = true <-> a = b.
Proof. destruct a, b; simpl; split; congruence. Qed.

Lemma phase_eqb_neq (a b : Phase) : phase_eqb a b = false <-> a <> b.
Proof. destruct a, b; simpl; split; congruence. Qed.

Lemma commit_nothing (p : Player.t) (discard : option Card) :
  Js.truthy discard = None ->
  commit p (Player.hand p) (Player.board p) discard = p.
Proof. intros H. unfold commit. rewrite H. destruct p; reflexivity. Qed.

(** C4, as the code has it.  In a pineapple round (any phase but
    initial-set) [applyBatch] fails with WrongPlacementCount whenever the
    number of placements differs from [placeCountPerRound]; when the count
    is right and no discard is staged it fails with DiscardRequired; a
    batch without a discard therefore fails in every case, with one of the
    two reasons; and a success means exactly [placeCountPerRound]
    placements and a staged discard. *)
Theorem round_batch_shape (R : Rules.t) (room : Room.t) (p : Player.t)
  (placements : option (list Placement)) (discard : option Card) :
  Room.phase room <> InitialSet ->
  let need := Rules.deal_placeCountPerRound R in
  let res := applyBatch R room p placements discard in
  (placement_count placements <> need ->
   res = (p, Returned (Failure WrongPlacementCount
                         ("You must place exactly " +:+ pretty need
                          +:+ " cards this round.")))) /\
  (placement_count placements = need -> Js.truthy discard = None ->
   res = (p, Returned (Failure DiscardRequired
                         "You must stage exactly 1 discard this round."))) /\
  (Js.truthy discard = None ->
   exists why msg,
     res = (p, Returned (Failure why msg)) /\
     (why = WrongPlacementCount \/ why = DiscardRequired)) /\
  (snd res = Returned Success ->
   placement_count placements = need /\
   exists d, Js.truthy discard = Some d).
Proof.
  intros Hph need res. apply phase_eqb_neq in Hph.
  assert (Hcount : placement_count placements <> need ->
    res = (p, Returned (Failure WrongPlacementCount
                          ("You must place exactly " +:+ pretty need
                           +:+ " cards this round.")))).
  { intros Hne. subst res. unfold applyBatch, phase_check; cbv zeta.
    rewrite Hph. apply Nat.eqb_neq in Hne. fold need. rewrite Hne.
    reflexivity. }
  assert (Hdisc : placement_count placements = need ->
    Js.truthy discard = None ->
    res = (p, Returned (Failure DiscardRequired
                          "You must stage exactly 1 discard this round."))).
  { intros He Hd. subst res. unfold applyBatch, phase_check; cbv zeta.
    rewrite Hph. apply Nat.eqb_eq in He. fold need. rewrite He, Hd.
    reflexivity. }
  split; [exact Hcount|]. split; [exact Hdisc|]. split.
  - intros Hd.
    destruct (Nat.eq_dec (placement_count placements) need) as [He|Hne].
    + eexists _, _. split; [apply Hdisc; assumption | right; reflexivity].
    + eexists _, _. split; [apply Hcount; assumption | left; reflexivity].
  - intros Hok.
    destruct (Nat.eq_dec (placement_count placements) need) as [He|Hne];
      [|rewrite (Hcount Hne) in Hok; discriminate].
    split; [exact He|].
    destruct (Js.truthy discard) as [d|] eqn:Hd; [exists d; reflexivity|].
    rewrite (Hdisc He eq_refl) in Hok. discriminate.
Qed.

Lemma round_batch_shape_witness :
  Room.phase (round_room bob_waiting) <> InitialSet /\
  applyBatch table_rules (round_room bob_waiting) ann
    (Some ann_batch) None
  = (ann, Returned (Failure DiscardRequired
                      "You must stage exactly 1 discard this round.")).
Proof.
  split; [discriminate|].
  apply (round_batch_shape table_rules (round_room bob_waiting) ann
           (Some ann_batch) None); [discriminate | reflexivity..].
Defined.

(** C4 as stated fails: with no placements and no discard in a pineapple
    round, no discard is submitted, yet the failure is WrongPlacementCount
    and not DiscardRequired, because the count is checked first. *)
Lemma missing_discard_not_always_DiscardRequired :
  Room.phase (round_room bob_waiting) <> InitialSet /\
  Js.truthy None = None /\
  snd (applyBatch table_rules (round_room bob_waiting) ann None None)
    = Returned (Failure WrongPlacementCount
                  "You must place exactly 2 cards this round.") /\
  ~ (exists msg,
       snd (applyBatch table_rules (round_room bob_waiting) ann None None)
       = Returned (Failure DiscardRequired msg)).
Proof.
  split; [discriminate|]. split; [reflexivity|]. split; [reflexivity|].
  intros [msg H]. vm_compute in H. discriminate.
Qed.

(** C5. During the initial set [applyBatch] fails with DiscardNotAllowed
    whenever a discard is staged; without one, the outcome is that of the
    per-placement checks and of nothing else, whatever the number of
    placements: no placement at all is accepted and leaves the player as
    it was, and an accepted batch never has more placements than the hand
    has cards. *)
Theorem initial_set_batch_shape (R : Rules.t) (room : Room.t)
  (p : Player.t) (placements : option (list Placement))
  (discard : option Card) :
  Room.phase room = InitialSet ->
  let res := applyBatch R room p placements discard in
  (forall d, Js.truthy discard = Some d ->
   res = (p, Returned (Failure DiscardNotAllowed
                         "No discard allowed during initial set."))) /\
  (Js.truthy discard = None ->
   res = match validatePlacements R (Player.hand p) (Player.board p)
                 (default [] placements) with
         | Continue h b => (commit p h b discard, Returned Success)
         | Reject why msg => (p, Returned (Failure why msg))
         | Raise e => (p, Threw e)
         end) /\
  (Js.truthy discard = None -> placement_count placements = 0 ->
   res = (p, Returned Success)) /\
  (snd res = Returned Success ->
   placement_count placements <= length (Player.hand p)).
Proof.
  intros Hph res. apply phase_eqb_eq in Hph.
  assert (Hloop : Js.truthy discard = None ->
    res = match validatePlacements R (Player.hand p) (Player.board p)
                  (default [] placements) with
          | Continue h b => (commit p h b discard, Returned Success)
          | Reject why msg => (p, Returned (Failure why msg))
          | Raise e => (p, Threw e)
          end).
  { intros Hd. subst res. unfold applyBatch, phase_check; cbv zeta.
    rewrite Hph, Hd. destruct (validatePlacements R _ _ _); reflexivity. }
  split; [|split; [exact Hloop|split]].
  - intros d Hd. subst res. unfold applyBatch, phase_check; cbv zeta.
    rewrite Hph, Hd. reflexivity.
  - intros Hd H0. rewrite (Hloop Hd).
    assert (default [] placements = []) as ->.
    { destruct placements as [[|x l]|]; simpl in *; congruence. }
    simpl. rewrite (commit_nothing p discard Hd). reflexivity.
  - intros Hok. destruct res as [p' ok] eqn:Hres. simpl in Hok. subst ok.
    apply applyBatch_success_inv in Hres as (_ & h1 & b1 & Hl & _).
    apply validatePlacements_moves in Hl as (Hlen & _).
    rewrite Hlen. destruct placements; simpl; lia.
Qed.

Lemma initial_set_batch_shape_witness :
  Room.phase initial_room = InitialSet /\
  applyBatch table_rules initial_room ann_initial None None
  = (ann_initial, Returned Success) /\
  (forall n, n <= 5 ->
   snd (applyBatch table_rules initial_room ann_initial
          (Some (take n five_placements)) None) = Returned Success).
Proof.
  split; [reflexivity|]. split.
  - apply (initial_set_batch_shape table_rules initial_room ann_initial
             None None); reflexivity.
  - intros n Hn.
    do 6 (destruct n as [|n]; [reflexivity|]). lia.
Defined.

(** ** Order of the per-placement checks *)

Lemma board_index_rows (row : string) (r : RowName) :
  board_index row = RowArray r <->
  (row = "top" /\ r = Top) \/ (row = "middle" /\ r = Middle) \/
  (row = "bottom" /\ r = Bottom).
Proof.
  unfold board_index.
  destruct (String.eqb_spec row "top") as [->|Ht].
  { split; [intros [= <-]; auto | intros [[_ ->]|[[? _]|[? _]]]; congruence]. }
  destruct (String.eqb_spec row "middle") as [->|Hm].
  { split; [intros [= <-]; auto | intros [[? _]|[[_ ->]|[? _]]]; congruence]. }
  destruct (String.eqb_spec row "bottom") as [->|Hb].
  { split; [intros [= <-]; auto | intros [[? _]|[[? _]|[_ ->]]]; congruence]. }
  split.
  - destruct (Js.object_prototype row); discriminate.
  - intros [[? _]|[[? _]|[? _]]]; congruence.
Qed.

(** First check: the card must be in the working hand, whatever the row. *)
Lemma validatePlacement_card_first (R : Rules.t) (h : list Card)
  (b : Board.t) (p : Placement) :
  card p ∉ h ->
  validatePlacement R h b p
  = Reject CardNotInHand ("Card " +:+ card p +:+ " is not in your hand.").
Proof.
  intros H. apply indexOf_absent in H.
  unfold validatePlacement. rewrite H. reflexivity.
Qed.

(** Second check: a row name the board does not answer to is rejected,
    whatever the capacities. *)
Lemma validatePlacement_row_second (R : Rules.t) (h : list Card)
  (b : Board.t) (p : Placement) :
  card p ∈ h -> board_index (row p) = Undefined ->
  validatePlacement R h b p
  = Reject InvalidRow ("Invalid row " +:+ row p +:+ ".").
Proof.
  intros Hin Hrow. unfold validatePlacement.
  destruct (Z.eqb_spec (Js.indexOf h (card p)) (-1)) as [He|He].
  - apply indexOf_absent in He. contradiction.
  - rewrite Hrow. reflexivity.
Qed.

(** Third check: one of the three rows, at its capacity on the working
    board. *)
Lemma validatePlacement_capacity_third (R : Rules.t) (h : list Card)
  (b : Board.t) (p : Placement) (r : RowName) :
  card p ∈ h -> board_index (row p) = RowArray r ->
  row_limit R (row p) <= length (Board.get b r) ->
  validatePlacement R h b p = Reject RowFull (row p +:+ " is full.").
Proof.
  intros Hin Hrow Hfull. unfold validatePlacement.
  destruct (Z.eqb_spec (Js.indexOf h (card p)) (-1)) as [He|He].
  - apply indexOf_absent in He. contradiction.
  - rewrite Hrow. unfold length_ge. simpl.
    apply Nat.leb_le in Hfull. rewrite Hfull. reflexivity.
Qed.

(** A row name inherited from [Object.prototype] passes the row check: the
    placement is never rejected as an invalid row. *)
Lemma validatePlacement_inherited_row (R : Rules.t) (h : list Card)
  (b : Board.t) (p : Placement) (len : option nat) :
  card p ∈ h -> board_index (row p) = ProtoMember len ->
  validatePlacement R h b p = Raise push_TypeError \/
  validatePlacement R h b p = Reject RowFull (row p +:+ " is full.").
Proof.
  intros Hin Hrow. unfold validatePlacement.
  destruct (Z.eqb_spec (Js.indexOf h (card p)) (-1)) as [He|He].
  - apply indexOf_absent in He. contradiction.
  - rewrite Hrow.
    destruct (length_ge b (ProtoMember len) (row_limit R (row p)));
      [right | left]; reflexivity.
Qed.

(** With distinct cards in hand, a card that was placed is no longer in
    the working hand when the loop ends. *)
Lemma validatePlacements_consumes (R : Rules.t) (ps : list Placement) :
  forall (h : list Card) (b : Board.t) (h' : list Card) (b' : Board.t),
  NoDup h ->
  validatePlacements R h b ps = Continue h' b' ->
  NoDup h' /\ h' ⊆ h /\ forall p, p ∈ ps -> card p ∉ h'.
Proof.
  induction ps as [|p ps IH]; intros h b h' b' Hnd H; simpl in H.
  - injection H as <- <-. split; [exact Hnd|]. split; [reflexivity|].
    intros p Hp. apply elem_of_nil in Hp. contradiction.
  - destruct (validatePlacement R h b p) as [h1 b1| |] eqn:Hstep;
      try discriminate.
    apply validatePlacement_accepts in Hstep as (Hin & -> & _).
    assert (Hfound : Js.indexOf h (card p) <> (-1)%Z).
    { intros He. apply indexOf_absent in He. contradiction. }
    pose proof (splice1_found h (card p) Hfound) as Hp.
    rewrite Hp in Hnd. apply NoDup_cons in Hnd as [Hnot Hnd1].
    destruct (IH _ _ _ _ Hnd1 H) as (Hnd' & Hsub & Hall).
    split; [exact Hnd'|]. split.
    + intros x Hx. rewrite Hp. right. apply Hsub, Hx.
    + intros q Hq. apply elem_of_cons in Hq as [->|Hq]; [|apply Hall, Hq].
      intros Hx. apply Hnot, Hsub, Hx.
Qed.

(** The discard is looked up in the hand the placements have reduced: with
    distinct cards in hand, a batch that discards a card it also places
    fails with CardNotInHand once its placements have passed. *)
Lemma discard_of_placed_card_fails (R : Rules.t) (room : Room.t)
  (p : Player.t) (ps : list Placement) (d : Card) (pl : Placement) :
  NoDup (Player.hand p) ->
  phase_check R (phase_eqb (Room.phase room) InitialSet) (Some ps) (Some d)
    = None ->
  (exists h1 b1,
     validatePlacements R (Player.hand p) (Player.board p) ps
     = Continue h1 b1) ->
  pl ∈ ps -> card pl = d -> d <> "" ->
  applyBatch R room p (Some ps) (Some d)
  = (p, Returned (Failure CardNotInHand
                    ("Discard " +:+ d +:+ " is not in your hand."))).
Proof.
  intros Hnd Hpc (h1 & b1 & Hloop) Hpl Hd Hne.
  unfold applyBatch; cbv zeta. rewrite Hpc. simpl default. rewrite Hloop.
  assert (Ht : Js.truthy (Some d) = Some d).
  { simpl. destruct (String.eqb_spec d ""); [contradiction | reflexivity]. }
  rewrite Ht.
  apply validatePlacements_consumes in Hloop as (_ & _ & Hall);
    [|exact Hnd].
  specialize (Hall pl Hpl). rewrite Hd in Hall.
  apply indexOf_absent in Hall. rewrite Hall. reflexivity.
Qed.

(** C6, at the input where the code departs from it.  The batch places a
    card Ann holds on the row named "constructor": the row is none of
    top/middle/bottom, yet the call does not fail with InvalidRow; the
    board object answers to the inherited name, the row check passes, and
    the call throws when it pushes. *)
Theorem inherited_row_name_escapes_InvalidRow :
  "AS" ∈ Player.hand ann_initial /\
  (forall r, board_index "constructor" <> RowArray r) /\
  applyBatch table_rules initial_room ann_initial
    (Some [place "constructor" "AS"]) None
  = (ann_initial, Threw push_TypeError) /\
  forall msg,
    snd (applyBatch table_rules initial_room ann_initial
           (Some [place "constructor" "AS"]) None)
    <> Returned (Failure InvalidRow msg).
Proof.
  split; [left|]. split; [intros r; discriminate|].
  split; [reflexivity|]. intros msg. discriminate.
Qed.

(** ** The public room state *)

Lemma emitRoomState_found (st : Store) (roomId : string) (room : Room.t) :
  st !! roomId = Some room ->
  emitRoomState st roomId = [Emit (To roomId) (ROOM_STATE (roomState room))].
Proof. intros H. unfold emitRoomState. rewrite H. reflexivity. Qed.

Lemma publicPlayer_agree (ps1 ps2 : list Player.t) :
  map publicPlayer ps1 = map publicPlayer ps2 <->
  map Player.userId ps1 = map Player.userId ps2 /\
  map Player.name ps1 = map Player.name ps2 /\
  map (fun p => length (Board.top (Player.board p))) ps1
    = map (fun p => length (Board.top (Player.board p))) ps2 /\
  map (fun p => length (Board.middle (Player.board p))) ps1
    = map (fun p => length (Board.middle (Player.board p))) ps2 /\
  map (fun p => length (Board.bottom (Player.board p))) ps1
    = map (fun p => length (Board.bottom (Player.board p))) ps2 /\
  map Player.ready ps1 = map Player.ready ps2.
Proof.
  revert ps2. induction ps1 as [|p ps1 IH]; intros [|q ps2]; simpl.
  - split; [intros _; repeat split; reflexivity | reflexivity].
  - split; [discriminate | intros (H & _); discriminate].
  - split; [discriminate | intros (H & _); discriminate].
  - split.
    + intros H. injection H as Hu Hn Ht Hm Hb Hr Hrest.
      apply IH in Hrest as (? & ? & ? & ? & ? & ?).
      repeat split; congruence.
    + intros (Hu & Hn & Ht & Hm & Hb & Hr).
      injection Hu as Hu Hus. injection Hn as Hn Hns.
      injection Ht as Ht Hts. injection Hm as Hm Hms.
      injection Hb as Hb Hbs. injection Hr as Hr Hrs.
      f_equal.
      * unfold publicPlayer. congruence.
      * apply IH. repeat split; assumption.
Qed.

(** C8. What [emitRoomState] sends for a room is the room's id, phase and
    hand counter and, per player, the id, the name, the three per-row
    counts and the ready flag, and nothing else: two registries whose rooms
    agree on exactly these emit the same message, whatever the cards in the
    hands, on the rows and in the discards; and rooms that differ on one of
    them emit different messages. *)
Theorem room_state_shows_counts_only (st1 st2 : Store) (roomId : string)
  (r1 r2 : Room.t) :
  st1 !! roomId = Some r1 ->
  st2 !! roomId = Some r2 ->
  emitRoomState st1 roomId
  = [Emit (To roomId)
       (ROOM_STATE
          {| rs_roomId := Room.id r1;
             rs_phase := Room.phase r1;
             rs_round := Room.round r1;
             rs_players :=
               map (fun p =>
                      {| pub_userId := Player.userId p;
                         pub_name := Player.name p;
                         placed_top := length (Board.top (Player.board p));
                         placed_middle :=
                           length (Board.middle (Player.board p));
                         placed_bottom :=
                           length (Board.bottom (Player.board p));
                         pub_ready := Player.ready p |})
                   (JsMap.values (Room.players r1)) |})] /\
  (public_agree r1 r2 <->
   emitRoomState st1 roomId = emitRoomState st2 roomId).
Proof.
  intros H1 H2.
  rewrite (emitRoomState_found st1 roomId r1 H1),
          (emitRoomState_found st2 roomId r2 H2).
  split; [reflexivity|].
  unfold public_agree, roomState. split.
  - intros (Hid & Hph & Hrd & Hrest).
    apply publicPlayer_agree in Hrest. rewrite Hid, Hph, Hrd, Hrest.
    reflexivity.
  - intros H. injection H as Hid Hph Hrd Hps.
    apply publicPlayer_agree in Hps. auto.
Qed.

Lemma room_state_shows_counts_only_witness :
  public_agree (round_room bob_waiting) other_room /\
  Player.all_cards ann <> Player.all_cards ann_other_cards /\
  emitRoomState (round_store bob_waiting) "r1"
  = emitRoomState (<["r1" := other_room]> ∅) "r1".
Proof.
  assert (Hagree : public_agree (round_room bob_waiting) other_room).
  { unfold public_agree. simpl. repeat split; reflexivity. }
  split; [exact Hagree|]. split; [discriminate|].
  apply (room_state_shows_counts_only (round_store bob_waiting)
           (<["r1" := other_room]> ∅) "r1"
           (round_room bob_waiting) other_room);
    [reflexivity | reflexivity | exact Hagree].
Defined.

(** ** The players' map stays a map *)

Lemma keys_set_subset {V} (m : list (string * V)) (k : string) (v : V) :
  forall x, x ∈ JsMap.keys (JsMap.set m k v) -> x = k \/ x ∈ JsMap.keys m.
Proof.
  unfold JsMap.keys.
  induction m as [|[k' v'] m IH]; simpl; intros x Hx.
  - apply elem_of_cons in Hx as [->|Hx]; [left; reflexivity|].
    apply elem_of_nil in Hx. contradiction.
  - destruct (String.eqb_spec k' k) as [->|Hne]; simpl in Hx.
    + apply elem_of_cons in Hx as [->|Hx];
        [left; reflexivity | right; right; exact Hx].
    + apply elem_of_cons in Hx as [->|Hx]; [right; left|].
      destruct (IH x Hx) as [->|Hin];
        [left; reflexivity | right; right; exact Hin].
Qed.

(** [set] keeps the keys distinct. *)
Lemma set_wf {V} (m : list (string * V)) (k : string) (v : V) :
  JsMap.wf m -> JsMap.wf (JsMap.set m k v).
Proof.
  unfold JsMap.wf.
  induction m as [|[k' v'] m IH]; simpl; intros Hnd.
  - apply NoDup_singleton.
  - apply NoDup_cons in Hnd as [Hnot Hnd].
    destruct (String.eqb_spec k' k) as [->|Hne]; simpl.
    + apply NoDup_cons. split; assumption.
    + apply NoDup_cons. split; [|apply IH, Hnd].
      intros Hin. apply keys_set_subset in Hin as [->|Hin];
        [congruence | contradiction].
Qed.

Lemma size_remove {V} (m : list (string * V)) (k : string) :
  JsMap.size (JsMap.remove m k) <= JsMap.size m.
Proof.
  unfold JsMap.size.
  induction m as [|[k' v'] m IH]; simpl; [lia|].
  destruct (String.eqb k' k); simpl; lia.
Qed.

(** ** Joining a room *)

Lemma player_in_put_same (st : Store) (roomId : string) (room : Room.t)
  (u : string) (p : Player.t) :
  player_in (put_player st roomId room u p) roomId u = Some p.
Proof.
  unfold player_in, put_player. rewrite lookup_insert_eq. simpl.
  apply get_set_same.
Qed.

Lemma player_in_put_other (st : Store) (roomId : string) (room : Room.t)
  (u u' : string) (p : Player.t) :
  st !! roomId = Some room -> u <> u' ->
  player_in (put_player st roomId room u p) roomId u'
  = player_in st roomId u'.
Proof.
  intros Hroom Hne. unfold player_in, put_player.
  rewrite lookup_insert_eq, Hroom. simpl.
  apply get_set_other, Hne.
Qed.

(** The room never outgrows [players.max] through [joinRoomHandler]. *)
Lemma join_keeps_size_bound (R : Rules.t) (st : Store) (socket : Socket)
  (roomId : string) (name : option string) (room room' : Room.t) :
  st !! roomId = Some room ->
  JsMap.size (Room.players room) <= Rules.players_max R ->
  after (joinRoomHandler R st socket roomId name) !! roomId = Some room' ->
  JsMap.size (Room.players room') <= Rules.players_max R.
Proof.
  intros Hroom Hle. unfold joinRoomHandler. rewrite Hroom.
  destruct (Nat.leb_spec (Rules.players_max R)
              (JsMap.size (Room.players room))) as [Hfull|Hfree]; simpl.
  - rewrite Hroom. intros [= <-]. exact Hle.
  - unfold put_player. rewrite lookup_insert_eq. intros [= <-]. simpl.
    destruct (JsMap.get (Room.players room) (user_sub socket)) as [old|]
      eqn:Hold.
    + rewrite (size_set_present _ _ _ old Hold). exact Hle.
    + rewrite (set_absent _ _ _ Hold). unfold JsMap.size in *.
      rewrite length_app. simpl. lia.
Qed.

(** Nor through [leaveRoomHandler]. *)
Lemma leave_keeps_size_bound (R : Rules.t) (st : Store) (socket : Socket)
  (roomId : string) (room room' : Room.t) :
  st !! roomId = Some room ->
  JsMap.size (Room.players room) <= Rules.players_max R ->
  after (leaveRoomHandler st socket roomId) !! roomId = Some room' ->
  JsMap.size (Room.players room') <= Rules.players_max R.
Proof.
  intros Hroom Hle. unfold leaveRoomHandler. rewrite Hroom. cbv zeta.
  pose proof (size_remove (Room.players room) (user_sub socket)) as Hrm.
  destruct (Nat.eqb _ 0); simpl.
  - rewrite lookup_delete_eq. discriminate.
  - rewrite lookup_insert_eq. intros [= <-]. simpl. lia.
Qed.

(** C9. When the caller's id is already a player of the room:
    below [players.max] the join succeeds, membership is not looked at, and
    the player's entry is replaced, at its place in the join order, by a
    fresh one (empty rows, empty hand, empty discards, not ready), the
    other players and the player count being untouched; at [players.max]
    the join is refused with "Room full" and nothing changes, although the
    player set would not have grown. *)
Theorem rejoin_replaces_or_is_refused (R : Rules.t) (st : Store)
  (socket : Socket) (roomId : string) (name : option string)
  (room : Room.t) (old : Player.t) :
  st !! roomId = Some room ->
  JsMap.get (Room.players room) (user_sub socket) = Some old ->
  let res := joinRoomHandler R st socket roomId name in
  (JsMap.size (Room.players room) < Rules.players_max R ->
   exists room' fresh,
     after res = <[roomId := room']> st /\
     JsMap.get (Room.players room') (user_sub socket) = Some fresh /\
     Player.board fresh = Board.empty /\
     Player.hand fresh = [] /\
     Player.discards fresh = [] /\
     Player.ready fresh = false /\
     Player.userId fresh = user_sub socket /\
     JsMap.keys (Room.players room') = JsMap.keys (Room.players room) /\
     JsMap.size (Room.players room') = JsMap.size (Room.players room) /\
     (forall u, u <> user_sub socket ->
        JsMap.get (Room.players room') u = JsMap.get (Room.players room) u) /\
     emitted res = [SocketJoin (socket_id socket) roomId;
                    Emit (To roomId) (ROOM_STATE (roomState room'))] /\
     completion res = Returned tt) /\
  (Rules.players_max R <= JsMap.size (Room.players room) ->
   res = finish st [Emit (Caller (socket_id socket)) (ERROR "Room full")]).
Proof.
  intros Hroom Hold res. subst res. unfold joinRoomHandler. rewrite Hroom.
  split.
  - intros Hfree. apply Nat.leb_gt in Hfree. rewrite Hfree.
    exists (Room.set_players room
              (JsMap.set (Room.players room) (user_sub socket)
                 (fresh_player socket name))),
           (fresh_player socket name).
    simpl. split; [reflexivity|].
    split; [apply get_set_same|].
    do 5 (split; [reflexivity|]).
    split; [apply (keys_set_present _ _ _ old Hold)|].
    split; [apply (size_set_present _ _ _ old Hold)|].
    split; [intros u Hu; apply get_set_other; congruence|].
    split; [|reflexivity].
    f_equal. apply emitRoomState_found. unfold put_player.
    apply lookup_insert_eq.
  - intros Hfull. apply Nat.leb_le in Hfull. rewrite Hfull. reflexivity.
Qed.

Lemma rejoin_replaces_or_is_refused_witness :
  player_in (round_store bob_waiting) "r1" "u1" = Some ann /\
  (exists fresh,
     player_in
       (after (joinRoomHandler table_rules (round_store bob_waiting)
                 ann_socket "r1" (Some "Ann")))
       "r1" "u1" = Some fresh /\
     Player.hand fresh = [] /\ Player.board fresh = Board.empty) /\
  joinRoomHandler table_rules (<["r1" := full_room]> ∅) ann_socket "r1"
    (Some "Ann")
  = finish (<["r1" := full_room]> ∅)
      [Emit (Caller "s1") (ERROR "Room full")].
Proof.
  split; [reflexivity|]. split.
  - destruct (rejoin_replaces_or_is_refused table_rules
                (round_store bob_waiting) ann_socket "r1" (Some "Ann")
                (round_room bob_waiting) ann) as [Hjoin _];
      [reflexivity | reflexivity |].
    destruct Hjoin as (room' & fresh & Hafter & Hget & Hb & Hh & _);
      [simpl; lia|].
    exists fresh. unfold player_in. rewrite Hafter, lookup_insert_eq.
    auto.
  - apply (rejoin_replaces_or_is_refused table_rules
             (<["r1" := full_room]> ∅) ann_socket "r1" (Some "Ann")
             full_room ann); [reflexivity | reflexivity | simpl; lia].
Defined.

(** ** The legacy placement handler *)

(** A placement the legacy loop accepts moves one card from the hand to a
    row of the player object. *)
Lemma placeOne_next (R : Rules.t) (p : Player.t) (pl : Placement)
  (p' : Player.t) :
  placeOne R p pl = (p', Next) ->
  length (Player.hand p) = S (length (Player.hand p')) /\
  Board.total (Player.board p') = S (Board.total (Player.board p)).
Proof.
  unfold placeOne.
  destruct (Z.eqb_spec (Js.indexOf (Player.hand p) (card pl)) (-1))
    as [He|He]; [discriminate|].
  destruct (board_index (row pl)) as [r|len|]; try discriminate;
    destruct (length_ge _ _ _); try discriminate.
  intros [= <-]. simpl.
  rewrite push_total, (splice1_length _ _ He). auto.
Qed.

(** A placement the legacy loop refuses leaves the player object alone,
    and the refusal is one of the three per-placement reasons. *)
Lemma placeOne_error (R : Rules.t) (p : Player.t) (pl : Placement)
  (why : Reason) (msg : string) :
  snd (placeOne R p pl) = ReturnError why msg ->
  placeOne R p pl = (p, ReturnError why msg) /\
  (why = CardNotInHand \/ why = InvalidRow \/ why = RowFull).
Proof.
  unfold placeOne.
  destruct (Js.indexOf (Player.hand p) (card pl) =? -1)%Z.
  { simpl. intros [= <- <-]. auto. }
  destruct (board_index (row pl)) as [r|len|].
  - destruct (length_ge _ _ _); simpl; [|discriminate].
    intros [= <- <-]. auto.
  - destruct (length_ge _ _ _); simpl; [|discriminate].
    intros [= <- <-]. auto.
  - simpl. intros [= <- <-]. auto.
Qed.

Lemma placeLoop_app (R : Rules.t) (pre rest : list Placement) :
  forall p : Player.t,
  placeLoop R p (pre ++ rest)
  = match placeLoop R p pre with
    | (pk, Next) => placeLoop R pk rest
    | stop => stop
    end.
Proof.
  induction pre as [|pl pre IH]; intros p; simpl; [reflexivity|].
  destruct (placeOne R p pl) as [p1 [| |]]; try reflexivity.
  apply IH.
Qed.

Lemma placeLoop_counts (R : Rules.t) (pre : list Placement) :
  forall p pk : Player.t,
  placeLoop R p pre = (pk, Next) ->
  length (Player.hand p) = length (Player.hand pk) + length pre /\
  Board.total (Player.board pk)
  = Board.total (Player.board p) + length pre.
Proof.
  induction pre as [|pl pre IH]; intros p pk H; simpl in H.
  - injection H as <-. simpl. lia.
  - destruct (placeOne R p pl) as [p1 [| |]] eqn:Hone; try discriminate.
    apply placeOne_next in Hone as [Hh Hb].
    apply IH in H as [Hh' Hb']. simpl. lia.
Qed.

(** The legacy loop and the loop of [applyBatch] make the same checks: the
    one on the player object, the other on copies of its hand and board. *)
Lemma placeOne_validatePlacement (R : Rules.t) (p : Player.t)
  (pl : Placement) :
  match validatePlacement R (Player.hand p) (Player.board p) pl with
  | Continue h b =>
      placeOne R p pl = (Player.set_board (Player.set_hand p h) b, Next)
  | Reject why _ => exists msg, placeOne R p pl = (p, ReturnError why msg)
  | Raise e =>
      e = push_TypeError /\
      exists p1, placeOne R p pl = (p1, Throws place_push_TypeError)
  end.
Proof.
  unfold validatePlacement, placeOne.
  destruct (Js.indexOf (Player.hand p) (card pl) =? -1)%Z; [eauto|].
  destruct (board_index (row pl)) as [r|len|]; [| |eauto];
    destruct (length_ge _ _ _); eauto.
Qed.

Lemma placeLoop_validatePlacements (R : Rules.t) (ps : list Placement) :
  forall (p pk : Player.t) (why : Reason) (msg : string),
  placeLoop R p ps = (pk, ReturnError why msg) ->
  exists msg', validatePlacements R (Player.hand p) (Player.board p) ps
               = Reject why msg'.
Proof.
  induction ps as [|pl ps IH]; intros p pk why msg H; simpl in H;
    [discriminate|].
  pose proof (placeOne_validatePlacement R p pl) as Hrel. simpl.
  destruct (validatePlacement R (Player.hand p) (Player.board p) pl)
    as [h b|w m|e].
  - rewrite Hrel in H. apply IH in H. exact H.
  - destruct Hrel as [m' Hrel]. rewrite Hrel in H.
    injection H as _ <- _. eauto.
  - destruct Hrel as (_ & p1 & Hrel). rewrite Hrel in H. discriminate.
Qed.

(** C10. The legacy [placeHandler] works on the player object itself and
    returns at the first placement it refuses: when the placements before
    the k-th are accepted in turn and the k-th is refused (CardNotInHand,
    InvalidRow or RowFull), the handler answers with that error and the
    player keeps the k-1 placements made so far, each one a card gone from
    the hand to the board; [applyBatch] on the same placements leaves the
    player as it was. *)
Theorem legacy_place_keeps_earlier_placements (R : Rules.t) (st : Store)
  (socket : Socket) (roomId : string) (room : Room.t) (p pk : Player.t)
  (pre : list Placement) (bad : Placement) (post : list Placement)
  (why : Reason) (msg : string) :
  st !! roomId = Some room ->
  JsMap.get (Room.players room) (user_sub socket) = Some p ->
  placeLoop R p pre = (pk, Next) ->
  snd (placeOne R pk bad) = ReturnError why msg ->
  let res := placeHandler R st socket roomId (Some (pre ++ bad :: post)) in
  (why = CardNotInHand \/ why = InvalidRow \/ why = RowFull) /\
  after res = put_player st roomId room (user_sub socket) pk /\
  player_in (after res) roomId (user_sub socket) = Some pk /\
  emitted res = [Emit (Caller (socket_id socket)) (ERROR msg)] /\
  completion res = Returned tt /\
  Board.total (Player.board pk)
  = Board.total (Player.board p) + length pre /\
  length (Player.hand p) = length (Player.hand pk) + length pre /\
  (pre <> [] -> pk <> p) /\
  (forall discard,
     fst (applyBatch R room p (Some (pre ++ bad :: post)) discard) = p /\
     snd (applyBatch R room p (Some (pre ++ bad :: post)) discard)
     <> Returned Success).
Proof.
  intros Hroom Hp Hpre Hbad res.
  apply placeOne_error in Hbad as [Hbad Hwhy].
  assert (Hloop : placeLoop R p (pre ++ bad :: post)
                  = (pk, ReturnError why msg)).
  { rewrite placeLoop_app, Hpre. simpl. rewrite Hbad. reflexivity. }
  destruct (placeLoop_counts R pre p pk Hpre) as [Hh Hb].
  split; [exact Hwhy|].
  assert (Hres : res = finish (put_player st roomId room (user_sub socket) pk)
                         [Emit (Caller (socket_id socket)) (ERROR msg)]).
  { subst res. unfold placeHandler. rewrite Hroom, Hp. simpl default.
    rewrite Hloop. reflexivity. }
  rewrite Hres. simpl.
  split; [reflexivity|]. split; [apply player_in_put_same|].
  split; [reflexivity|]. split; [reflexivity|].
  split; [exact Hb|]. split; [exact Hh|]. split.
  - intros Hne ->. destruct pre; [congruence | simpl in Hh; lia].
  - intros discard.
    assert (Hno : snd (applyBatch R room p (Some (pre ++ bad :: post)) discard)
                  <> Returned Success).
    { apply placeLoop_validatePlacements in Hloop as [msg' Hv].
      unfold applyBatch; cbv zeta. simpl default. rewrite Hv.
      destruct (phase_check R _ _ _) as [[w m]|]; simpl; discriminate. }
    split; [apply applyBatch_not_success, Hno | exact Hno].
Qed.

Lemma legacy_place_keeps_earlier_placements_witness :
  placeLoop table_rules ann [place "top" "AS"]
  = (Player.set_board (Player.set_hand ann ["KD"; "7C"])
       (Board.push (Player.board ann) Top "AS"), Next) /\
  player_in
    (after (placeHandler table_rules (round_store bob_waiting) ann_socket
              "r1" (Some ([place "top" "AS"] ++ place "attic" "KD"
                          :: [place "middle" "7C"]))))
    "r1" "u1"
  = Some (Player.set_board (Player.set_hand ann ["KD"; "7C"])
            (Board.push (Player.board ann) Top "AS")).
Proof.
  split; [reflexivity|].
  apply (legacy_place_keeps_earlier_placements table_rules
           (round_store bob_waiting) ann_socket "r1"
           (round_room bob_waiting) ann
           (Player.set_board (Player.set_hand ann ["KD"; "7C"])
              (Board.push (Player.board ann) Top "AS"))
           [place "top" "AS"] (place "attic" "KD") [place "middle" "7C"]
           InvalidRow "Invalid row");
    reflexivity.
Defined.

(** ** Dealing *)

(** With enough cards in the deck, [deal_each] gives every player [n] more
    cards at the end of the hand, keeps the players and their order, and
    takes the cards dealt off the deck. *)
Lemma deal_each_spec (n : nat) (ps : list (string * Player.t)) :
  forall deck : list Card,
  n * length ps <= length deck ->
  JsMap.keys (fst (deal_each n deck ps)) = JsMap.keys ps /\
  Forall2 (fun old new =>
             exists cs, length cs = n /\
                        new = Player.set_hand old (Player.hand old ++ cs))
          (JsMap.values ps) (JsMap.values (fst (deal_each n deck ps))) /\
  snd (deal_each n deck ps) = drop (n * length ps) deck.
Proof.
  unfold JsMap.keys, JsMap.values.
  induction ps as [|[k p] ps IH]; intros deck Hlen; simpl.
  - rewrite Nat.mul_0_r. simpl. repeat split. constructor.
  - simpl in Hlen.
    destruct (IH (drop n deck)) as (Hk & Hv & Hd).
    { rewrite length_drop. nia. }
    split; [rewrite Hk; reflexivity|]. split.
    + constructor; [|exact Hv].
      exists (take n deck). split; [|reflexivity].
      rewrite length_take. nia.
    + rewrite Hd, drop_drop. f_equal. nia.
Qed.

Lemma dealToAll_enough (room : Room.t) (n : nat) :
  n * JsMap.size (Room.players room) <= length (Room.deck room) ->
  exists ps deck,
    dealToAll room n
    = (Room.set_deck (Room.set_players room ps) deck, Returned tt) /\
    JsMap.keys ps = JsMap.keys (Room.players room) /\
    Forall2 (fun old new =>
               exists cs, length cs = n /\
                          new = Player.set_hand old (Player.hand old ++ cs))
            (JsMap.values (Room.players room)) (JsMap.values ps).
Proof.
  intros Hlen. unfold dealToAll.
  destruct (Nat.ltb_spec (length (Room.deck room))
              (n * JsMap.size (Room.players room))) as [Hlt|_]; [lia|].
  destruct (deal_each_spec n (Room.players room) (Room.deck room) Hlen)
    as (Hk & Hv & _).
  eexists _, _. split; [reflexivity|]. split; assumption.
Qed.

Lemma errors_app (a b : list Effect) :
  errors (a ++ b) = errors a ++ errors b.
Proof. apply omap_app. Qed.

Lemma reveals_app (a b : list Effect) :
  reveals (a ++ b) = reveals a ++ reveals b.
Proof. apply omap_app. Qed.

Lemma errors_cons (e : Effect) (l : list Effect) :
  errors (e :: l)
  = match error_of e with Some m => m :: errors l | None => errors l end.
Proof. reflexivity. Qed.

Lemma reveals_cons (e : Effect) (l : list Effect) :
  reveals (e :: l)
  = match reveal_of e with Some r => r :: reveals l | None => reveals l end.
Proof. reflexivity. Qed.

(** Takes [errors] and [reveals] of a list of effects apart, along its
    conses and appends. *)
Ltac effects_split :=
  repeat (rewrite ?errors_cons, ?reveals_cons, ?errors_app, ?reveals_app;
          cbn [error_of reveal_of]).

Lemma deal_messages_only_deal (n : nat) (room : Room.t) :
  errors (deal_messages n room) = [] /\
  reveals (deal_messages n room) = [].
Proof.
  unfold deal_messages, errors, reveals.
  induction (JsMap.values (Room.players room)) as [|p ps IH]; simpl;
    [split; reflexivity | exact IH].
Qed.

Lemma emitRoomState_only_state (st : Store) (roomId : string) :
  errors (emitRoomState st roomId) = [] /\
  reveals (emitRoomState st roomId) = [] /\
  deals (emitRoomState st roomId) = [].
Proof.
  unfold emitRoomState. destruct (st !! roomId); repeat split; reflexivity.
Qed.

(** ** Starting a hand *)

Lemma size_update_all {V} (f : V -> V) (m : list (string * V)) :
  JsMap.size (JsMap.update_all f m) = JsMap.size m.
Proof. unfold JsMap.size, JsMap.update_all. apply length_map. Qed.

Lemma keys_update_all {V} (f : V -> V) (m : list (string * V)) :
  JsMap.keys (JsMap.update_all f m) = JsMap.keys m.
Proof.
  unfold JsMap.keys, JsMap.update_all.
  induction m as [|[k v] m IH]; simpl; [reflexivity|].
  rewrite IH. reflexivity.
Qed.

Lemma values_update_all {V} (f : V -> V) (m : list (string * V)) :
  JsMap.values (JsMap.update_all f m) = map f (JsMap.values m).
Proof.
  unfold JsMap.values, JsMap.update_all.
  induction m as [|[k v] m IH]; simpl; [reflexivity|].
  rewrite IH. reflexivity.
Qed.

(** What [startRound] does by the number of players: outside
    [players.min, players.max] it fails and returns the room as it was;
    inside, the room is reset for a new hand and dealt from the fresh
    deck. *)
Lemma startRound_outside (R : Rules.t) (fresh : list Card) (room : Room.t) :
  ~ (Rules.players_min R <= JsMap.size (Room.players room)
     <= Rules.players_max R) ->
  startRound R fresh room = (room, Threw InsufficientPlayers).
Proof.
  intros Hout. unfold startRound. cbv zeta.
  destruct (Nat.ltb_spec (JsMap.size (Room.players room))
              (Rules.players_min R));
    destruct (Nat.ltb_spec (Rules.players_max R)
                (JsMap.size (Room.players room)));
    simpl; try reflexivity.
  lia.
Qed.

Lemma startRound_inside (R : Rules.t) (fresh : list Card) (room : Room.t) :
  Rules.players_min R <= JsMap.size (Room.players room)
  <= Rules.players_max R ->
  startRound R fresh room
  = dealToAll
      {| Room.id := Room.id room;
         Room.phase := InitialSet;
         Room.round := Room.round room + 1;
         Room.roundIndex := 0;
         Room.players := JsMap.update_all reset_player (Room.players room);
         Room.deck := fresh |}
      (Rules.deal_initialSetCount R).
Proof.
  intros [Hmin Hmax]. unfold startRound. cbv zeta.
  apply Nat.ltb_ge in Hmin. apply Nat.ltb_ge in Hmax.
  rewrite Hmin, Hmax. reflexivity.
Qed.

(** C7. A hand starts exactly when the number of players of the room lies
    in [players.min, players.max] (the fresh deck holding the initial
    cards of all of them): the room then enters the initial set with its
    hand counter incremented, the round is announced first and no error
    is sent.  Outside the interval the start fails with
    InsufficientPlayers and the registry is as it was: below
    [players.min] by the guard of [startRoundHandler], which answers
    "Need more players"; above [players.max] by [startRound] itself.  In
    a room of at most [players.max] players, which is every room the
    handlers build, a refused start is always the answer "Need more
    players". *)
Theorem startRound_needs_players_within_bounds (R : Rules.t)
  (fresh : list Card) (st : Store) (socket : Socket) (roomId : string)
  (room : Room.t) :
  st !! roomId = Some room ->
  let res := startRoundHandler R fresh st socket roomId in
  let n := JsMap.size (Room.players room) in
  let inside := Rules.players_min R <= n <= Rules.players_max R in
  let need_more :=
    finish st [Emit (Caller (socket_id socket)) (ERROR "Need more players")] in
  (Rules.deal_initialSetCount R * n <= length fresh ->
   (completion res = Returned tt /\ errors (emitted res) = [] <-> inside)) /\
  (Rules.deal_initialSetCount R * n <= length fresh -> inside ->
   exists room',
     after res = <[roomId := room']> st /\
     Room.phase room' = InitialSet /\
     Room.round room' = Room.round room + 1 /\
     Room.roundIndex room' = 0 /\
     JsMap.keys (Room.players room') = JsMap.keys (Room.players room) /\
     completion res = Returned tt /\
     head (emitted res)
     = Some (Emit (To roomId) (START_ROUND (Room.round room + 1))) /\
     errors (emitted res) = []) /\
  (~ inside ->
   after res = st /\
   (res = need_more \/
    startRound R fresh room = (room, Threw InsufficientPlayers) /\
    emitted res = [] /\ completion res = Threw InsufficientPlayers)) /\
  (n < Rules.players_min R -> res = need_more) /\
  (room_within_max R room -> ~ inside -> res = need_more).
Proof.
  intros Hroom res n inside need_more.
  assert (Hlow : n < Rules.players_min R -> res = need_more).
  { intros Hlt. subst res need_more. unfold startRoundHandler.
    rewrite Hroom. fold n. apply Nat.ltb_lt in Hlt. rewrite Hlt.
    reflexivity. }
  assert (Hhigh : Rules.players_min R <= n -> ~ inside ->
            startRound R fresh room = (room, Threw InsufficientPlayers) /\
            res = {| after := st; emitted := [];
                     completion := Threw InsufficientPlayers |}).
  { intros Hge Hout.
    pose proof (startRound_outside R fresh room Hout) as Hfail.
    split; [exact Hfail|].
    subst res. unfold startRoundHandler. rewrite Hroom. fold n.
    apply Nat.ltb_ge in Hge. rewrite Hge, Hfail.
    rewrite (insert_id st roomId room Hroom). reflexivity. }
  assert (Hin : Rules.deal_initialSetCount R * n <= length fresh ->
            inside ->
            exists room',
              after res = <[roomId := room']> st /\
              Room.phase room' = InitialSet /\
              Room.round room' = Room.round room + 1 /\
              Room.roundIndex room' = 0 /\
              JsMap.keys (Room.players room')
              = JsMap.keys (Room.players room) /\
              completion res = Returned tt /\
              head (emitted res)
              = Some (Emit (To roomId)
                        (START_ROUND (Room.round room + 1))) /\
              errors (emitted res) = []).
  { intros Hdeck Hins. subst res. unfold startRoundHandler.
    rewrite Hroom. fold n.
    destruct Hins as [Hmin Hmax].
    assert (Hge : Nat.ltb n (Rules.players_min R) = false)
      by (apply Nat.ltb_ge; exact Hmin).
    rewrite Hge, (startRound_inside R fresh room (conj Hmin Hmax)).
    match goal with |- context [dealToAll ?r ?k] =>
      destruct (dealToAll_enough r k) as (ps & deck & Hdeal & Hkeys & _)
    end.
    { simpl. rewrite size_update_all. exact Hdeck. }
    rewrite Hdeal. eexists. split; [reflexivity|]. simpl.
    split; [reflexivity|]. split; [reflexivity|]. split; [reflexivity|].
    split.
    { rewrite Hkeys. apply keys_update_all. }
    split; [reflexivity|]. split; [reflexivity|].
    effects_split.
    rewrite (proj1 (deal_messages_only_deal _ _)).
    apply emitRoomState_only_state. }
  split; [|split; [exact Hin|split; [|split; [exact Hlow|]]]].
  - intros Hdeck. split.
    + intros [Hdone Herr].
      destruct (Nat.lt_ge_cases n (Rules.players_min R)) as [Hlt|Hge].
      { rewrite (Hlow Hlt) in Herr. discriminate. }
      destruct (Nat.lt_ge_cases (Rules.players_max R) n) as [Hgt|Hle].
      { destruct (Hhigh Hge) as [_ Hres]; [unfold inside; lia|].
        rewrite Hres in Hdone. discriminate. }
      unfold inside. lia.
    + intros Hins.
      destruct (Hin Hdeck Hins) as (room' & _ & _ & _ & _ & _ & Hc & _ & He).
      auto.
  - intros Hout.
    destruct (Nat.lt_ge_cases n (Rules.players_min R)) as [Hlt|Hge].
    + rewrite (Hlow Hlt). auto.
    + destruct (Hhigh Hge Hout) as [Hfail Hres]. rewrite Hres. auto.
  - intros Hmax Hout. apply Hlow.
    unfold room_within_max in Hmax. fold n in Hmax. unfold inside in Hout.
    lia.
Qed.

Lemma startRound_needs_players_within_bounds_witness :
  (* two players, bounds 2 and 3: the hand starts *)
  (exists room',
     after (startRoundHandler table_rules deck52
              (<["r1" := waiting_room]> ∅) ann_socket "r1")
     = <["r1" := room']> (<["r1" := waiting_room]> ∅) /\
     Room.phase room' = InitialSet /\
     Room.round room' = 2) /\
  (* one player: refused by the handler *)
  startRoundHandler table_rules deck52 (<["r1" := solo_room]> ∅)
    ann_socket "r1"
  = finish (<["r1" := solo_room]> ∅)
      [Emit (Caller "s1") (ERROR "Need more players")] /\
  (* four players, a room no sequence of joins builds: refused by
     startRound *)
  startRoundHandler table_rules deck52 (<["r1" := crowded_room]> ∅)
    ann_socket "r1"
  = {| after := <["r1" := crowded_room]> ∅; emitted := [];
       completion := Threw InsufficientPlayers |}.
Proof.
  split; [|split; [|reflexivity]].
  - destruct (startRound_needs_players_within_bounds table_rules deck52
                (<["r1" := waiting_room]> ∅) ann_socket "r1" waiting_room)
      as (_ & Hstart & _); [reflexivity|].
    destruct Hstart as (room' & Hafter & Hphase & Hround & _);
      [simpl; lia | simpl; lia |].
    exists room'. auto.
  - destruct (startRound_needs_players_within_bounds table_rules deck52
                (<["r1" := solo_room]> ∅) ann_socket "r1" solo_room)
      as (_ & _ & _ & Hlow & _); [reflexivity|].
    apply Hlow. vm_compute. lia.
Defined.

(** ** The settlement *)

Lemma scores_app (u : string) (e1 e2 : list PairEntry) :
  scores u (e1 ++ e2) = scores u e1 ++ scores u e2.
Proof. unfold scores. apply flat_map_app. Qed.

Lemma tally_app (u : string) (start : option Total) (xs ys : list Z) :
  tally u (tally u start xs) ys = tally u start (xs ++ ys).
Proof. unfold tally. rewrite fold_left_app. reflexivity. Qed.

(** One update of [totals], seen from a user id. *)
Lemma add_total_lookup (t : gmap string Total) (v u : string) (x : Z) :
  add_total t v x !! u
  = if String.eqb v u then tally u (t !! u) [x] else t !! u.
Proof.
  unfold add_total, assign_total, tally. simpl.
  destruct (String.eqb_spec v u) as [->|Hne].
  - destruct (String.eqb u "__proto__"); [reflexivity|].
    rewrite lookup_insert_eq. reflexivity.
  - destruct (String.eqb v "__proto__"); [reflexivity|].
    rewrite lookup_insert_ne by exact Hne. reflexivity.
Qed.

(** The two updates of [totals] for one pair add the totals its entry
    gives. *)
Lemma add_total_entry (t : gmap string Total) (e : PairEntry) (u : string) :
  add_total (add_total t (pe_aUserId e) (total (pe_a e)))
    (pe_bUserId e) (total (pe_b e)) !! u
  = tally u (t !! u) (scored u e).
Proof.
  rewrite !add_total_lookup. unfold scored.
  destruct (String.eqb (pe_aUserId e) u), (String.eqb (pe_bUserId e) u);
    reflexivity.
Qed.

Lemma settleAgainst_spec
  (settlePairwiseDetailed : Board.t -> Board.t -> Completion PairDetail)
  (A : Player.t) (later : list Player.t) :
  forall acc acc' : gmap string Total * list PairEntry,
  settleAgainst settlePairwiseDetailed A later acc = Returned acc' ->
  exists new,
    snd acc' = snd acc ++ new /\
    Forall2 (entry_of settlePairwiseDetailed) new (map (pair A) later) /\
    forall u, fst acc' !! u = tally u (fst acc !! u) (scores u new).
Proof.
  induction later as [|B later IH]; intros acc acc' H; simpl in H.
  - injection H as <-. exists []. rewrite app_nil_r.
    split; [reflexivity|]. split; [constructor|]. intros u. reflexivity.
  - destruct (settlePairwiseDetailed (Player.board A) (Player.board B))
      as [det|e] eqn:Hdet; simpl in H; [|discriminate].
    apply IH in H as (new & Hsnd & Hall & Htally). simpl in Hsnd, Htally.
    exists ({| pe_aUserId := Player.userId A;
               pe_bUserId := Player.userId B;
               pe_a := det_a det; pe_b := det_b det |} :: new).
    split; [|split].
    + rewrite Hsnd, <- app_assoc. reflexivity.
    + simpl. constructor; [|exact Hall].
      unfold entry_of. simpl. destruct det. auto.
    + intros u. rewrite Htally.
      pose proof (add_total_entry (fst acc)
                    {| pe_aUserId := Player.userId A;
                       pe_bUserId := Player.userId B;
                       pe_a := det_a det; pe_b := det_b det |} u) as He.
      simpl in He. rewrite He.
      apply (tally_app u (fst acc !! u) (scored u _) (scores u new)).
Qed.

Lemma settlePairs_spec
  (settlePairwiseDetailed : Board.t -> Board.t -> Completion PairDetail)
  (ps : list Player.t) :
  forall acc acc' : gmap string Total * list PairEntry,
  settlePairs settlePairwiseDetailed ps acc = Returned acc' ->
  exists new,
    snd acc' = snd acc ++ new /\
    Forall2 (entry_of settlePairwiseDetailed) new (pairs_of ps) /\
    forall u, fst acc' !! u = tally u (fst acc !! u) (scores u new).
Proof.
  induction ps as [|A later IH]; intros acc acc' H; simpl in H.
  - injection H as <-. exists []. rewrite app_nil_r.
    split; [reflexivity|]. split; [constructor|]. intros u. reflexivity.
  - destruct (settleAgainst settlePairwiseDetailed A later acc)
      as [acc1|e] eqn:Hrow; simpl in H; [|discriminate].
    apply settleAgainst_spec in Hrow as (new1 & Hs1 & Ha1 & Ht1).
    apply IH in H as (new2 & Hs2 & Ha2 & Ht2).
    exists (new1 ++ new2). split; [|split].
    + rewrite Hs2, Hs1, app_assoc. reflexivity.
    + simpl. apply Forall2_app; assumption.
    + intros u. rewrite Ht2, Ht1, scores_app. apply tally_app.
Qed.

Lemma boardSummaries_spec
  (validateBoard : Board.t -> Completion BoardCheck) (ps : list Player.t) :
  forall ss,
  boardSummaries validateBoard ps = Returned ss ->
  Forall2 (summary_of validateBoard) ss ps.
Proof.
  induction ps as [|pl ps IH]; intros ss H; simpl in H.
  - injection H as <-. constructor.
  - unfold boardSummary in H.
    destruct (validateBoard (Player.board pl)) as [v|e] eqn:Hv; simpl in H;
      [|discriminate].
    destruct (boardSummaries validateBoard ps) as [ss'|e]; simpl in H;
      [|discriminate].
    injection H as <-. constructor; [|apply IH; reflexivity].
    unfold summary_of. simpl. do 3 (split; [reflexivity|]).
    exists v. auto.
Qed.

Lemma pairs_of_length {A} (l : list A) :
  2 * length (pairs_of l) = length l * (length l - 1).
Proof.
  induction l as [|a l IH]; simpl; [reflexivity|].
  rewrite length_app, length_map. nia.
Qed.

(** The own property a user id ends with, from none: nothing for
    ["__proto__"], a number for an id [Object.prototype] does not define,
    a string for one it defines. *)
Lemma tally_proto (start : option Total) (xs : list Z) :
  tally "__proto__" start xs = start.
Proof.
  unfold tally. revert start.
  induction xs as [|x xs IH]; intros start; simpl; [reflexivity|]. apply IH.
Qed.

Lemma tally_sum (u : string) (ys xs : list Z) :
  u <> "__proto__" ->
  tally u (Some (Sum ys)) xs = Some (Sum (ys ++ xs)).
Proof.
  intros Hu. apply String.eqb_neq in Hu. unfold tally. rewrite Hu.
  revert ys.
  induction xs as [|x xs IH]; intros ys; simpl.
  - rewrite app_nil_r. reflexivity.
  - rewrite IH, <- app_assoc. reflexivity.
Qed.

Lemma tally_text (u member : string) (ys xs : list Z) :
  u <> "__proto__" ->
  tally u (Some (Text member ys)) xs = Some (Text member (ys ++ xs)).
Proof.
  intros Hu. apply String.eqb_neq in Hu. unfold tally. rewrite Hu.
  revert ys.
  induction xs as [|x xs IH]; intros ys; simpl.
  - rewrite app_nil_r. reflexivity.
  - rewrite IH, <- app_assoc. reflexivity.
Qed.

Lemma tally_result (u : string) (es : list PairEntry) :
  tally u None (scores u es) = result_of u es.
Proof.
  unfold result_of.
  destruct (scores u es) as [|x xs]; [reflexivity|].
  destruct (String.eqb_spec u "__proto__") as [->|Hu].
  { rewrite tally_proto. reflexivity. }
  change (tally u None (x :: xs))
    with (tally u
            (if String.eqb u "__proto__" then None
             else Some (or_zero_plus u (read_total None u) x)) xs).
  rewrite (proj2 (String.eqb_neq _ _) Hu). unfold read_total.
  destruct (Js.object_prototype u) as [len|]; simpl.
  - apply (tally_text u u [x] xs Hu).
  - apply (tally_sum u [x] xs Hu).
Qed.

(** What a returned settlement holds: a summary for every player's board
    as [validateBoard] judged it, an entry for every pair of players as
    [settlePairwiseDetailed] scored it, the results these entries add up
    to, and the hand counter. *)
Lemma settlement_inv
  (validateBoard : Board.t -> Completion BoardCheck)
  (settlePairwiseDetailed : Board.t -> Board.t -> Completion PairDetail)
  (room : Room.t) (payload : RevealPayload) :
  settlement validateBoard settlePairwiseDetailed room = Returned payload ->
  Forall2 (summary_of validateBoard) (rv_boards payload)
    (JsMap.values (Room.players room)) /\
  Forall2 (entry_of settlePairwiseDetailed) (rv_pairwise payload)
    (pairs_of (JsMap.values (Room.players room))) /\
  (forall u, rv_results payload !! u = result_of u (rv_pairwise payload)) /\
  rv_round payload = Room.round room.
Proof.
  unfold settlement.
  destruct (boardSummaries validateBoard _) as [ss|e] eqn:Hb; simpl;
    [|discriminate].
  destruct (settlePairs settlePairwiseDetailed _ _) as [acc|e] eqn:Hp;
    simpl; [|discriminate].
  intros [= <-]. simpl.
  apply boardSummaries_spec in Hb.
  apply settlePairs_spec in Hp as (new & Hs & Ha & Ht). simpl in Hs, Ht.
  rewrite Hs. split; [exact Hb|]. split; [exact Ha|]. split; [|reflexivity].
  intros u. rewrite Ht, lookup_empty. apply tally_result.
Qed.





Lemma Forall2_functional {A B} (P : A -> B -> Prop) :
  (forall x y b, P x b -> P y b -> x = y) ->
  forall l1 l2 bs, Forall2 P l1 bs -> Forall2 P l2 bs -> l1 = l2.
Proof.
  intros Hfun l1 l2 bs H1. revert l2.
  induction H1 as [|x b l1 bs Hx _ IH]; intros l2 H2;
    inversion H2 as [|y ? l2' ? Hy Hrest]; subst; [reflexivity|].
  f_equal; [apply (Hfun x y b Hx Hy) | apply IH, Hrest].
Qed.

(** A payload is told by the scoring functions: there is one at most. *)
Lemma settled_unique
  (validateBoard : Board.t -> Completion BoardCheck)
  (settlePairwiseDetailed : Board.t -> Board.t -> Completion PairDetail)
  (room : Room.t) (p1 p2 : RevealPayload) :
  settled validateBoard settlePairwiseDetailed room p1 ->
  settled validateBoard settlePairwiseDetailed room p2 ->
  p1 = p2.
Proof.
  unfold settled.
  intros (Hb1 & He1 & Hr1 & Hn1) (Hb2 & He2 & Hr2 & Hn2).
  assert (Hboards : rv_boards p1 = rv_boards p2).
  { apply (Forall2_functional (summary_of validateBoard)) with
      (bs := JsMap.values (Room.players room)); [|assumption..].
    intros s s2 pl (Hu & Hn & Hbd & v & Hv & Hval & Hrs)
      (Hu2 & Hn' & Hbd2 & v2 & Hv2 & Hval2 & Hrs2).
    rewrite Hv in Hv2. injection Hv2 as <-.
    destruct s, s2; simpl in *; congruence. }
  assert (Hpairs : rv_pairwise p1 = rv_pairwise p2).
  { apply (Forall2_functional (entry_of settlePairwiseDetailed)) with
      (bs := pairs_of (JsMap.values (Room.players room))); [|assumption..].
    intros en en2 AB (Ha & Hb & Hd) (Ha2 & Hb2' & Hd2).
    rewrite Hd in Hd2. injection Hd2 as Hda Hdb.
    destruct en, en2; simpl in *; congruence. }
  assert (Hres : rv_results p1 = rv_results p2).
  { apply map_eq. intros u. rewrite Hr1, Hr2, Hpairs. reflexivity. }
  destruct p1, p2; simpl in *; congruence.
Qed.

(** ** The barrier of [readyHandler] *)

(** After an accepted batch [readyHandler] is [advance] on the room with
    the batch committed and the flag set. *)
Lemma readyHandler_accepted (R : Rules.t)
  (validateBoard : Board.t -> Completion BoardCheck)
  (settlePairwiseDetailed : Board.t -> Board.t -> Completion PairDetail)
  (st : Store) (socket : Socket) (roomId : string) (room : Room.t)
  (p p' : Player.t) (placements : option (list Placement))
  (discard : option Card) :
  st !! roomId = Some room ->
  JsMap.get (Room.players room) (user_sub socket) = Some p ->
  applyBatch R room p placements discard = (p', Returned Success) ->
  readyHandler R validateBoard settlePairwiseDetailed st socket roomId
    placements discard
  = advance R validateBoard settlePairwiseDetailed st roomId
      (committed room (user_sub socket) p').
Proof.
  intros Hroom Hp Hok. unfold readyHandler. rewrite Hroom, Hp, Hok.
  reflexivity.
Qed.


Lemma size_keys {V} (m : list (string * V)) :
  JsMap.size m = length (JsMap.keys m).
Proof. unfold JsMap.size, JsMap.keys. rewrite length_map. reflexivity. Qed.







(** * Further properties of the handlers *)

(** ** More on the players' map *)

Lemma get_None_keys {V} (m : list (string * V)) (k : string) :
  JsMap.get m k = None <-> k ∉ JsMap.keys m.
Proof.
  unfold JsMap.keys. induction m as [|[k' v'] m IH]; simpl.
  - split; [intros _; apply not_elem_of_nil | reflexivity].
  - destruct (String.eqb_spec k' k) as [->|Hne].
    + split; [discriminate | intros H; exfalso; apply H; left].
    + rewrite IH. split.
      * intros Hnot Hin. apply elem_of_cons in Hin as [->|Hin];
          [congruence | contradiction].
      * intros Hnot Hin. apply Hnot. right. exact Hin.
Qed.

Lemma get_app_absent {V} (l1 l2 : list (string * V)) (k : string) :
  JsMap.get l1 k = None -> JsMap.get (l1 ++ l2) k = JsMap.get l2 k.
Proof.
  induction l1 as [|[k' v'] l1 IH]; simpl; [reflexivity|].
  destruct (String.eqb k' k); [discriminate | exact IH].
Qed.

(** Removing a present key cuts its entry out and keeps the others in
    their order. *)
Lemma remove_present {V} (m : list (string * V)) (k : string) (v : V) :
  JsMap.get m k = Some v ->
  exists l1 l2,
    m = l1 ++ (k, v) :: l2 /\
    JsMap.get l1 k = None /\
    JsMap.remove m k = l1 ++ l2.
Proof.
  induction m as [|[k' v'] m IH]; simpl; [discriminate|].
  destruct (String.eqb_spec k' k) as [->|Hne].
  - intros [= ->]. exists [], m. auto.
  - intros H. destruct (IH H) as (l1 & l2 & -> & Hl1 & Hrm).
    exists ((k', v') :: l1), l2. simpl.
    destruct (String.eqb_spec k' k); [contradiction|].
    rewrite Hrm. auto.
Qed.

Lemma remove_absent {V} (m : list (string * V)) (k : string) :
  JsMap.get m k = None -> JsMap.remove m k = m.
Proof.
  induction m as [|[k' v'] m IH]; simpl; [reflexivity|].
  destruct (String.eqb k' k); [discriminate|].
  intros H. rewrite IH by exact H. reflexivity.
Qed.

Lemma get_remove_other {V} (m : list (string * V)) (k k' : string) :
  k <> k' -> JsMap.get (JsMap.remove m k) k' = JsMap.get m k'.
Proof.
  intros Hne. induction m as [|[k0 v0] m IH]; simpl; [reflexivity|].
  destruct (String.eqb_spec k0 k) as [->|Hk]; simpl.
  - destruct (String.eqb_spec k k'); [contradiction | reflexivity].
  - destruct (String.eqb k0 k'); [reflexivity | exact IH].
Qed.

(** In a map, a removed key is gone. *)
Lemma get_remove_same {V} (m : list (string * V)) (k : string) :
  JsMap.wf m -> JsMap.get (JsMap.remove m k) k = None.
Proof.
  unfold JsMap.wf. induction m as [|[k' v'] m IH]; simpl; [reflexivity|].
  intros Hnd. apply NoDup_cons in Hnd as [Hnot Hnd].
  destruct (String.eqb_spec k' k) as [->|Hne]; simpl.
  - apply get_None_keys, Hnot.
  - destruct (String.eqb_spec k' k); [contradiction | apply IH, Hnd].
Qed.

Lemma remove_set_absent {V} (m : list (string * V)) (k : string) (v : V) :
  JsMap.get m k = None -> JsMap.remove (JsMap.set m k v) k = m.
Proof.
  induction m as [|[k' v'] m IH]; simpl.
  - rewrite String.eqb_refl. reflexivity.
  - destruct (String.eqb_spec k' k) as [->|Hne]; [discriminate|].
    intros H. simpl. destruct (String.eqb_spec k' k); [contradiction|].
    rewrite IH by exact H. reflexivity.
Qed.

Lemma remove_wf {V} (m : list (string * V)) (k : string) :
  JsMap.wf m -> JsMap.wf (JsMap.remove m k).
Proof.
  unfold JsMap.wf, JsMap.keys.
  induction m as [|[k' v'] m IH]; simpl; intros Hnd; [exact Hnd|].
  apply NoDup_cons in Hnd as [Hnot Hnd].
  destruct (String.eqb_spec k' k) as [->|Hne]; simpl; [exact Hnd|].
  apply NoDup_cons. split; [|apply IH, Hnd].
  intros Hin. apply Hnot.
  clear -Hin. induction m as [|[k0 v0] m IHm]; simpl in *;
    [exact Hin|].
  destruct (String.eqb k0 k); simpl in *; [right; exact Hin|].
  apply elem_of_cons in Hin as [->|Hin]; [left | right; apply IHm, Hin].
Qed.

(** Distinctness of a list of string literals. *)
Ltac distinct_strings :=
  repeat (apply NoDup_cons_2;
          [rewrite ?elem_of_cons, elem_of_nil; intuition discriminate|]);
  apply NoDup_nil_2.

(** ** Joining and leaving *)

(** X1. A caller who is not yet a player of a room below [players.max]
    is appended to the room's players, last in join order, as a fresh
    player (empty rows, empty hand, no discards, not ready); the players
    already there are untouched, the room grows by one, and the broadcast
    room state shows the newcomer last with nothing placed.  The display
    name is the name given, or "Player-" and the last four characters of
    the user id when the name is missing or empty. *)
Theorem join_appends_new_player (R : Rules.t) (st : Store)
  (socket : Socket) (roomId : string) (name : option string)
  (room : Room.t) :
  st !! roomId = Some room ->
  JsMap.get (Room.players room) (user_sub socket) = None ->
  JsMap.size (Room.players room) < Rules.players_max R ->
  let res := joinRoomHandler R st socket roomId name in
  let fresh := fresh_player socket name in
  let room' := Room.set_players room
                 (Room.players room ++ [(user_sub socket, fresh)]) in
  after res = <[roomId := room']> st /\
  emitted res = [SocketJoin (socket_id socket) roomId;
                 Emit (To roomId) (ROOM_STATE (roomState room'))] /\
  completion res = Returned tt /\
  JsMap.size (Room.players room') = S (JsMap.size (Room.players room)) /\
  JsMap.get (Room.players room') (user_sub socket) = Some fresh /\
  (forall u, u <> user_sub socket ->
     JsMap.get (Room.players room') u = JsMap.get (Room.players room) u) /\
  (JsMap.wf (Room.players room) -> JsMap.wf (Room.players room')) /\
  last (rs_players (roomState room'))
  = Some {| pub_userId := user_sub socket;
            pub_name := match name with
                        | Some n => if String.eqb n "" then
                                      "Player-"
                                      +:+ Js.str_slice_last 4 (user_sub socket)
                                    else n
                        | None => "Player-"
                                  +:+ Js.str_slice_last 4 (user_sub socket)
                        end;
            placed_top := 0; placed_middle := 0; placed_bottom := 0;
            pub_ready := false |}.
Proof.
  intros Hroom Hnew Hfree res fresh room'.
  assert (Hset : JsMap.set (Room.players room) (user_sub socket) fresh
                 = Room.players room ++ [(user_sub socket, fresh)])
    by (apply set_absent, Hnew).
  assert (Hres : res = finish (<[roomId := room']> st)
                         [SocketJoin (socket_id socket) roomId;
                          Emit (To roomId) (ROOM_STATE (roomState room'))]).
  { subst res. unfold joinRoomHandler. rewrite Hroom.
    apply Nat.leb_gt in Hfree. rewrite Hfree.
    unfold put_player. fold fresh. rewrite Hset. fold room'.
    rewrite (emitRoomState_found _ roomId room') by apply lookup_insert_eq.
    reflexivity. }
  rewrite Hres. simpl.
  split; [reflexivity|]. split; [reflexivity|]. split; [reflexivity|].
  split. { unfold JsMap.size. rewrite length_app. simpl. lia. }
  split. { rewrite <- Hset. apply get_set_same. }
  split. { intros u Hu. rewrite <- Hset. apply get_set_other. congruence. }
  split. { intros Hwf. rewrite <- Hset. apply set_wf, Hwf. }
  unfold JsMap.values. rewrite map_app, map_app. simpl.
  rewrite last_snoc. unfold publicPlayer, fresh, fresh_player. simpl.
  unfold display_name, Js.truthy.
  destruct name as [n|]; [destruct (String.eqb n "")|]; reflexivity.
Qed.

Lemma join_appends_new_player_witness :
  player_in (round_store bob_waiting) "r1" "u5" = None /\
  player_in
    (after (joinRoomHandler table_rules (round_store bob_waiting)
              eve_socket "r1" (Some "")))
    "r1" "u5"
  = Some (mk_player "u5" "Player-u5" "s5" Board.empty [] [] false).
Proof.
  split; [reflexivity|].
  pose proof (join_appends_new_player table_rules (round_store bob_waiting)
                eve_socket "r1" (Some "") (round_room bob_waiting))
    as H.
  destruct H as (Hafter & _ & _ & _ & Hget & _);
    [reflexivity | reflexivity | simpl; lia |].
  unfold player_in. rewrite Hafter, lookup_insert_eq. exact Hget.
Defined.

(** X2. Joining and leaving undo each other: when a caller who is not a
    player joins a room that has players and room left, and then leaves,
    the registry is what it was before the join; when the room had no
    player, the leave finds it empty and deletes it. *)
Theorem join_then_leave_restores (R : Rules.t) (st : Store)
  (socket : Socket) (roomId : string) (name : option string)
  (room : Room.t) :
  st !! roomId = Some room ->
  JsMap.get (Room.players room) (user_sub socket) = None ->
  JsMap.size (Room.players room) < Rules.players_max R ->
  let joined := after (joinRoomHandler R st socket roomId name) in
  after (leaveRoomHandler joined socket roomId)
  = if Nat.eqb (JsMap.size (Room.players room)) 0
    then delete roomId st
    else st.
Proof.
  intros Hroom Hnew Hfree joined. subst joined.
  unfold joinRoomHandler. rewrite Hroom.
  apply Nat.leb_gt in Hfree. rewrite Hfree. cbn [after finish].
  unfold leaveRoomHandler, put_player. rewrite lookup_insert_eq.
  cbv zeta. cbn [Room.players Room.set_players].
  rewrite (remove_set_absent _ _ _ Hnew).
  change (Room.set_players _ (Room.players room))
    with (Room.set_players room (Room.players room)).
  rewrite set_players_id.
  destruct (Nat.eqb (JsMap.size (Room.players room)) 0); cbn [after finish].
  - rewrite !delete_insert_eq. reflexivity.
  - rewrite insert_insert_eq. apply insert_id, Hroom.
Qed.

Lemma join_then_leave_restores_witness :
  after (leaveRoomHandler
           (after (joinRoomHandler table_rules (round_store bob_waiting)
                     eve_socket "r1" None))
           eve_socket "r1")
  = round_store bob_waiting /\
  after (leaveRoomHandler
           (after (joinRoomHandler table_rules (<["r1" := empty_room]> ∅)
                     eve_socket "r1" None))
           eve_socket "r1")
  = delete "r1" (<["r1" := empty_room]> ∅).
Proof.
  split.
  - apply (join_then_leave_restores table_rules (round_store bob_waiting)
             eve_socket "r1" None (round_room bob_waiting));
      [reflexivity | reflexivity | simpl; lia].
  - apply (join_then_leave_restores table_rules (<["r1" := empty_room]> ∅)
             eve_socket "r1" None empty_room);
      [reflexivity | reflexivity | simpl; lia].
Defined.

(** X3. When a player leaves: if the player was the only one, the room is
    deleted from the registry and nothing is broadcast; otherwise the
    player's entry is cut out of the room, the other players keep their
    entries and their order, the room counts one player fewer, and the new
    room state is broadcast.  The leaver's cards leave with the entry: the
    deck is not touched. *)
Theorem leave_removes_caller (st : Store) (socket : Socket)
  (roomId : string) (room : Room.t) (p : Player.t) :
  st !! roomId = Some room ->
  JsMap.wf (Room.players room) ->
  JsMap.get (Room.players room) (user_sub socket) = Some p ->
  let res := leaveRoomHandler st socket roomId in
  completion res = Returned tt /\
  (JsMap.size (Room.players room) = 1 ->
   after res = delete roomId st /\
   emitted res = [SocketLeave (socket_id socket) roomId]) /\
  (JsMap.size (Room.players room) <> 1 ->
   exists room' before behind,
     after res = <[roomId := room']> st /\
     Room.players room = before ++ (user_sub socket, p) :: behind /\
     Room.players room' = before ++ behind /\
     JsMap.get (Room.players room') (user_sub socket) = None /\
     (forall u, u <> user_sub socket ->
        JsMap.get (Room.players room') u = JsMap.get (Room.players room) u) /\
     S (JsMap.size (Room.players room')) = JsMap.size (Room.players room) /\
     Room.deck room' = Room.deck room /\
     Room.phase room' = Room.phase room /\
     emitted res = [SocketLeave (socket_id socket) roomId;
                    Emit (To roomId) (ROOM_STATE (roomState room'))]).
Proof.
  intros Hroom Hwf Hp res. subst res. unfold leaveRoomHandler.
  rewrite Hroom. cbv zeta.
  destruct (remove_present _ _ _ Hp) as (before & behind & Hsplit & _ & Hrm).
  assert (Hsize : S (JsMap.size (JsMap.remove (Room.players room)
                                   (user_sub socket)))
                  = JsMap.size (Room.players room)).
  { rewrite Hrm. unfold JsMap.size. rewrite Hsplit, !length_app. simpl. lia. }
  cbn [Room.players Room.set_players].
  destruct (Nat.eqb_spec
              (JsMap.size (JsMap.remove (Room.players room)
                             (user_sub socket))) 0) as [He|Hne];
    cbn [after finish emitted completion].
  - split; [reflexivity|]. split; [|lia].
    intros _. rewrite delete_insert_eq. split; reflexivity.
  - split; [reflexivity|]. split; [lia|].
    intros _. eexists _, before, behind. split; [reflexivity|].
    cbn [Room.players Room.set_players Room.deck Room.phase].
    split; [exact Hsplit|]. split; [exact Hrm|].
    split; [apply get_remove_same, Hwf|].
    split; [intros u Hu; apply get_remove_other; congruence|].
    split; [exact Hsize|]. split; [reflexivity|]. split; [reflexivity|].
    f_equal. apply emitRoomState_found, lookup_insert_eq.
Qed.

Lemma leave_removes_caller_witness :
  after (leaveRoomHandler (<["r1" := solo_room]> ∅) ann_socket "r1")
  = delete "r1" (<["r1" := solo_room]> ∅) /\
  exists room',
    after (leaveRoomHandler (<["r1" := full_room]> ∅) ann_socket "r1")
    = <["r1" := room']> (<["r1" := full_room]> ∅) /\
    Room.players room' = [("u2", bob_waiting); ("u3", cat)].
Proof.
  split.
  - apply (leave_removes_caller (<["r1" := solo_room]> ∅) ann_socket "r1"
             solo_room ann);
      [reflexivity | unfold JsMap.wf; simpl; distinct_strings
       | reflexivity | reflexivity].
  - destruct (leave_removes_caller (<["r1" := full_room]> ∅) ann_socket
                "r1" full_room ann) as (_ & _ & Hmany);
      [reflexivity | | reflexivity |].
    { unfold JsMap.wf. simpl. distinct_strings. }
    destruct Hmany as (room' & before & behind & Hafter & _ & _
                       & _ & _ & _ & _ & _ & _); [simpl; lia|].
    exists room'. split; [exact Hafter|].
    apply (f_equal (fun s => Room.players <$> s !! "r1")) in Hafter.
    rewrite lookup_insert_eq in Hafter. simpl in Hafter.
    injection Hafter as <-. reflexivity.
Defined.

(** ** Calls that name no room or come from no player *)

(** X4. A call that names a room the registry does not hold changes
    nothing: joining and starting answer the caller "Room not found";
    leaving, placing, discarding and readying are dropped without a word.
    In a room that exists, placing, discarding and readying by a caller
    who is not one of its players are dropped the same way, whatever the
    batch.  Leaving is not checked against membership: a non-member's
    leave keeps the room as it is and broadcasts its state, and deletes
    the room when it has no player. *)
Theorem unknown_room_or_player_is_ignored (R : Rules.t)
  (validateBoard : Board.t -> Completion BoardCheck)
  (settlePairwiseDetailed : Board.t -> Board.t -> Completion PairDetail)
  (st : Store) (socket : Socket) (roomId : string)
  (name : option string) (fresh : list Card)
  (placements : option (list Placement)) (discard : option Card)
  (c : Card) :
  (st !! roomId = None ->
   let not_found :=
     finish st [Emit (Caller (socket_id socket)) (ERROR "Room not found")] in
   joinRoomHandler R st socket roomId name = not_found /\
   startRoundHandler R fresh st socket roomId = not_found /\
   leaveRoomHandler st socket roomId = finish st [] /\
   placeHandler R st socket roomId placements = finish st [] /\
   discardHandler st socket roomId c = finish st [] /\
   readyHandler R validateBoard settlePairwiseDetailed st socket roomId
     placements discard = finish st [] /\
   emitRoomState st roomId = []) /\
  (forall room,
   st !! roomId = Some room ->
   JsMap.get (Room.players room) (user_sub socket) = None ->
   placeHandler R st socket roomId placements = finish st [] /\
   discardHandler st socket roomId c = finish st [] /\
   readyHandler R validateBoard settlePairwiseDetailed st socket roomId
     placements discard = finish st [] /\
   leaveRoomHandler st socket roomId
   = if Nat.eqb (JsMap.size (Room.players room)) 0
     then finish (delete roomId st) [SocketLeave (socket_id socket) roomId]
     else finish st [SocketLeave (socket_id socket) roomId;
                     Emit (To roomId) (ROOM_STATE (roomState room))]).
Proof.
  split.
  - intros Hnone not_found. subst not_found.
    unfold joinRoomHandler, startRoundHandler, leaveRoomHandler,
      placeHandler, discardHandler, readyHandler, emitRoomState.
    rewrite Hnone. repeat split; reflexivity.
  - intros room Hroom Hnot.
    unfold placeHandler, discardHandler, readyHandler, leaveRoomHandler.
    rewrite Hroom, Hnot. do 3 (split; [reflexivity|]).
    cbv zeta. rewrite (remove_absent _ _ Hnot), set_players_id.
    rewrite (insert_id st roomId room Hroom).
    destruct (Nat.eqb (JsMap.size (Room.players room)) 0);
      [reflexivity|].
    rewrite (emitRoomState_found st roomId room Hroom). reflexivity.
Qed.

Lemma unknown_room_or_player_is_ignored_witness :
  readyHandler table_rules clean_board draw (round_store bob_waiting)
    ann_socket "nowhere" (Some ann_batch) (Some "7C")
  = finish (round_store bob_waiting) [] /\
  readyHandler table_rules clean_board draw (round_store bob_waiting)
    eve_socket "r1" (Some ann_batch) (Some "7C")
  = finish (round_store bob_waiting) [] /\
  after (leaveRoomHandler (<["r1" := empty_room]> ∅) eve_socket "r1")
  = delete "r1" (<["r1" := empty_room]> ∅).
Proof.
  pose proof (unknown_room_or_player_is_ignored table_rules clean_board
                draw (round_store bob_waiting) ann_socket "nowhere" None []
                (Some ann_batch) (Some "7C") "7C") as [Hroom _].
  pose proof (unknown_room_or_player_is_ignored table_rules clean_board
                draw (round_store bob_waiting) eve_socket "r1" None []
                (Some ann_batch) (Some "7C") "7C") as [_ Hplayer].
  pose proof (unknown_room_or_player_is_ignored table_rules clean_board
                draw (<["r1" := empty_room]> ∅) eve_socket "r1" None []
                None None "7C") as [_ Hleave].
  split; [apply Hroom; reflexivity|].
  split; [apply (Hplayer (round_room bob_waiting)); reflexivity|].
  destruct (Hleave empty_room) as (_ & _ & _ & ->); reflexivity.
Defined.

(** ** Cards through the legacy handlers *)

(** One turn of the legacy loop: a placement that is made or refused
    keeps the player's cards; one that throws has already taken its card
    out of the hand, and the card is in no row. *)
Lemma placeOne_cards (R : Rules.t) (p : Player.t) (pl : Placement)
  (p' : Player.t) (exit : LoopExit) :
  placeOne R p pl = (p', exit) ->
  Player.discards p' = Player.discards p /\
  Player.ready p' = Player.ready p /\
  match exit with
  | Next => Player.all_cards p' ≡ₚ Player.all_cards p
  | ReturnError _ _ => p' = p
  | Throws e =>
      e = place_push_TypeError /\
      (forall r, board_index (row pl) <> RowArray r) /\
      card pl :: Player.all_cards p' ≡ₚ Player.all_cards p
  end.
Proof.
  unfold placeOne.
  destruct (Z.eqb_spec (Js.indexOf (Player.hand p) (card pl)) (-1))
    as [He|He].
  { intros [= <- <-]. auto. }
  pose proof (splice1_found _ _ He) as Hperm.
  set (h' := Js.splice1 _ _) in *. clearbody h'.
  destruct (board_index (row pl)) as [r|len|] eqn:Hrow.
  - destruct (length_ge _ _ _); intros [= <- <-]; [auto|].
    simpl. split; [reflexivity|]. split; [reflexivity|].
    unfold Player.all_cards. simpl.
    rewrite push_cards, Hperm. simpl.
    rewrite <- Permutation_middle. reflexivity.
  - destruct (length_ge _ _ _); intros [= <- <-]; [auto|].
    simpl. split; [reflexivity|]. split; [reflexivity|].
    split; [reflexivity|]. split; [discriminate|].
    unfold Player.all_cards. simpl. rewrite Hperm. reflexivity.
  - intros [= <- <-]. auto.
Qed.

Lemma placeLoop_cards (R : Rules.t) (ps : list Placement) :
  forall (p p' : Player.t) (exit : LoopExit),
  placeLoop R p ps = (p', exit) ->
  Player.discards p' = Player.discards p /\
  Player.ready p' = Player.ready p /\
  match exit with
  | Throws e =>
      e = place_push_TypeError /\
      exists lost, lost :: Player.all_cards p' ≡ₚ Player.all_cards p
  | _ => Player.all_cards p' ≡ₚ Player.all_cards p
  end.
Proof.
  induction ps as [|pl ps IH]; intros p p' exit H; simpl in H.
  - injection H as <- <-. auto.
  - destruct (placeOne R p pl) as [p1 ex1] eqn:Hone.
    apply placeOne_cards in Hone as (Hd & Hr & Hc).
    destruct ex1 as [|why msg|e].
    + apply IH in H as (Hd' & Hr' & Hc').
      split; [congruence|]. split; [congruence|].
      destruct exit as [|w m|e]; try (rewrite Hc', Hc; reflexivity).
      destruct Hc' as (-> & lost & Hlost). split; [reflexivity|].
      exists lost. rewrite Hlost, Hc. reflexivity.
    + injection H as <- <-. subst p1. auto.
    + injection H as <- <-. destruct Hc as (-> & _ & Hlost).
      split; [exact Hd|]. split; [exact Hr|]. split; [reflexivity|].
      exists (card pl). exact Hlost.
Qed.

Lemma card_count_all_cards (p : Player.t) :
  Player.card_count p = length (Player.all_cards p).
Proof.
  unfold Player.card_count, Player.all_cards, Board.total, Board.cards.
  rewrite !length_app. lia.
Qed.

(** [a.splice(a.indexOf(x), 1)] cuts the first copy of [x] out of [a] and
    keeps the order of the rest. *)
Lemma splice1_first (l : list string) (x : string) :
  x ∈ l ->
  exists pre post,
    l = pre ++ x :: post /\ (x ∉ pre) /\
    Js.splice1 l (Js.indexOf l x) = pre ++ post.
Proof.
  unfold Js.splice1.
  induction l as [|y l IH]; intros Hin.
  - apply elem_of_nil in Hin. contradiction.
  - simpl. destruct (String.eqb_spec y x) as [->|Hne].
    + exists [], l. split; [reflexivity|].
      split; [apply not_elem_of_nil | reflexivity].
    + apply elem_of_cons in Hin as [->|Hin]; [congruence|].
      destruct (IH Hin) as (pre & post & Hl & Hpre & Hcut).
      assert (He : Js.indexOf l x <> (-1)%Z)
        by (intros He; apply indexOf_absent in He; contradiction).
      destruct (Z.eqb_spec (Js.indexOf l x) (-1)) as [|_]; [contradiction|].
      pose proof (indexOf_range l x).
      replace (Z.to_nat (Js.indexOf l x + 1))
        with (S (Z.to_nat (Js.indexOf l x))) by lia.
      exists (y :: pre), post. simpl. rewrite Hcut.
      split; [rewrite Hl at 1; reflexivity|].
      split; [|reflexivity].
      intros Hbad. apply elem_of_cons in Hbad as [->|Hbad];
        [congruence | contradiction].
Qed.

(** X5. The legacy [discardHandler] cuts the first copy of a card the
    player holds out of the hand, the other cards keeping their order,
    puts it at the end of the discards, and broadcasts the new state of
    the room, and nothing else; board, ready flag and card count stay.
    A card that is not in the hand is answered with "Card not in your
    hand" and changes nothing.  Neither the phase nor the number of
    discards already made is looked at. *)
Theorem legacy_discard_moves_one_card (st : Store) (socket : Socket)
  (roomId : string) (room : Room.t) (p : Player.t) (c : Card) :
  st !! roomId = Some room ->
  JsMap.get (Room.players room) (user_sub socket) = Some p ->
  let res := discardHandler st socket roomId c in
  (c ∈ Player.hand p ->
   exists pre post p',
     Player.hand p = pre ++ c :: post /\ (c ∉ pre) /\
     p' = Player.set_discards (Player.set_hand p (pre ++ post))
            (Player.discards p ++ [c]) /\
     Player.board p' = Player.board p /\
     Player.ready p' = Player.ready p /\
     Player.card_count p' = Player.card_count p /\
     after res = put_player st roomId room (user_sub socket) p' /\
     player_in (after res) roomId (user_sub socket) = Some p' /\
     emitted res
     = [Emit (To roomId)
          (ROOM_STATE
             (roomState
                (Room.set_players room
                   (JsMap.set (Room.players room) (user_sub socket) p'))))] /\
     completion res = Returned tt) /\
  (c ∉ Player.hand p ->
   res = finish st [Emit (Caller (socket_id socket))
                      (ERROR "Card not in your hand")]).
Proof.
  intros Hroom Hp res. subst res. unfold discardHandler.
  rewrite Hroom, Hp. cbv zeta. split.
  - intros Hin.
    destruct (Z.eqb_spec (Js.indexOf (Player.hand p) c) (-1)) as [He|He].
    { apply indexOf_absent in He. contradiction. }
    destruct (splice1_first _ _ Hin) as (pre & post & Hhand & Hpre & Hcut).
    rewrite Hcut.
    exists pre, post. eexists. cbn [after finish emitted completion].
    split; [exact Hhand|]. split; [exact Hpre|]. split; [reflexivity|].
    simpl. split; [reflexivity|]. split; [reflexivity|].
    split.
    { unfold Player.card_count. simpl. rewrite Hhand, !length_app. simpl.
      lia. }
    split; [reflexivity|]. split; [apply player_in_put_same|].
    split; [|reflexivity].
    unfold put_player.
    apply (emitRoomState_found _ roomId _ (lookup_insert_eq _ _ _)).
  - intros Hnot. apply indexOf_absent in Hnot. rewrite Hnot. reflexivity.
Qed.

Lemma legacy_discard_moves_one_card_witness :
  (exists pre post p',
     Player.hand (Player.set_hand ann ["AS"; "KD"; "7C"; "KD"])
     = pre ++ "KD" :: post /\
     Player.hand p' = ["AS"; "7C"; "KD"] /\
     Player.discards p' = ["KD"] /\
     player_in
       (after (discardHandler
                 (put_player (round_store bob_waiting) "r1"
                    (round_room bob_waiting) "u1"
                    (Player.set_hand ann ["AS"; "KD"; "7C"; "KD"]))
                 ann_socket "r1" "KD"))
       "r1" "u1" = Some p') /\
  discardHandler (round_store bob_waiting) ann_socket "r1" "QC"
  = finish (round_store bob_waiting)
      [Emit (Caller "s1") (ERROR "Card not in your hand")].
Proof.
  split.
  - destruct (legacy_discard_moves_one_card
                (put_player (round_store bob_waiting) "r1"
                   (round_room bob_waiting) "u1"
                   (Player.set_hand ann ["AS"; "KD"; "7C"; "KD"]))
                ann_socket "r1"
                (Room.set_players (round_room bob_waiting)
                   (JsMap.set (Room.players (round_room bob_waiting)) "u1"
                      (Player.set_hand ann ["AS"; "KD"; "7C"; "KD"])))
                (Player.set_hand ann ["AS"; "KD"; "7C"; "KD"]) "KD")
      as [Hmove _]; [reflexivity..|].
    destruct Hmove as (pre & post & p' & Hhand & Hpre & Hp' & _ & _ & _ & _
                       & Hin & _).
    { simpl. rewrite !elem_of_cons. auto. }
    exists pre, post, p'. split; [exact Hhand|].
    assert (Hcut : pre = ["AS"] /\ post = ["7C"; "KD"]).
    { simpl in Hhand.
      destruct pre as [|a [|b pre]]; simpl in Hhand.
      - discriminate.
      - injection Hhand as <- <-. auto.
      - injection Hhand as <- <- Hrest.
        exfalso. apply Hpre. rewrite !elem_of_cons. auto. }
    destruct Hcut as [-> ->]. subst p'. auto.
  - apply (legacy_discard_moves_one_card (round_store bob_waiting) ann_socket
             "r1" (round_room bob_waiting) ann "QC");
      [reflexivity | reflexivity |].
    simpl. rewrite !elem_of_cons, elem_of_nil. intuition discriminate.
Defined.

(** X6. Whenever the legacy [placeHandler] returns, with the room state
    or with an error, the player holds the cards held before, rearranged
    between hand and rows: the discards and the ready flag are untouched,
    and the card count is the same.  Without an error every placement
    was made: the board has gained, and the hand lost, as many cards as
    there were placements. *)
Theorem legacy_place_conserves_cards (R : Rules.t) (st : Store)
  (socket : Socket) (roomId : string) (room : Room.t) (p : Player.t)
  (placements : option (list Placement)) :
  st !! roomId = Some room ->
  JsMap.get (Room.players room) (user_sub socket) = Some p ->
  let res := placeHandler R st socket roomId placements in
  completion res = Returned tt ->
  exists p',
    player_in (after res) roomId (user_sub socket) = Some p' /\
    Player.all_cards p' ≡ₚ Player.all_cards p /\
    Player.card_count p' = Player.card_count p /\
    Player.discards p' = Player.discards p /\
    Player.ready p' = Player.ready p /\
    (errors (emitted res) = [] ->
     Board.total (Player.board p')
     = Board.total (Player.board p) + placement_count placements /\
     length (Player.hand p)
     = length (Player.hand p') + placement_count placements).
Proof.
  intros Hroom Hp res. subst res. unfold placeHandler.
  rewrite Hroom, Hp.
  assert (Hk : length (default [] placements) = placement_count placements)
    by (destruct placements; reflexivity).
  destruct (placeLoop R p (default [] placements)) as [p' exit] eqn:Hloop.
  pose proof (placeLoop_cards R _ _ _ _ Hloop) as (Hd & Hr & Hc).
  destruct exit as [|why msg|e]; cbn [after finish emitted completion];
    [| |discriminate]; intros _; exists p';
    (split; [apply player_in_put_same|]);
    (split; [exact Hc|]);
    (split; [rewrite !card_count_all_cards;
             apply Permutation_length, Hc|]);
    (split; [exact Hd|]); (split; [exact Hr|]).
  - intros _. rewrite <- Hk.
    destruct (placeLoop_counts R _ _ _ Hloop). auto.
  - discriminate.
Qed.

Lemma legacy_place_conserves_cards_witness :
  exists p',
    player_in
      (after (placeHandler table_rules (round_store bob_waiting)
                ann_socket "r1" (Some ann_batch)))
      "r1" "u1" = Some p' /\
    Player.card_count p' = Player.card_count ann /\
    Player.hand p' = ["7C"].
Proof.
  destruct (legacy_place_conserves_cards table_rules
              (round_store bob_waiting) ann_socket "r1"
              (round_room bob_waiting) ann (Some ann_batch))
    as (p' & Hin & _ & Hcount & _); [reflexivity..|].
  exists p'. split; [exact Hin|]. split; [exact Hcount|].
  vm_compute in Hin. injection Hin as <-. reflexivity.
Defined.

(** ** Row names inherited from [Object.prototype] *)

(** A row name that [Object.prototype] defines is none of the three rows:
    [board[row]] is the inherited member, and the limit compared with its
    [length] is [layout.bottom]. *)
Lemma inherited_board_index (R : Rules.t) (row : string)
  (len : option nat) :
  Js.object_prototype row = Some len ->
  board_index row = ProtoMember len /\
  row_limit R row = Rules.layout_bottom R.
Proof.
  intros H. unfold board_index, row_limit.
  destruct (String.eqb_spec row "top") as [->|_]; [discriminate|].
  destruct (String.eqb_spec row "middle") as [->|_]; [discriminate|].
  destruct (String.eqb_spec row "bottom") as [->|_]; [discriminate|].
  rewrite H. auto.
Qed.

(** X7. In the legacy [placeHandler], a placement that names a card of
    the hand and a row name inherited from [Object.prototype] (such as
    "constructor") whose [length], if it has one, is below
    [layout.bottom], throws the TypeError of [p.board[row].push], after
    the placements before it were made.  The card of that placement has
    then been taken out of the hand and put on no row: the player keeps
    the earlier placements and is left with one card fewer, and nothing
    is emitted. *)
Theorem legacy_place_throw_loses_a_card (R : Rules.t) (st : Store)
  (socket : Socket) (roomId : string) (room : Room.t) (p pk : Player.t)
  (pre : list Placement) (bad : Placement) (post : list Placement)
  (len : option nat) :
  st !! roomId = Some room ->
  JsMap.get (Room.players room) (user_sub socket) = Some p ->
  placeLoop R p pre = (pk, Next) ->
  card bad ∈ Player.hand pk ->
  Js.object_prototype (row bad) = Some len ->
  (forall n, len = Some n -> n < Rules.layout_bottom R) ->
  let res := placeHandler R st socket roomId (Some (pre ++ bad :: post)) in
  let lost :=
    Player.set_hand pk
      (Js.splice1 (Player.hand pk)
         (Js.indexOf (Player.hand pk) (card bad))) in
  completion res = Threw place_push_TypeError /\
  emitted res = [] /\
  after res = put_player st roomId room (user_sub socket) lost /\
  player_in (after res) roomId (user_sub socket) = Some lost /\
  card bad :: Player.all_cards lost ≡ₚ Player.all_cards p /\
  S (Player.card_count lost) = Player.card_count p /\
  Board.total (Player.board lost)
  = Board.total (Player.board p) + length pre.
Proof.
  intros Hroom Hp Hpre Hin Hrow Hlen res lost.
  destruct (inherited_board_index R _ _ Hrow) as [Hidx Hlim].
  assert (Hbad : placeOne R pk bad = (lost, Throws place_push_TypeError)).
  { unfold placeOne.
    destruct (Z.eqb_spec (Js.indexOf (Player.hand pk) (card bad)) (-1))
      as [He|He].
    { apply indexOf_absent in He. contradiction. }
    rewrite Hidx, Hlim. unfold length_ge. simpl.
    destruct len as [n|]; [|reflexivity].
    specialize (Hlen n eq_refl).
    destruct (Nat.leb_spec (Rules.layout_bottom R) n); [lia|reflexivity]. }
  assert (Hloop : placeLoop R p (pre ++ bad :: post)
                  = (lost, Throws place_push_TypeError)).
  { rewrite placeLoop_app, Hpre. simpl. rewrite Hbad. reflexivity. }
  assert (Hres : res = {| after := put_player st roomId room
                                     (user_sub socket) lost;
                          emitted := [];
                          completion := Threw place_push_TypeError |}).
  { subst res. unfold placeHandler. rewrite Hroom, Hp. simpl default.
    rewrite Hloop. reflexivity. }
  rewrite Hres. simpl.
  split; [reflexivity|]. split; [reflexivity|]. split; [reflexivity|].
  split; [apply player_in_put_same|].
  pose proof (placeLoop_cards R _ _ _ _ Hpre) as (_ & _ & Hpk).
  pose proof (placeOne_cards R _ _ _ _ Hbad) as (_ & _ & _ & _ & Hlost).
  destruct (placeLoop_counts R _ _ _ Hpre) as [_ Hboard].
  assert (Hall : card bad :: Player.all_cards lost ≡ₚ Player.all_cards p)
    by (rewrite Hlost; exact Hpk).
  split; [exact Hall|]. split.
  - rewrite !card_count_all_cards.
    apply Permutation_length in Hall. exact Hall.
  - exact Hboard.
Qed.

Lemma legacy_place_throw_loses_a_card_witness :
  completion (placeHandler table_rules (round_store bob_waiting)
                ann_socket "r1"
                (Some ([place "top" "AS"] ++ place "constructor" "KD"
                       :: [place "middle" "7C"])))
  = Threw (TypeError "p.board[row].push is not a function") /\
  player_in
    (after (placeHandler table_rules (round_store bob_waiting)
              ann_socket "r1"
              (Some ([place "top" "AS"] ++ place "constructor" "KD"
                     :: [place "middle" "7C"]))))
    "r1" "u1"
  = Some (mk_player "u1" "Ann" "s1"
            {| Board.top := ["2H"; "AS"]; Board.middle := ["9S"; "9D"];
               Board.bottom := ["QC"; "QD"] |}
            ["7C"] [] false).
Proof.
  destruct (legacy_place_throw_loses_a_card table_rules
              (round_store bob_waiting) ann_socket "r1"
              (round_room bob_waiting) ann
              (Player.set_board (Player.set_hand ann ["KD"; "7C"])
                 (Board.push (Player.board ann) Top "AS"))
              [place "top" "AS"] (place "constructor" "KD")
              [place "middle" "7C"] (Some 1))
    as (Hc & _ & _ & Hin & _); [reflexivity..| | | |].
  - simpl. rewrite !elem_of_cons. auto.
  - reflexivity.
  - intros n [= <-]. simpl. lia.
  - split; [exact Hc | exact Hin].
Defined.

(** X8. Whenever [applyBatch] throws, as it does at the push on a row
    name inherited from [Object.prototype], the player object is as it
    was, and the [readyHandler] call that made it leaves the registry
    unchanged, emits nothing, not even an error to the caller, and ends
    by that exception: the ready flag is not set and no transition is
    made. *)
Theorem thrown_batch_is_atomic (R : Rules.t)
  (validateBoard : Board.t -> Completion BoardCheck)
  (settlePairwiseDetailed : Board.t -> Board.t -> Completion PairDetail)
  (st : Store) (socket : Socket) (roomId : string) (room : Room.t)
  (p : Player.t) (placements : option (list Placement))
  (discard : option Card) (e : Exn) :
  st !! roomId = Some room ->
  JsMap.get (Room.players room) (user_sub socket) = Some p ->
  snd (applyBatch R room p placements discard) = Threw e ->
  let res := readyHandler R validateBoard settlePairwiseDetailed
               st socket roomId placements discard in
  fst (applyBatch R room p placements discard) = p /\
  after res = st /\
  player_in (after res) roomId (user_sub socket) = Some p /\
  emitted res = [] /\
  completion res = Threw e.
Proof.
  intros Hroom Hp Hthrow res.
  assert (Hsame : fst (applyBatch R room p placements discard) = p).
  { apply applyBatch_not_success. rewrite Hthrow. discriminate. }
  split; [exact Hsame|].
  subst res. unfold readyHandler. rewrite Hroom, Hp.
  destruct (applyBatch R room p placements discard) as [q ok].
  simpl in Hthrow, Hsame. subst q ok.
  rewrite (put_player_id st roomId room _ p Hroom Hp).
  cbn [after emitted completion].
  split; [reflexivity|]. split; [|auto].
  unfold player_in. rewrite Hroom. exact Hp.
Qed.

Lemma thrown_batch_is_atomic_witness :
  snd (applyBatch table_rules initial_room ann_initial
         (Some [place "bottom" "KD"; place "toString" "AS"]) None)
  = Threw (TypeError "board[row].push is not a function") /\
  after (readyHandler table_rules clean_board draw
           (<["r1" := initial_room]> ∅) ann_socket "r1"
           (Some [place "bottom" "KD"; place "toString" "AS"]) None)
  = <["r1" := initial_room]> ∅.
Proof.
  split; [reflexivity|].
  apply (thrown_batch_is_atomic table_rules clean_board draw
           (<["r1" := initial_room]> ∅) ann_socket "r1" initial_room
           ann_initial (Some [place "bottom" "KD"; place "toString" "AS"])
           None push_TypeError); reflexivity.
Defined.

(** ** The batch and the legacy loop *)

Lemma player_eta (p : Player.t) :
  Player.set_board (Player.set_hand p (Player.hand p)) (Player.board p) = p.
Proof. destruct p; reflexivity. Qed.

(** The loop of [applyBatch] on the copies is the legacy loop on the
    object: same placements made, same refusal, and an exception where
    the other has one. *)
Lemma placeLoop_refines (R : Rules.t) (ps : list Placement) :
  forall p : Player.t,
  match placeLoop R p ps with
  | (p', Next) =>
      validatePlacements R (Player.hand p) (Player.board p) ps
      = Continue (Player.hand p') (Player.board p') /\
      p' = Player.set_board (Player.set_hand p (Player.hand p'))
             (Player.board p')
  | (_, ReturnError why _) =>
      exists msg,
        validatePlacements R (Player.hand p) (Player.board p) ps
        = Reject why msg
  | (_, Throws e) =>
      e = place_push_TypeError /\
      validatePlacements R (Player.hand p) (Player.board p) ps
      = Raise push_TypeError
  end.
Proof.
  induction ps as [|pl ps IH]; intros p; simpl.
  - split; [reflexivity | symmetry; apply player_eta].
  - pose proof (placeOne_validatePlacement R p pl) as Hrel.
    destruct (validatePlacement R (Player.hand p) (Player.board p) pl)
      as [h1 b1|w m|e].
    + rewrite Hrel.
      specialize (IH (Player.set_board (Player.set_hand p h1) b1)).
      cbn [Player.hand Player.board Player.set_board Player.set_hand] in IH.
      destruct (placeLoop R _ ps) as [p' [|w m|e]]; [|exact IH..].
      destruct IH as [Hv Hp]. split; [exact Hv|].
      rewrite Hp at 1. reflexivity.
    + destruct Hrel as [m' ->]. eauto.
    + destruct Hrel as (-> & p1 & ->). auto.
Qed.

Lemma initial_batch_success_iff_legacy (R : Rules.t) (room : Room.t)
  (p p' : Player.t) (ps : list Placement) :
  Room.phase room = InitialSet ->
  applyBatch R room p (Some ps) None = (p', Returned Success) <->
  placeLoop R p ps = (p', Next).
Proof.
  intros Hph. apply phase_eqb_eq in Hph.
  pose proof (placeLoop_refines R ps p) as Href.
  unfold applyBatch, phase_check; cbv zeta. rewrite Hph. simpl.
  destruct (placeLoop R p ps) as [q [|w m|e]].
  - destruct Href as [-> Hq]. unfold commit. simpl.
    rewrite <- Hq. split; intros [= ->]; reflexivity.
  - destruct Href as [m' ->]. split; discriminate.
  - destruct Href as [_ ->]. split; discriminate.
Qed.

(** X9. During the initial set, a batch without a discard is the legacy
    placement loop made atomic: where the legacy loop makes every
    placement, [applyBatch] succeeds and leaves the very same player;
    where the legacy loop stops at an error, [applyBatch] fails with the
    same reason and leaves the player as before the call; where the
    legacy loop throws the TypeError of [p.board[row].push],
    [applyBatch] throws the TypeError of its own [board[row].push] and
    leaves the player as before the call. *)
Theorem batch_is_legacy_loop_made_atomic (R : Rules.t) (room : Room.t)
  (p : Player.t) (ps : list Placement) :
  Room.phase room = InitialSet ->
  match placeLoop R p ps with
  | (p', Next) => applyBatch R room p (Some ps) None = (p', Returned Success)
  | (_, ReturnError why _) =>
      exists msg,
        applyBatch R room p (Some ps) None
        = (p, Returned (Failure why msg))
  | (_, Throws e) =>
      e = place_push_TypeError /\
      applyBatch R room p (Some ps) None = (p, Threw push_TypeError)
  end.
Proof.
  intros Hph. apply phase_eqb_eq in Hph.
  pose proof (placeLoop_refines R ps p) as Href.
  unfold applyBatch, phase_check; cbv zeta. rewrite Hph. simpl.
  destruct (placeLoop R p ps) as [q [|w m|e]].
  - destruct Href as [-> Hq]. unfold commit. simpl.
    rewrite <- Hq. reflexivity.
  - destruct Href as [m' ->]. eauto.
  - destruct Href as [-> ->]. auto.
Qed.

Lemma batch_is_legacy_loop_made_atomic_witness :
  applyBatch table_rules initial_room ann_initial
    (Some five_placements) None
  = (fst (placeLoop table_rules ann_initial five_placements),
     Returned Success) /\
  (exists msg,
     applyBatch table_rules initial_room ann_initial
       (Some [place "top" "AS"; place "attic" "KD"]) None
     = (ann_initial, Returned (Failure InvalidRow msg))) /\
  snd (placeLoop table_rules ann_initial
         [place "top" "AS"; place "valueOf" "KD"])
  = Throws (TypeError "p.board[row].push is not a function") /\
  applyBatch table_rules initial_room ann_initial
    (Some [place "top" "AS"; place "valueOf" "KD"]) None
  = (ann_initial, Threw (TypeError "board[row].push is not a function")).
Proof.
  split; [|split; [|split; [reflexivity|]]].
  - apply (batch_is_legacy_loop_made_atomic table_rules initial_room
             ann_initial five_placements). reflexivity.
  - apply (batch_is_legacy_loop_made_atomic table_rules initial_room
             ann_initial [place "top" "AS"; place "attic" "KD"]).
    reflexivity.
  - apply (batch_is_legacy_loop_made_atomic table_rules initial_room
             ann_initial [place "top" "AS"; place "valueOf" "KD"]).
    reflexivity.
Defined.

(** X10. During the initial set, batches without a discard compose: the
    placements [a ++ b] are accepted in one batch exactly when [a] is
    accepted and then [b] is accepted by the player [a] has left, and the
    player reached is the same either way. *)
Theorem initial_set_batches_compose (R : Rules.t) (room : Room.t)
  (p p'' : Player.t) (a b : list Placement) :
  Room.phase room = InitialSet ->
  applyBatch R room p (Some (a ++ b)) None = (p'', Returned Success) <->
  exists p',
    applyBatch R room p (Some a) None = (p', Returned Success) /\
    applyBatch R room p' (Some b) None = (p'', Returned Success).
Proof.
  intros Hph.
  rewrite (initial_batch_success_iff_legacy R room p p'' (a ++ b) Hph).
  rewrite placeLoop_app. split.
  - destruct (placeLoop R p a) as [p' [|w m|e]] eqn:Ha; try discriminate.
    intros Hb. exists p'. split.
    + apply (initial_batch_success_iff_legacy R room p p' a Hph), Ha.
    + apply (initial_batch_success_iff_legacy R room p' p'' b Hph), Hb.
  - intros (p' & Ha & Hb).
    apply (initial_batch_success_iff_legacy R room p p' a Hph) in Ha.
    apply (initial_batch_success_iff_legacy R room p' p'' b Hph) in Hb.
    rewrite Ha. exact Hb.
Qed.

Lemma initial_set_batches_compose_witness :
  exists p',
    applyBatch table_rules initial_room ann_initial
      (Some (take 2 five_placements)) None = (p', Returned Success) /\
    applyBatch table_rules initial_room p'
      (Some (drop 2 five_placements)) None
    = applyBatch table_rules initial_room ann_initial
        (Some five_placements) None.
Proof.
  destruct (proj1 (initial_set_batches_compose table_rules initial_room
                     ann_initial
                     (fst (applyBatch table_rules initial_room ann_initial
                             (Some five_placements) None))
                     (take 2 five_placements) (drop 2 five_placements)
                     eq_refl))
    as (p' & Ha & Hb); [reflexivity|].
  exists p'. split; [exact Ha|]. rewrite Hb. reflexivity.
Defined.

(** ** What the barrier and the dealer leave alone *)

Lemma deal_each_frame (n : nat) (ps : list (string * Player.t)) :
  forall deck : list Card,
  let dealt := deal_each n deck ps in
  JsMap.keys (fst dealt) = JsMap.keys ps /\
  map seat (JsMap.values (fst dealt)) = map seat (JsMap.values ps) /\
  length (snd dealt)
  + sum_list (map Player.card_count (JsMap.values (fst dealt)))
  = length deck + sum_list (map Player.card_count (JsMap.values ps)).
Proof.
  unfold JsMap.keys, JsMap.values.
  induction ps as [|[k p] ps IH]; intros deck; simpl; [auto|].
  destruct (IH (drop n deck)) as (Hk & Hs & Hc).
  split; [rewrite Hk; reflexivity|]. split; [rewrite Hs; reflexivity|].
  unfold Player.card_count at 1. simpl. rewrite length_app.
  fold (Player.card_count p).
  pose proof (take_drop n deck) as Hsplit.
  apply (f_equal length) in Hsplit. rewrite length_app in Hsplit.
  unfold Player.card_count in *. lia.
Qed.

Lemma dealToAll_frame (room : Room.t) (n : nat) :
  let room' := fst (dealToAll room n) in
  Room.id room' = Room.id room /\
  Room.phase room' = Room.phase room /\
  Room.round room' = Room.round room /\
  Room.roundIndex room' = Room.roundIndex room /\
  JsMap.keys (Room.players room') = JsMap.keys (Room.players room) /\
  map seat (JsMap.values (Room.players room'))
  = map seat (JsMap.values (Room.players room)) /\
  room_card_count room' = room_card_count room.
Proof.
  unfold dealToAll.
  destruct (Nat.ltb _ _); simpl; [repeat split; reflexivity|].
  destruct (deal_each_frame n (Room.players room) (Room.deck room))
    as (Hk & Hs & Hc).
  do 4 (split; [reflexivity|]). split; [exact Hk|]. split; [exact Hs|].
  unfold room_card_count. simpl. exact Hc.
Qed.

Lemma clear_flags_frame (m : list (string * Player.t)) :
  let m' := JsMap.update_all (fun pl => Player.set_ready pl false) m in
  JsMap.keys m' = JsMap.keys m /\
  map seat (JsMap.values m') = map seat (JsMap.values m) /\
  map Player.card_count (JsMap.values m')
  = map Player.card_count (JsMap.values m).
Proof.
  cbv zeta. split; [apply keys_update_all|].
  rewrite values_update_all.
  induction (JsMap.values m) as [|p ps [IH1 IH2]]; simpl; [auto|].
  rewrite IH1, IH2. auto.
Qed.

(** Whatever branch the barrier takes, and however it ends, it writes one
    room back under the id it was called with; the players and their
    order, what each has on the board and in the discards, the room's id
    and its hand counter are those it was given, and no card has entered
    or left the room. *)
Lemma advance_frame (R : Rules.t)
  (validateBoard : Board.t -> Completion BoardCheck)
  (settlePairwiseDetailed : Board.t -> Board.t -> Completion PairDetail)
  (st : Store) (roomId : string) (room1 : Room.t) :
  exists room',
    after (advance R validateBoard settlePairwiseDetailed st roomId room1)
    = <[roomId := room']> st /\
    Room.id room' = Room.id room1 /\
    Room.round room' = Room.round room1 /\
    JsMap.keys (Room.players room') = JsMap.keys (Room.players room1) /\
    map seat (JsMap.values (Room.players room'))
    = map seat (JsMap.values (Room.players room1)) /\
    room_card_count room' = room_card_count room1.
Proof.
  unfold advance. destruct (allReady room1).
  - cbv zeta.
    destruct (clear_flags_frame (Room.players room1)) as (Hk & Hs & Hc).
    set (room2 := Room.set_players room1 _).
    assert (Hcount2 : room_card_count room2 = room_card_count room1).
    { unfold room_card_count, room2. simpl. rewrite Hc. reflexivity. }
    destruct (Nat.ltb _ _).
    + pose proof (dealToAll_frame room2 (Rules.deal_cardsPerRound R))
        as (Hid & _ & Hrd & _ & Hk' & Hs' & Hc').
      destruct (dealToAll room2 (Rules.deal_cardsPerRound R))
        as [room3 [[]|e]]; simpl in *.
      * eexists. split; [reflexivity|]. simpl.
        split; [exact Hid|]. split; [exact Hrd|].
        split; [congruence|]. split; [congruence|].
        unfold room_card_count in *. simpl. congruence.
      * exists room3. split; [reflexivity|].
        split; [exact Hid|]. split; [exact Hrd|].
        split; [congruence|]. split; [congruence|]. congruence.
    + exists (Room.set_phase room2 Reveal). split.
      { destruct (settlement _ _ _); reflexivity. }
      simpl. split; [reflexivity|]. split; [reflexivity|].
      split; [exact Hk|]. split; [exact Hs|]. exact Hcount2.
  - exists room1. simpl. repeat split; reflexivity.
Qed.

(** ** [readyHandler] as a whole *)

Lemma applyBatch_keeps_count (R : Rules.t) (room : Room.t) (p : Player.t)
  (placements : option (list Placement)) (discard : option Card) :
  Player.card_count (fst (applyBatch R room p placements discard))
  = Player.card_count p.
Proof.
  destruct (applyBatch R room p placements discard) as [p' c] eqn:Hb.
  simpl.
  assert (Hcases : c = Returned Success \/ c <> Returned Success).
  { destruct c as [[|w m]|e]; [left; reflexivity | right..]; discriminate. }
  destruct Hcases as [-> | Hno].
  - apply applyBatch_success_inv in Hb as (_ & h1 & b1 & Hloop & Hd).
    apply validatePlacements_moves in Hloop as (Hlen & Htot & _).
    unfold Player.card_count.
    destruct Hd as [[Hnone ->] | (d & Hsome & Hfound & ->)];
      unfold commit; rewrite ?Hnone, ?Hsome; simpl; [lia|].
    pose proof (splice1_length h1 d Hfound). rewrite length_app. simpl. lia.
  - pose proof (applyBatch_not_success R room p placements discard) as H.
    rewrite Hb in H. simpl in H. rewrite H by exact Hno. reflexivity.
Qed.

Lemma values_set_present {V A} (f : V -> A) (m : list (string * V))
  (k : string) (v w : V) :
  JsMap.get m k = Some w -> f v = f w ->
  map f (JsMap.values (JsMap.set m k v)) = map f (JsMap.values m).
Proof.
  unfold JsMap.values. intros Hget Hf.
  induction m as [|[k' v'] m IH]; simpl in *; [discriminate|].
  destruct (String.eqb k' k); simpl.
  - injection Hget as ->. rewrite Hf. reflexivity.
  - rewrite IH by exact Hget. reflexivity.
Qed.

(** Maps with the same keys and the same list of views give the same view
    under every key. *)
Lemma get_by_view {V A} (f : V -> A) (m1 m2 : list (string * V)) :
  JsMap.keys m1 = JsMap.keys m2 ->
  map f (JsMap.values m1) = map f (JsMap.values m2) ->
  forall u, f <$> JsMap.get m1 u = f <$> JsMap.get m2 u.
Proof.
  unfold JsMap.keys, JsMap.values.
  revert m2. induction m1 as [|[k1 v1] m1 IH]; intros [|[k2 v2] m2];
    simpl; try discriminate; [reflexivity|].
  intros [= -> Hk] [= Hf Hv] u.
  destruct (String.eqb k2 u); simpl; [rewrite Hf; reflexivity|].
  apply IH; assumption.
Qed.

Lemma seat_boards (l1 l2 : list Player.t) :
  map seat l1 = map seat l2 -> map Player.board l1 = map Player.board l2.
Proof.
  revert l2. induction l1 as [|p l1 IH]; intros [|q l2]; simpl;
    try discriminate; [reflexivity|].
  intros [= _ _ _ Hb _ Hrest]. rewrite Hb, (IH _ Hrest). reflexivity.
Qed.

Lemma values_set_congr {V A} (f : V -> A) (m : list (string * V))
  (k : string) (v v' : V) :
  f v = f v' ->
  map f (JsMap.values (JsMap.set m k v))
  = map f (JsMap.values (JsMap.set m k v')).
Proof.
  unfold JsMap.values. intros Hf.
  induction m as [|[k0 v0] m IH]; simpl; [rewrite Hf; reflexivity|].
  destruct (String.eqb k0 k); simpl; [rewrite Hf | rewrite IH]; reflexivity.
Qed.

Lemma readyHandler_frame (R : Rules.t)
  (validateBoard : Board.t -> Completion BoardCheck)
  (settlePairwiseDetailed : Board.t -> Board.t -> Completion PairDetail)
  (st : Store) (socket : Socket) (roomId : string)
  (placements : option (list Placement)) (discard : option Card)
  (room : Room.t) :
  st !! roomId = Some room ->
  exists room',
    after (readyHandler R validateBoard settlePairwiseDetailed st socket
             roomId placements discard)
    = <[roomId := room']> st /\
    Room.id room' = Room.id room /\
    Room.round room' = Room.round room /\
    JsMap.keys (Room.players room') = JsMap.keys (Room.players room) /\
    (forall u, u <> user_sub socket ->
       seat <$> JsMap.get (Room.players room') u
       = seat <$> JsMap.get (Room.players room) u) /\
    (JsMap.get (Room.players room) (user_sub socket) = None ->
     room' = room) /\
    (forall p, JsMap.get (Room.players room) (user_sub socket) = Some p ->
       boards_of room'
       = map Player.board
           (JsMap.values
              (JsMap.set (Room.players room) (user_sub socket)
                 (fst (applyBatch R room p placements discard))))) /\
    room_card_count room' = room_card_count room.
Proof.
  intros Hroom. unfold readyHandler. rewrite Hroom.
  assert (Hsame : exists room',
    st = <[roomId := room']> st /\
    Room.id room' = Room.id room /\
    Room.round room' = Room.round room /\
    JsMap.keys (Room.players room') = JsMap.keys (Room.players room) /\
    (forall u, u <> user_sub socket ->
       seat <$> JsMap.get (Room.players room') u
       = seat <$> JsMap.get (Room.players room) u) /\
    room' = room /\
    room_card_count room' = room_card_count room).
  { exists room. rewrite (insert_id st roomId room Hroom).
    repeat split; reflexivity. }
  destruct (JsMap.get (Room.players room) (user_sub socket)) as [p|] eqn:Hp.
  2:{ destruct Hsame as (room' & H1 & H2 & H3 & H4 & H5 & H6 & H7).
      exists room'. cbn [after finish].
      repeat (split; [assumption|]). split; [intros _; exact H6|].
      split; [discriminate | exact H7]. }
  pose proof (applyBatch_not_success R room p placements discard) as Hno.
  pose proof (applyBatch_keeps_count R room p placements discard) as Hcnt.
  destruct (applyBatch R room p placements discard) as [p' ok] eqn:Hb.
  simpl in Hno, Hcnt.
  assert (Hback : ok <> Returned Success ->
                  put_player st roomId room (user_sub socket) p' = st).
  { intros H. rewrite (Hno H). apply put_player_id; assumption. }
  assert (Hboards_same : ok <> Returned Success ->
    boards_of room
    = map Player.board
        (JsMap.values (JsMap.set (Room.players room) (user_sub socket) p'))).
  { intros H. rewrite (Hno H), (set_get_id _ _ _ Hp). reflexivity. }
  destruct ok as [[|why msg]|e]; cbn [after finish].
  - destruct (advance_frame R validateBoard settlePairwiseDetailed st roomId
                (Room.set_players room
                   (JsMap.set (Room.players room) (user_sub socket)
                      (Player.set_ready p' true))))
      as (room' & Hafter & Hid & Hrd & Hk & Hs & Hc).
    exists room'. simpl in Hid, Hrd, Hk, Hs.
    split; [exact Hafter|]. split; [exact Hid|]. split; [exact Hrd|].
    split; [rewrite Hk; apply (keys_set_present _ _ _ p Hp)|].
    split.
    { intros u Hu. rewrite (get_by_view seat _ _ Hk Hs u).
      rewrite get_set_other by congruence. reflexivity. }
    split; [discriminate|]. split.
    { intros q [= <-]. rewrite Hb. unfold boards_of.
      rewrite (seat_boards _ _ Hs).
      apply values_set_congr. reflexivity. }
    rewrite Hc. unfold room_card_count. simpl.
    rewrite (values_set_present Player.card_count _ _ _ p Hp);
      [reflexivity|].
    unfold Player.card_count at 1. simpl. exact Hcnt.
  - rewrite Hback by discriminate.
    destruct Hsame as (room' & H1 & H2 & H3 & H4 & H5 & -> & H7).
    exists room. repeat (split; [assumption|]).
    split; [discriminate|]. split; [|exact H7].
    intros q [= <-]. rewrite Hb. apply Hboards_same. discriminate.
  - rewrite Hback by discriminate.
    destruct Hsame as (room' & H1 & H2 & H3 & H4 & H5 & -> & H7).
    exists room. repeat (split; [assumption|]).
    split; [discriminate|]. split; [|exact H7].
    intros q [= <-]. rewrite Hb. apply Hboards_same. discriminate.
Qed.

(** X11. Whatever the batch and however the call ends, [readyHandler]
    changes at most the room it names: the other rooms of the registry are
    untouched; the room keeps its id, its hand counter, its players and
    their order; and every player but the caller keeps identity, socket,
    board and discards.  What it may change for the others is their hand
    (a deal) and their ready flag. *)
Theorem ready_leaves_the_others_alone (R : Rules.t)
  (validateBoard : Board.t -> Completion BoardCheck)
  (settlePairwiseDetailed : Board.t -> Board.t -> Completion PairDetail)
  (st : Store) (socket : Socket) (roomId : string)
  (placements : option (list Placement)) (discard : option Card)
  (room : Room.t) :
  st !! roomId = Some room ->
  let res := readyHandler R validateBoard settlePairwiseDetailed st socket
               roomId placements discard in
  (forall k, k <> roomId -> after res !! k = st !! k) /\
  exists room',
    after res !! roomId = Some room' /\
    Room.id room' = Room.id room /\
    Room.round room' = Room.round room /\
    JsMap.keys (Room.players room') = JsMap.keys (Room.players room) /\
    forall u q,
      u <> user_sub socket ->
      JsMap.get (Room.players room) u = Some q ->
      exists q',
        JsMap.get (Room.players room') u = Some q' /\
        Player.userId q' = Player.userId q /\
        Player.name q' = Player.name q /\
        Player.socketId q' = Player.socketId q /\
        Player.board q' = Player.board q /\
        Player.discards q' = Player.discards q.
Proof.
  intros Hroom res. subst res.
  destruct (readyHandler_frame R validateBoard settlePairwiseDetailed st
              socket roomId placements discard room Hroom)
    as (room' & Hafter & Hid & Hrd & Hk & Hseat & _).
  rewrite Hafter. split.
  - intros k Hk'. apply lookup_insert_ne. congruence.
  - exists room'. split; [apply lookup_insert_eq|].
    split; [exact Hid|]. split; [exact Hrd|]. split; [exact Hk|].
    intros u q Hu Hq. specialize (Hseat u Hu). rewrite Hq in Hseat.
    destruct (JsMap.get (Room.players room') u) as [q'|];
      [|discriminate].
    simpl in Hseat. injection Hseat as H1 H2 H3 H4 H5.
    exists q'. repeat split; assumption || reflexivity.
Qed.

Lemma ready_leaves_the_others_alone_witness :
  exists room' q',
    after (readyHandler table_rules clean_board draw
             (round_store bob_ready) ann_socket "r1"
             (Some ann_batch) (Some "7C")) !! "r1" = Some room' /\
    JsMap.get (Room.players room') "u2" = Some q' /\
    Player.board q' = Player.board bob_ready /\
    Player.discards q' = ["6H"].
Proof.
  destruct (ready_leaves_the_others_alone table_rules clean_board draw
              (round_store bob_ready) ann_socket "r1"
              (Some ann_batch) (Some "7C") (round_room bob_ready))
    as (_ & room' & Hafter & _ & _ & _ & Hothers); [reflexivity|].
  destruct (Hothers "u2" bob_ready) as (q' & Hq & _ & _ & _ & Hb & Hd);
    [discriminate | reflexivity |].
  exists room', q'. auto.
Defined.

(** X12. No call of [readyHandler] creates or loses a card: the cards
    left in the room's deck and those held by its players (hand, rows and
    discards) number the same after the call as before, whether the batch
    is refused, throws, is accepted without a transition, is followed by
    a deal or by the reveal.  (The deal is that of [dealToAll] as the
    specification describes it.) *)
Theorem ready_conserves_the_cards_of_the_room (R : Rules.t)
  (validateBoard : Board.t -> Completion BoardCheck)
  (settlePairwiseDetailed : Board.t -> Board.t -> Completion PairDetail)
  (st : Store) (socket : Socket) (roomId : string)
  (placements : option (list Placement)) (discard : option Card)
  (room : Room.t) :
  st !! roomId = Some room ->
  exists room',
    after (readyHandler R validateBoard settlePairwiseDetailed st socket
             roomId placements discard) !! roomId = Some room' /\
    room_card_count room' = room_card_count room.
Proof.
  intros Hroom.
  destruct (readyHandler_frame R validateBoard settlePairwiseDetailed st
              socket roomId placements discard room Hroom)
    as (room' & Hafter & _ & _ & _ & _ & _ & _ & Hc).
  exists room'. rewrite Hafter. split; [apply lookup_insert_eq | exact Hc].
Qed.

Lemma ready_conserves_the_cards_of_the_room_witness :
  room_card_count (round_room bob_ready) = 24 /\
  exists room',
    after (readyHandler table_rules clean_board draw
             (round_store bob_ready) ann_socket "r1"
             (Some ann_batch) (Some "7C")) !! "r1" = Some room' /\
    Room.phase room' = Round /\
    room_card_count room' = 24.
Proof.
  split; [reflexivity|].
  destruct (ready_conserves_the_cards_of_the_room table_rules clean_board
              draw (round_store bob_ready) ann_socket "r1"
              (Some ann_batch) (Some "7C") (round_room bob_ready))
    as (room' & Hafter & Hc); [reflexivity|].
  exists room'. split; [exact Hafter|].
  split; [|rewrite Hc; reflexivity].
  vm_compute in Hafter. injection Hafter as <-. reflexivity.
Defined.

(** ** Row capacities *)

Lemma row_limit_of (R : Rules.t) (row : string) (r : RowName) :
  board_index row = RowArray r -> row_limit R row = limit_of R r.
Proof.
  intros H. apply board_index_rows in H as [[-> ->]|[[-> ->]|[-> ->]]];
    reflexivity.
Qed.

Lemma push_rows (R : Rules.t) (b : Board.t) (r : RowName) (c : Card) :
  rows_within R b -> length (Board.get b r) < limit_of R r ->
  rows_within R (Board.push b r c).
Proof.
  intros Hb Hlt r'. specialize (Hb r').
  destruct r, r'; simpl in *; rewrite ?length_app; simpl; lia.
Qed.

Lemma empty_rows (R : Rules.t) : rows_within R Board.empty.
Proof. intros r. destruct r; simpl; lia. Qed.

Lemma validatePlacements_rows (R : Rules.t) (ps : list Placement) :
  forall (h : list Card) (b : Board.t) (h' : list Card) (b' : Board.t),
  rows_within R b ->
  validatePlacements R h b ps = Continue h' b' ->
  rows_within R b'.
Proof.
  induction ps as [|pl ps IH]; intros h b h' b' Hb H; simpl in H.
  - injection H as _ <-. exact Hb.
  - destruct (validatePlacement R h b pl) as [h1 b1| |] eqn:Hstep;
      try discriminate.
    apply validatePlacement_accepts in Hstep
      as (_ & _ & r & Hrow & Hlt & ->).
    rewrite (row_limit_of R _ _ Hrow) in Hlt.
    apply (IH _ _ _ _ (push_rows R b r (card pl) Hb Hlt) H).
Qed.

Lemma applyBatch_rows (R : Rules.t) (room : Room.t) (p : Player.t)
  (placements : option (list Placement)) (discard : option Card) :
  rows_within R (Player.board p) ->
  rows_within R
    (Player.board (fst (applyBatch R room p placements discard))).
Proof.
  intros Hb. unfold applyBatch; cbv zeta.
  destruct (phase_check R _ _ _) as [[w m]|]; [exact Hb|].
  destruct (validatePlacements R _ _ _) as [h1 b1|w m|e] eqn:Hloop;
    [|exact Hb..].
  pose proof (validatePlacements_rows R _ _ _ _ _ Hb Hloop) as Hb1.
  unfold commit.
  destruct (Js.truthy discard) as [d|];
    [destruct (Js.indexOf h1 d =? -1)%Z|]; simpl; assumption.
Qed.

Lemma placeLoop_rows (R : Rules.t) (ps : list Placement) :
  forall p : Player.t,
  rows_within R (Player.board p) ->
  rows_within R (Player.board (fst (placeLoop R p ps))).
Proof.
  induction ps as [|pl ps IH]; intros p Hb; simpl; [exact Hb|].
  assert (Hone : rows_within R (Player.board (fst (placeOne R p pl)))).
  { unfold placeOne.
    destruct (Js.indexOf (Player.hand p) (card pl) =? -1)%Z; [exact Hb|].
    destruct (board_index (row pl)) as [r|len|] eqn:Hrow; [| |exact Hb].
    - unfold length_ge. simpl.
      destruct (Nat.leb_spec (row_limit R (row pl))
                  (length (Board.get (Player.board p) r))) as [|Hlt];
        [exact Hb|].
      simpl. rewrite (row_limit_of R _ _ Hrow) in Hlt.
      apply push_rows; assumption.
    - destruct (length_ge _ _ _); exact Hb. }
  destruct (placeOne R p pl) as [p1 [|w m|e]]; simpl in *;
    [apply IH, Hone | exact Hone..].
Qed.

Lemma Forall_values_set {V A} (P : A -> Prop) (f : V -> A)
  (m : list (string * V)) (k : string) (v : V) :
  Forall P (map f (JsMap.values m)) -> P (f v) ->
  Forall P (map f (JsMap.values (JsMap.set m k v))).
Proof.
  unfold JsMap.values. intros Hm Hv.
  induction m as [|[k0 v0] m IH]; simpl in *.
  - constructor; [exact Hv | constructor].
  - apply Forall_cons in Hm as [H0 Hm].
    destruct (String.eqb k0 k); simpl; constructor; auto.
Qed.

Lemma Forall_values_remove {V A} (P : A -> Prop) (f : V -> A)
  (m : list (string * V)) (k : string) :
  Forall P (map f (JsMap.values m)) ->
  Forall P (map f (JsMap.values (JsMap.remove m k))).
Proof.
  unfold JsMap.values. intros Hm.
  induction m as [|[k0 v0] m IH]; simpl in *; [exact Hm|].
  apply Forall_cons in Hm as [H0 Hm].
  destruct (String.eqb k0 k); simpl; [exact Hm|]. constructor; auto.
Qed.

Lemma Forall_values_get {V A} (P : A -> Prop) (f : V -> A)
  (m : list (string * V)) (k : string) (v : V) :
  Forall P (map f (JsMap.values m)) -> JsMap.get m k = Some v -> P (f v).
Proof.
  unfold JsMap.values. intros Hm Hget.
  induction m as [|[k0 v0] m IH]; simpl in *; [discriminate|].
  apply Forall_cons in Hm as [H0 Hm].
  destruct (String.eqb k0 k); [injection Hget as <-; exact H0 | auto].
Qed.

(** X13. A call whose placements name their rows by strings never fills
    a row beyond its capacity: if in every room of the registry every
    player's top, middle and bottom rows are within [rules.layout], they
    still are after any join, leave, start, legacy place or discard, or
    ready call in the wire format of [Placement], whatever the row names
    and cards and however the call ends.  (A row that is not a string is
    outside this statement: the array [["top"]] reaches the top row and
    is checked against [layout.bottom].) *)
Theorem every_call_keeps_rows_within_capacity (R : Rules.t)
  (validateBoard : Board.t -> Completion BoardCheck)
  (settlePairwiseDetailed : Board.t -> Board.t -> Completion PairDetail)
  (c : Call) (st : Store) :
  map_Forall (fun _ room => room_rows_within R room) st ->
  map_Forall (fun _ room => room_rows_within R room)
    (after (run R validateBoard settlePairwiseDetailed c st)).
Proof.
  intros Hst.
  assert (Hput : forall roomId room u p,
    st !! roomId = Some room -> rows_within R (Player.board p) ->
    map_Forall (fun _ room => room_rows_within R room)
      (put_player st roomId room u p)).
  { intros roomId room u p Hroom Hp. unfold put_player.
    apply map_Forall_insert_2; [|exact Hst].
    apply Forall_values_set; [|exact Hp].
    apply (map_Forall_lookup_1 _ _ _ _ Hst Hroom). }
  destruct c as [socket roomId name | socket roomId | fresh socket roomId
                 | socket roomId placements | socket roomId c
                 | socket roomId placements discard]; simpl.
  - unfold joinRoomHandler.
    destruct (st !! roomId) as [room|] eqn:Hroom; [|exact Hst].
    destruct (Nat.leb _ _); [exact Hst|]. cbn [after finish].
    apply Hput; [exact Hroom | apply empty_rows].
  - unfold leaveRoomHandler.
    destruct (st !! roomId) as [room|] eqn:Hroom; [|exact Hst].
    cbv zeta.
    assert (Hins : map_Forall (fun _ room => room_rows_within R room)
              (<[roomId := Room.set_players room
                   (JsMap.remove (Room.players room) (user_sub socket))]>
                 st)).
    { apply map_Forall_insert_2; [|exact Hst].
      apply Forall_values_remove.
      apply (map_Forall_lookup_1 _ _ _ _ Hst Hroom). }
    destruct (Nat.eqb _ 0); cbn [after finish];
      [apply map_Forall_delete|]; exact Hins.
  - unfold startRoundHandler.
    destruct (st !! roomId) as [room|] eqn:Hroom; [|exact Hst].
    destruct (Nat.ltb _ _); [exact Hst|]. unfold startRound. cbv zeta.
    destruct (_ || _).
    { rewrite (insert_id st roomId room Hroom). exact Hst. }
    match goal with |- context [dealToAll ?r ?k] =>
      pose proof (dealToAll_frame r k) as (_ & _ & _ & _ & _ & Hs & _);
      destruct (dealToAll r k) as [room' done]
    end.
    simpl in Hs.
    assert (Hins : map_Forall (fun _ room => room_rows_within R room)
                     (<[roomId := room']> st)).
    { apply map_Forall_insert_2; [|exact Hst].
      unfold room_rows_within, boards_of.
      rewrite (seat_boards _ _ Hs), values_update_all, map_map. simpl.
      induction (JsMap.values (Room.players room)) as [|q qs IHq]; simpl;
        constructor; [apply empty_rows | exact IHq]. }
    destruct done; exact Hins.
  - unfold placeHandler.
    destruct (st !! roomId) as [room|] eqn:Hroom; [|exact Hst].
    destruct (JsMap.get (Room.players room) (user_sub socket)) as [p|]
      eqn:Hp; [|exact Hst].
    pose proof (placeLoop_rows R (default [] placements) p) as Hrows.
    destruct (placeLoop R p (default [] placements)) as [p' exit].
    simpl in Hrows.
    assert (Hp' : rows_within R (Player.board p')).
    { apply Hrows.
      apply (Forall_values_get _ Player.board _ _ _
               (map_Forall_lookup_1 _ _ _ _ Hst Hroom) Hp). }
    destruct exit; cbn [after finish]; apply Hput; assumption.
  - unfold discardHandler.
    destruct (st !! roomId) as [room|] eqn:Hroom; [|exact Hst].
    destruct (JsMap.get (Room.players room) (user_sub socket)) as [p|]
      eqn:Hp; [|exact Hst].
    destruct (Js.indexOf _ _ =? -1)%Z; [exact Hst|]. cbn [after finish].
    apply Hput; [exact Hroom|]. simpl.
    apply (Forall_values_get _ Player.board _ _ _
             (map_Forall_lookup_1 _ _ _ _ Hst Hroom) Hp).
  - destruct (st !! roomId) as [room|] eqn:Hroom.
    2:{ unfold readyHandler. rewrite Hroom. exact Hst. }
    destruct (readyHandler_frame R validateBoard settlePairwiseDetailed st
                socket roomId placements discard room Hroom)
      as (room' & -> & _ & _ & _ & _ & Hnone & Hsome & _).
    apply map_Forall_insert_2; [|exact Hst].
    pose proof (map_Forall_lookup_1 _ _ _ _ Hst Hroom) as Hroom_ok.
    destruct (JsMap.get (Room.players room) (user_sub socket)) as [p|]
      eqn:Hp.
    + unfold room_rows_within. rewrite (Hsome p eq_refl).
      apply Forall_values_set; [exact Hroom_ok|].
      apply applyBatch_rows.
      apply (Forall_values_get _ Player.board _ _ _ Hroom_ok Hp).
    + rewrite (Hnone eq_refl). exact Hroom_ok.
Qed.

Lemma every_call_keeps_rows_within_capacity_witness :
  map_Forall (fun _ room => room_rows_within table_rules room)
    cat_store /\
  map_Forall (fun _ room => room_rows_within table_rules room)
    (after (run table_rules clean_board draw
              (Place cat_socket "r2"
                 (Some [place "bottom" "5D"; place "top" "6D"]))
              cat_store)).
Proof.
  assert (Hst : map_Forall (fun _ room => room_rows_within table_rules room)
                  cat_store).
  { apply map_Forall_insert_2; [|apply map_Forall_empty].
    constructor; [|constructor]. intros []; simpl; lia. }
  split; [exact Hst|].
  apply (every_call_keeps_rows_within_capacity table_rules clean_board draw
           (Place cat_socket "r2"
              (Some [place "bottom" "5D"; place "top" "6D"]))
           cat_store Hst).
Defined.

(** ** Room sizes *)

(** X14. No call ever brings a room above [players.max]: if every room of
    the registry has at most [players.max] players, so has every room
    after any join, leave, start, legacy place or discard, or ready call,
    whatever its arguments and however it ends.  Only a join can add a
    player, and it is refused at [players.max]. *)
Theorem every_call_keeps_rooms_within_max (R : Rules.t)
  (validateBoard : Board.t -> Completion BoardCheck)
  (settlePairwiseDetailed : Board.t -> Board.t -> Completion PairDetail)
  (c : Call) (st : Store) :
  map_Forall (fun _ room => room_within_max R room) st ->
  map_Forall (fun _ room => room_within_max R room)
    (after (run R validateBoard settlePairwiseDetailed c st)).
Proof.
  intros Hst.
  assert (Hput : forall roomId room u p q,
    st !! roomId = Some room ->
    JsMap.get (Room.players room) u = Some q ->
    map_Forall (fun _ room => room_within_max R room)
      (put_player st roomId room u p)).
  { intros roomId room u p q Hroom Hq. unfold put_player.
    apply map_Forall_insert_2; [|exact Hst].
    unfold room_within_max. simpl.
    rewrite (size_set_present _ _ _ q Hq).
    apply (map_Forall_lookup_1 _ _ _ _ Hst Hroom). }
  destruct c as [socket roomId name | socket roomId | fresh socket roomId
                 | socket roomId placements | socket roomId c
                 | socket roomId placements discard]; simpl.
  - unfold joinRoomHandler.
    destruct (st !! roomId) as [room|] eqn:Hroom; [|exact Hst].
    destruct (Nat.leb_spec (Rules.players_max R)
                (JsMap.size (Room.players room))) as [|Hfree];
      [exact Hst|].
    cbn [after finish]. unfold put_player.
    apply map_Forall_insert_2; [|exact Hst].
    unfold room_within_max. simpl.
    destruct (JsMap.get (Room.players room) (user_sub socket)) as [old|]
      eqn:Hold.
    + rewrite (size_set_present _ _ _ old Hold). lia.
    + rewrite (set_absent _ _ _ Hold). unfold JsMap.size in *.
      rewrite length_app. simpl. lia.
  - unfold leaveRoomHandler.
    destruct (st !! roomId) as [room|] eqn:Hroom; [|exact Hst].
    cbv zeta.
    assert (Hins : map_Forall (fun _ room => room_within_max R room)
              (<[roomId := Room.set_players room
                   (JsMap.remove (Room.players room) (user_sub socket))]>
                 st)).
    { apply map_Forall_insert_2; [|exact Hst].
      unfold room_within_max. simpl.
      pose proof (size_remove (Room.players room) (user_sub socket)).
      pose proof (map_Forall_lookup_1 _ _ _ _ Hst Hroom) as Hle.
      unfold room_within_max in Hle. lia. }
    destruct (Nat.eqb _ 0); cbn [after finish];
      [apply map_Forall_delete|]; exact Hins.
  - unfold startRoundHandler.
    destruct (st !! roomId) as [room|] eqn:Hroom; [|exact Hst].
    destruct (Nat.ltb _ _); [exact Hst|]. unfold startRound. cbv zeta.
    destruct (_ || _).
    { rewrite (insert_id st roomId room Hroom). exact Hst. }
    match goal with |- context [dealToAll ?r ?k] =>
      pose proof (dealToAll_frame r k) as (_ & _ & _ & _ & Hk & _);
      destruct (dealToAll r k) as [room' done]
    end.
    simpl in Hk. rewrite keys_update_all in Hk.
    assert (Hins : map_Forall (fun _ room => room_within_max R room)
                     (<[roomId := room']> st)).
    { apply map_Forall_insert_2; [|exact Hst].
      unfold room_within_max. rewrite size_keys, Hk, <- size_keys.
      apply (map_Forall_lookup_1 _ _ _ _ Hst Hroom). }
    destruct done; exact Hins.
  - unfold placeHandler.
    destruct (st !! roomId) as [room|] eqn:Hroom; [|exact Hst].
    destruct (JsMap.get (Room.players room) (user_sub socket)) as [p|]
      eqn:Hp; [|exact Hst].
    destruct (placeLoop R p (default [] placements)) as [p' exit].
    destruct exit; cbn [after finish]; apply (Hput _ _ _ _ p Hroom Hp).
  - unfold discardHandler.
    destruct (st !! roomId) as [room|] eqn:Hroom; [|exact Hst].
    destruct (JsMap.get (Room.players room) (user_sub socket)) as [p|]
      eqn:Hp; [|exact Hst].
    destruct (Js.indexOf _ _ =? -1)%Z; [exact Hst|]. cbn [after finish].
    apply (Hput _ _ _ _ p Hroom Hp).
  - destruct (st !! roomId) as [room|] eqn:Hroom.
    2:{ unfold readyHandler. rewrite Hroom. exact Hst. }
    destruct (readyHandler_frame R validateBoard settlePairwiseDetailed st
                socket roomId placements discard room Hroom)
      as (room' & -> & _ & _ & Hk & _).
    apply map_Forall_insert_2; [|exact Hst].
    unfold room_within_max. rewrite size_keys, Hk, <- size_keys.
    apply (map_Forall_lookup_1 _ _ _ _ Hst Hroom).
Qed.

Lemma every_call_keeps_rooms_within_max_witness :
  map_Forall (fun _ room => room_within_max table_rules room)
    full_store /\
  map_Forall (fun _ room => room_within_max table_rules room)
    (after (run table_rules clean_board draw
              (JoinRoom eve_socket "r1" None) full_store)).
Proof.
  assert (Hst : map_Forall (fun _ room => room_within_max table_rules room)
                  full_store).
  { apply map_Forall_insert_2; [|apply map_Forall_empty].
    unfold room_within_max. simpl. lia. }
  split; [exact Hst|].
  apply (every_call_keeps_rooms_within_max table_rules clean_board draw
           (JoinRoom eve_socket "r1" None) full_store Hst).
Defined.

(** ** The reveal *)

(** X15. When the scoring functions return, the reveal payload has one
    board summary per player, in join order, carrying the player's id,
    name and whole board, valid exactly when [validateBoard] did not
    report a foul and with the foul's reason otherwise; and one pairwise
    entry for every two players, the earlier joiner as side [a], in the
    order of the nested loops, carrying what [settlePairwiseDetailed]
    returned for their two boards: n(n-1)/2 entries for n players.  The
    round sent is the room's hand counter. *)
Theorem settlement_lists_every_pair
  (validateBoard : Board.t -> Completion BoardCheck)
  (settlePairwiseDetailed : Board.t -> Board.t -> Completion PairDetail)
  (room : Room.t) (payload : RevealPayload) :
  settlement validateBoard settlePairwiseDetailed room = Returned payload ->
  let ps := JsMap.values (Room.players room) in
  Forall2 (summary_of validateBoard) (rv_boards payload) ps /\
  Forall2 (entry_of settlePairwiseDetailed) (rv_pairwise payload)
    (pairs_of ps) /\
  length (rv_boards payload) = length ps /\
  2 * length (rv_pairwise payload) = length ps * (length ps - 1) /\
  rv_round payload = Room.round room.
Proof.
  intros H ps. apply settlement_inv in H as (Hb & Hp & _ & Hr).
  fold ps in Hb, Hp.
  split; [exact Hb|]. split; [exact Hp|].
  split; [apply (Forall2_length _ _ _ Hb)|].
  split; [|exact Hr].
  rewrite (Forall2_length _ _ _ Hp). apply pairs_of_length.
Qed.

Lemma settlement_lists_every_pair_witness :
  exists payload,
    settlement clean_board first_wins three_players = Returned payload /\
    map (fun e => (pe_aUserId e, pe_bUserId e)) (rv_pairwise payload)
    = [("u1", "u2"); ("u1", "u3"); ("u2", "u3")] /\
    2 * length (rv_pairwise payload) = 3 * 2.
Proof.
  destruct (settlement clean_board first_wins three_players)
    as [payload|e] eqn:Hs; [|vm_compute in Hs; discriminate].
  exists payload. split; [reflexivity|].
  pose proof (settlement_lists_every_pair clean_board first_wins
                three_players payload Hs) as (_ & _ & _ & Hn & _).
  split; [|exact Hn].
  vm_compute in Hs. injection Hs as <-. reflexivity.
Defined.

Lemma Forall2_In_r {A B} (P : A -> B -> Prop) (l : list A) (k : list B)
  (y : B) :
  Forall2 P l k -> In y k -> exists x, In x l /\ P x y.
Proof.
  induction 1 as [|x y' l k Hxy _ IH]; simpl; [contradiction|].
  intros [->|Hin]; [exists x; auto|].
  destruct (IH Hin) as (x' & Hx' & HP). exists x'. auto.
Qed.

(** With two elements or more, every element is in some pair. *)
Lemma pairs_of_covers {A} (l : list A) (x : A) :
  2 <= length l -> In x l ->
  exists y, In (x, y) (pairs_of l) \/ In (y, x) (pairs_of l).
Proof.
  destruct l as [|a [|b l]]; simpl; try lia.
  intros _ [->|[->|Hin]].
  - exists b. left. left. reflexivity.
  - exists a. right. left. reflexivity.
  - exists a. right. right. apply in_or_app. left.
    apply in_map. exact Hin.
Qed.

Lemma scores_named (u : string) (es : list PairEntry) (e : PairEntry) :
  In e es -> pe_aUserId e = u \/ pe_bUserId e = u -> scores u es <> [].
Proof.
  intros Hin Hu. unfold scores. induction es as [|e' es IH]; simpl in *;
    [contradiction|].
  destruct Hin as [->|Hin].
  - intros Hnil. apply app_eq_nil in Hnil as [Hnil _].
    unfold scored in Hnil. apply app_eq_nil in Hnil as [Ha Hb].
    destruct Hu as [Hu|Hu]; rewrite Hu, String.eqb_refl in *; discriminate.
  - intros Hnil. apply app_eq_nil in Hnil as [_ Hnil]. apply (IH Hin Hnil).
Qed.

(** X16. The [results] of the reveal are the [pairwise] entries added up
    by user id, the way the object literal [totals] does it.  For a user
    id that [Object.prototype] does not define, the result is a number:
    the one the runtime gets by adding, from the left and in the order
    of the entries, the totals the entries give to the user, side [a]'s
    where the user is [aUserId] and side [b]'s where the user is
    [bUserId]; a user no entry names has no result.  For a user id that
    [Object.prototype] defines (constructor, toString, ...) the result
    is not a number but a string, the text of the inherited member
    followed by those totals, and for [__proto__] there is no result.
    So a room revealed with fewer than two players has no result and no
    entry, and in a room with two or more every player whose id
    [Object.prototype] does not define has a number for result. *)
Theorem settlement_results_sum_pairwise
  (validateBoard : Board.t -> Completion BoardCheck)
  (settlePairwiseDetailed : Board.t -> Board.t -> Completion PairDetail)
  (room : Room.t) (payload : RevealPayload) :
  settlement validateBoard settlePairwiseDetailed room = Returned payload ->
  let es := rv_pairwise payload in
  (forall u,
     Js.object_prototype u = None ->
     rv_results payload !! u
     = match scores u es with
       | [] => None
       | xs => Some (Sum xs)
       end) /\
  (forall u len,
     Js.object_prototype u = Some len ->
     rv_results payload !! u
     = match scores u es with
       | [] => None
       | xs => if String.eqb u "__proto__" then None else Some (Text u xs)
       end) /\
  (JsMap.size (Room.players room) < 2 ->
   rv_results payload = ∅ /\ rv_pairwise payload = []) /\
  (2 <= JsMap.size (Room.players room) ->
   forall p, In p (JsMap.values (Room.players room)) ->
   Js.object_prototype (Player.userId p) = None ->
   scores (Player.userId p) es <> [] /\
   rv_results payload !! Player.userId p
   = Some (Sum (scores (Player.userId p) es))).
Proof.
  intros H es. apply settlement_inv in H as (_ & Hp & Ht & _). fold es in Ht.
  assert (Hsize : JsMap.size (Room.players room)
                  = length (JsMap.values (Room.players room)))
    by (unfold JsMap.size, JsMap.values; rewrite length_map; reflexivity).
  assert (Hnum : forall u,
     Js.object_prototype u = None ->
     rv_results payload !! u
     = match scores u es with
       | [] => None
       | xs => Some (Sum xs)
       end).
  { intros u Hu. rewrite Ht. unfold result_of. rewrite Hu.
    destruct (scores u es); reflexivity. }
  split; [exact Hnum|]. split; [|split].
  - intros u len Hu. rewrite Ht. unfold result_of. rewrite Hu.
    destruct (scores u es); reflexivity.
  - intros Hlt.
    assert (Hnil : rv_pairwise payload = []).
    { apply Forall2_length in Hp.
      pose proof (pairs_of_length (JsMap.values (Room.players room))).
      destruct (rv_pairwise payload); [reflexivity|]. simpl in Hp. nia. }
    split; [|exact Hnil].
    apply map_eq. intros u. rewrite Ht. subst es. rewrite Hnil, lookup_empty.
    reflexivity.
  - intros Hge p Hin Hu. rewrite (Hnum _ Hu).
    assert (Hlen : 2 <= length (JsMap.values (Room.players room)))
      by lia.
    destruct (pairs_of_covers _ p Hlen Hin) as [q Hpair].
    assert (Hex : scores (Player.userId p) es <> []).
    { destruct Hpair as [Hpair|Hpair];
        destruct (Forall2_In_r _ _ _ _ Hp Hpair) as (e & He & Ha & Hb & _);
        apply (scores_named _ _ e He); simpl in Ha, Hb; auto. }
    split; [exact Hex|].
    destruct (scores (Player.userId p) es); [contradiction|reflexivity].
Qed.

Lemma settlement_results_sum_pairwise_witness :
  (exists payload,
     settlement clean_board first_wins three_players = Returned payload /\
     rv_results payload !! "u1" = Some (Sum [1; 1]%Z) /\
     rv_results payload !! "u2" = Some (Sum [-1; 1]%Z) /\
     rv_results payload !! "u3" = Some (Sum [-1; -1]%Z) /\
     rv_results payload !! "u4" = None) /\
  (exists payload,
     settlement clean_board first_wins inherited_ids = Returned payload /\
     rv_results payload !! "constructor"
     = Some (Text "constructor" [1; 1]%Z) /\
     rv_results payload !! "u2" = Some (Sum [-1; 1]%Z) /\
     rv_results payload !! "__proto__" = None).
Proof.
  split.
  - destruct (settlement clean_board first_wins three_players)
      as [payload|e] eqn:Hs; [|vm_compute in Hs; discriminate].
    exists payload. split; [reflexivity|].
    pose proof (settlement_results_sum_pairwise clean_board first_wins
                  three_players payload Hs) as (Hres & _).
    rewrite !Hres by reflexivity.
    vm_compute in Hs. injection Hs as <-. repeat split; reflexivity.
  - destruct (settlement clean_board first_wins inherited_ids)
      as [payload|e] eqn:Hs; [|vm_compute in Hs; discriminate].
    exists payload. split; [reflexivity|].
    pose proof (settlement_results_sum_pairwise clean_board first_wins
                  inherited_ids payload Hs) as (Hres & Htext & _).
    rewrite (Htext "constructor" (Some 1) eq_refl),
            (Htext "__proto__" None eq_refl), (Hres "u2" eq_refl).
    vm_compute in Hs. injection Hs as <-. repeat split; reflexivity.
Defined.

Lemma boardSummaries_shown
  (validateBoard : Board.t -> Completion BoardCheck)
  (ps1 ps2 : list Player.t) :
  map shown ps1 = map shown ps2 ->
  boardSummaries validateBoard ps1 = boardSummaries validateBoard ps2.
Proof.
  revert ps2. induction ps1 as [|p ps1 IH]; intros [|q ps2]; simpl;
    try discriminate; [reflexivity|].
  intros [= Hu Hn Hb Hrest]. unfold boardSummary.
  rewrite Hu, Hn, Hb, (IH _ Hrest). reflexivity.
Qed.

Lemma settleAgainst_shown
  (settlePairwiseDetailed : Board.t -> Board.t -> Completion PairDetail)
  (A1 A2 : Player.t) (l1 l2 : list Player.t) :
  shown A1 = shown A2 -> map shown l1 = map shown l2 ->
  forall acc,
  settleAgainst settlePairwiseDetailed A1 l1 acc
  = settleAgainst settlePairwiseDetailed A2 l2 acc.
Proof.
  intros [= Hu _ Hb]. revert l2.
  induction l1 as [|B1 l1 IH]; intros [|B2 l2]; simpl; try discriminate;
    [reflexivity|].
  intros [= Hu' _ Hb' Hrest] acc. rewrite Hu, Hb, Hu', Hb'.
  destruct (settlePairwiseDetailed _ _) as [det|e]; simpl; [|reflexivity].
  apply IH, Hrest.
Qed.

Lemma settlePairs_shown
  (settlePairwiseDetailed : Board.t -> Board.t -> Completion PairDetail)
  (ps1 ps2 : list Player.t) :
  map shown ps1 = map shown ps2 ->
  forall acc,
  settlePairs settlePairwiseDetailed ps1 acc
  = settlePairs settlePairwiseDetailed ps2 acc.
Proof.
  revert ps2. induction ps1 as [|p ps1 IH]; intros [|q ps2]; simpl;
    try discriminate; [reflexivity|].
  intros H acc.
  assert (Hhead : shown p = shown q) by (injection H; congruence).
  assert (Hrest : map shown ps1 = map shown ps2)
    by (injection H; congruence).
  rewrite (settleAgainst_shown _ p q ps1 ps2 Hhead Hrest acc).
  destruct (settleAgainst _ q ps2 acc) as [acc1|e]; simpl; [|reflexivity].
  apply IH, Hrest.
Qed.

(** X17. The settlement reads, of a room, its hand counter and, of each
    player in join order, the id, the name and the board, and nothing
    else: two rooms that agree on these get the same reveal payload, or
    the same exception, whatever their hands, discards, ready flags,
    sockets, decks, phases and room ids.  The reveal publishes whole
    boards, and no card of a hand or of the discards. *)
Theorem settlement_reads_boards_only
  (validateBoard : Board.t -> Completion BoardCheck)
  (settlePairwiseDetailed : Board.t -> Board.t -> Completion PairDetail)
  (r1 r2 : Room.t) :
  Room.round r1 = Room.round r2 ->
  map shown (JsMap.values (Room.players r1))
  = map shown (JsMap.values (Room.players r2)) ->
  settlement validateBoard settlePairwiseDetailed r1
  = settlement validateBoard settlePairwiseDetailed r2.
Proof.
  intros Hround Hshown. unfold settlement.
  rewrite (boardSummaries_shown validateBoard _ _ Hshown), Hround.
  destruct (boardSummaries validateBoard _) as [ss|e]; simpl;
    [|reflexivity].
  rewrite (settlePairs_shown settlePairwiseDetailed _ _ Hshown).
  reflexivity.
Qed.

Lemma settlement_reads_boards_only_witness :
  Player.all_cards ann
  <> Player.all_cards
       (mk_player "u1" "Ann" "s7" (Player.board ann) [] ["2S"] true) /\
  settlement clean_board first_wins three_players
  = settlement clean_board first_wins three_players_otherwise.
Proof.
  split; [discriminate|].
  apply (settlement_reads_boards_only clean_board first_wins
           three_players three_players_otherwise); reflexivity.
Defined.

(** ** The private deal of a round *)

Lemma slice_last_new_cards (n : nat) (h cs : list Card) :
  length cs = n ->
  Js.slice_last n (h ++ cs) = if Nat.eqb n 0 then h ++ cs else cs.
Proof.
  intros Hlen. unfold Js.slice_last.
  destruct (Nat.eqb n 0); [reflexivity|].
  rewrite length_app, Hlen.
  replace (length h + n - n) with (length h) by lia.
  apply drop_app_length.
Qed.

(** X18. When the last ready of a round triggers a deal, the messages of
    the call are one DEAL_BATCH per player, in join order, each addressed
    to that player's own socket id, followed by one room state.  With
    [cardsPerRound > 0] a player's batch is exactly the cards just added
    at the end of that player's hand, so nobody is sent a card of the
    hand held before or of another player; with [cardsPerRound = 0] the
    batch is the player's whole hand, since [slice(-0)] is [slice(0)].
    (The deal is that of [dealToAll] as the specification describes
    it.) *)
Theorem round_deal_is_sent_privately (R : Rules.t)
  (validateBoard : Board.t -> Completion BoardCheck)
  (settlePairwiseDetailed : Board.t -> Board.t -> Completion PairDetail)
  (st : Store) (socket : Socket) (roomId : string) (room : Room.t)
  (p p' : Player.t) (placements : option (list Placement))
  (discard : option Card) :
  st !! roomId = Some room ->
  JsMap.get (Room.players room) (user_sub socket) = Some p ->
  applyBatch R room p placements discard = (p', Returned Success) ->
  allReady (committed room (user_sub socket) p') = true ->
  Room.roundIndex room < Rules.deal_rounds R ->
  Rules.deal_cardsPerRound R * JsMap.size (Room.players room)
    <= length (Room.deck room) ->
  let n := Rules.deal_cardsPerRound R in
  let res := readyHandler R validateBoard settlePairwiseDetailed st socket
               roomId placements discard in
  exists room',
    after res = <[roomId := room']> st /\
    emitted res
    = map (fun q => Emit (To (Player.socketId q))
                      (DEAL_BATCH (Js.slice_last n (Player.hand q))))
        (JsMap.values (Room.players room'))
      ++ emitRoomState (after res) (Room.id room) /\
    Forall2
      (fun old new =>
         exists cs,
           length cs = n /\
           Player.hand new = Player.hand old ++ cs /\
           Player.socketId new = Player.socketId old /\
           Js.slice_last n (Player.hand new)
           = if Nat.eqb n 0 then Player.hand new else cs)
      (JsMap.values (Room.players (committed room (user_sub socket) p')))
      (JsMap.values (Room.players room')).
Proof.
  intros Hroom Hp Hok Hall Hidx Hdeck n res. subst res.
  rewrite (readyHandler_accepted R _ _ st socket roomId room p p'
             placements discard Hroom Hp Hok).
  set (room1 := committed room (user_sub socket) p') in *.
  assert (Hsize : JsMap.size (Room.players room1)
                  = JsMap.size (Room.players room)).
  { unfold room1, committed. simpl. apply (size_set_present _ _ _ p Hp). }
  assert (Hdk : Room.deck room1 = Room.deck room) by reflexivity.
  assert (Hri : Room.roundIndex room1 = Room.roundIndex room)
    by reflexivity.
  rewrite <- Hri in Hidx.
  change (Room.id room) with (Room.id room1).
  clearbody room1.
  unfold advance. rewrite Hall. cbv zeta.
  assert (Hlt : Nat.ltb
            (Room.roundIndex
               (Room.set_players room1
                  (JsMap.update_all (fun pl => Player.set_ready pl false)
                     (Room.players room1))))
            (Rules.deal_rounds R) = true)
    by (apply Nat.ltb_lt; exact Hidx).
  rewrite Hlt.
  match goal with |- context [dealToAll ?r ?k] =>
    destruct (dealToAll_enough r k) as (ps & deck & Hdeal & _ & Hhands)
  end.
  { simpl. rewrite size_update_all, Hsize, Hdk. exact Hdeck. }
  rewrite Hdeal. simpl in Hhands. rewrite values_update_all in Hhands.
  eexists. split; [reflexivity|]. cbn [after finish emitted].
  split; [reflexivity|]. simpl. fold n in Hhands |- *.
  revert Hhands. generalize (JsMap.values (Room.players room1)) as olds.
  generalize (JsMap.values ps) as news.
  intros news olds. revert news.
  induction olds as [|o olds IH]; intros news H; simpl in H;
    inversion H as [|? q ? qs (cs & Hcs & ->) Hrest]; subst;
    constructor; [|apply IH, Hrest].
  exists cs. simpl. split; [exact Hcs|]. split; [reflexivity|].
  split; [reflexivity|]. apply slice_last_new_cards. exact Hcs.
Qed.

Lemma round_deal_is_sent_privately_witness :
  deals (emitted (readyHandler table_rules clean_board draw
                    (round_store bob_ready) ann_socket "r1"
                    (Some ann_batch) (Some "7C")))
  = [["2C"; "3C"; "4C"]; ["5C"; "6C"; "8D"]] /\
  exists room',
    after (readyHandler table_rules clean_board draw
             (round_store bob_ready) ann_socket "r1"
             (Some ann_batch) (Some "7C"))
    = <["r1" := room']> (round_store bob_ready) /\
    length (emitted (readyHandler table_rules clean_board draw
                       (round_store bob_ready) ann_socket "r1"
                       (Some ann_batch) (Some "7C")))
    = length (JsMap.values (Room.players room')) + 1.
Proof.
  split; [reflexivity|].
  destruct (round_deal_is_sent_privately table_rules clean_board draw
              (round_store bob_ready) ann_socket "r1"
              (round_room bob_ready) ann ann_committed
              (Some ann_batch) (Some "7C"))
    as (room' & Hafter & Hout & _);
    [reflexivity | reflexivity | reflexivity | reflexivity
     | simpl; lia | simpl; lia |].
  exists room'. split; [exact Hafter|].
  rewrite Hout, length_app, length_map, Hafter.
  reflexivity.
Defined.

(** ** The life of a room *)

Lemma set_set_same {V} (m : list (string * V)) (k : string) (v : V) :
  JsMap.set (JsMap.set m k v) k v = JsMap.set m k v.
Proof. apply set_get_id, get_set_same. Qed.

(** X19. A room is born empty and dies empty: [createRoomHandler] stores
    a room with no player under the id drawn, replacing without a check
    whatever room had that id and touching no other room, and answers the
    creator with that id; when the creator then joins the room and leaves
    it again, the room is deleted, and the registry is what it was before
    the creation, less any room that had the id.  ([createRoom] is the one
    the specification describes; [players.max > 0].) *)
Theorem created_room_lives_until_left (R : Rules.t) (roomId : string)
  (st : Store) (socket : Socket) (name : option string) :
  0 < Rules.players_max R ->
  let created := fst (createRoomHandler roomId st socket) in
  let joined := after (joinRoomHandler R created socket roomId name) in
  let left := after (leaveRoomHandler joined socket roomId) in
  snd (createRoomHandler roomId st socket)
  = EmitCreateRoom (socket_id socket) roomId /\
  (Room.players <$> created !! roomId) = Some [] /\
  (forall k, k <> roomId -> created !! k = st !! k) /\
  (Room.players <$> joined !! roomId)
  = Some [(user_sub socket, fresh_player socket name)] /\
  left = delete roomId st.
Proof.
  intros Hmax created joined left.
  split; [reflexivity|].
  assert (Hcreated : created !! roomId = Some (createRoom roomId))
    by apply lookup_insert_eq.
  split; [rewrite Hcreated; reflexivity|].
  split. { intros k Hk. apply lookup_insert_ne. congruence. }
  assert (Hjoined : joined
                    = <[roomId := Room.set_players (createRoom roomId)
                          [(user_sub socket, fresh_player socket name)]]>
                        created).
  { subst joined. unfold joinRoomHandler. rewrite Hcreated.
    destruct (Nat.leb_spec (Rules.players_max R)
                (JsMap.size (Room.players (createRoom roomId))))
      as [Hfull|_]; [simpl in Hfull; lia|].
    reflexivity. }
  split; [rewrite Hjoined, lookup_insert_eq; reflexivity|].
  subst left. rewrite Hjoined. unfold leaveRoomHandler.
  rewrite lookup_insert_eq. cbv zeta. simpl.
  rewrite String.eqb_refl. simpl.
  unfold created, createRoomHandler. simpl.
  rewrite !delete_insert_eq. reflexivity.
Qed.

Lemma created_room_lives_until_left_witness :
  after (leaveRoomHandler
           (after (joinRoomHandler table_rules
                     (fst (createRoomHandler "r7"
                             (round_store bob_waiting) eve_socket))
                     eve_socket "r7" None))
           eve_socket "r7")
  = delete "r7" (round_store bob_waiting).
Proof.
  apply (created_room_lives_until_left table_rules "r7"
           (round_store bob_waiting) eve_socket None).
  simpl. lia.
Defined.

Lemma join_after (R : Rules.t) (st : Store) (socket : Socket)
  (roomId : string) (name : option string) :
  after (joinRoomHandler R st socket roomId name)
  = match st !! roomId with
    | None => st
    | Some room =>
        if Nat.leb (Rules.players_max R) (JsMap.size (Room.players room))
        then st
        else put_player st roomId room (user_sub socket)
               (fresh_player socket name)
    end.
Proof.
  unfold joinRoomHandler. destruct (st !! roomId); [|reflexivity].
  destruct (Nat.leb _ _); reflexivity.
Qed.

Lemma leave_after (st : Store) (socket : Socket) (roomId : string) :
  after (leaveRoomHandler st socket roomId)
  = match st !! roomId with
    | None => st
    | Some room =>
        if Nat.eqb (JsMap.size (JsMap.remove (Room.players room)
                                  (user_sub socket))) 0
        then delete roomId st
        else <[roomId := Room.set_players room
                           (JsMap.remove (Room.players room)
                              (user_sub socket))]> st
    end.
Proof.
  unfold leaveRoomHandler. destruct (st !! roomId); [|reflexivity].
  cbv zeta. cbn [Room.players Room.set_players].
  destruct (Nat.eqb _ 0); cbn [after finish]; [|reflexivity].
  apply delete_insert_eq.
Qed.

(** X20. Joining twice is joining once, and leaving twice is leaving
    once, as far as the registry goes: a second join by the same
    connection under the same name, refused or not, leaves the registry
    the first join made; and in a room whose players have distinct ids a
    second leave finds nothing more to remove. *)
Theorem join_and_leave_are_idempotent (R : Rules.t) (st : Store)
  (socket : Socket) (roomId : string) (name : option string) :
  after (joinRoomHandler R
           (after (joinRoomHandler R st socket roomId name))
           socket roomId name)
  = after (joinRoomHandler R st socket roomId name) /\
  ((forall room, st !! roomId = Some room ->
                 JsMap.wf (Room.players room)) ->
   after (leaveRoomHandler (after (leaveRoomHandler st socket roomId))
            socket roomId)
   = after (leaveRoomHandler st socket roomId)).
Proof.
  split.
  - rewrite !join_after.
    destruct (st !! roomId) as [room|] eqn:Hroom; [|rewrite Hroom; reflexivity].
    destruct (Nat.leb (Rules.players_max R)
                (JsMap.size (Room.players room))) eqn:Hfull.
    { rewrite Hroom, Hfull. reflexivity. }
    unfold put_player at 1. rewrite lookup_insert_eq.
    cbn [Room.players Room.set_players].
    destruct (Nat.leb (Rules.players_max R)
                (JsMap.size
                   (JsMap.set (Room.players room) (user_sub socket)
                      (fresh_player socket name)))); [reflexivity|].
    unfold put_player. cbn [Room.players Room.set_players].
    rewrite set_set_same, insert_insert_eq. reflexivity.
  - intros Hwf. rewrite !leave_after.
    destruct (st !! roomId) as [room|] eqn:Hroom; [|rewrite Hroom; reflexivity].
    specialize (Hwf room eq_refl).
    destruct (Nat.eqb (JsMap.size (JsMap.remove (Room.players room)
                                     (user_sub socket))) 0) eqn:Hempty.
    + rewrite lookup_delete_eq. reflexivity.
    + rewrite lookup_insert_eq. cbn [Room.players Room.set_players].
      rewrite (remove_absent (JsMap.remove (Room.players room)
                                (user_sub socket)) (user_sub socket))
        by (apply get_remove_same, Hwf).
      rewrite Hempty, insert_insert_eq. reflexivity.
Qed.

Lemma join_and_leave_are_idempotent_witness :
  after (leaveRoomHandler
           (after (leaveRoomHandler full_store ann_socket "r1"))
           ann_socket "r1")
  = after (leaveRoomHandler full_store ann_socket "r1").
Proof.
  apply (join_and_leave_are_idempotent table_rules full_store ann_socket
           "r1" None).
  intros room Hroom. vm_compute in Hroom. injection Hroom as <-.
  unfold JsMap.wf. simpl. distinct_strings.
Defined.
